(** * Snapchat memories gallery generator: a shallow embedding of generate.py

    The script is a linear pipeline: [load_memories] normalises the records of
    the export, [download_media_files] fetches every record and writes it
    under media/, [group_by_year_month] buckets the downloaded records and
    [build_html] renders the gallery.  Python values are modelled as follows:

    - a [str] is a [string]: the bytes of its UTF-8 encoding, a lone
      surrogate (which [json.load] builds from an escape such as \ud800)
      being written as the three bytes that encoding gives it when
      surrogates are let through.  [Utf8] reads the code points back where
      the script or its libraries look at characters: the digits and the
      white space of [strptime], the first characters of an error text, the
      characters [print] cannot encode;
    - [lower] acts on the ASCII letters only.  The script uses lowered text
      in tests for ASCII words alone ("video", ".mp4", "overlay", "zip" and
      the like), and the only other characters that [str.lower] turns into
      text with an ASCII letter are U+0130, which gives "i" followed by
      U+0307, and U+212A, which gives "k": no word that is tested holds a
      "k", and in none is "i" the last letter or followed by U+0307, so
      the tests come out the same;
    - [bytes] is a [list byte];
    - a value decoded by [json.load] is a [json] tree; a JSON object is the
      list of its members in the order of the text, read as the dict that
      [json.load] makes of it;
    - a raised exception is the [Raise] branch of [result];
    - [defaultdict]s are [gmap]s, an [OrderedDict] filled in key order is the
      list of its (key, value) pairs;
    - the network, the ZIP library, the disk and the terminal are explicit:
      the first two are oracles the functions take as arguments, the third
      is the trace of [event]s a function returns, and of the fourth the
      functions are told which surrogates its error handler lets through
      ([stdout]).

    The lines the script prints matter in one way only: [print] raises
    UnicodeEncodeError on text that standard output cannot encode.  Standard
    output is taken to be a Unicode stream: it encodes every code point but
    the surrogates, so the fixed texts of the script and the numbers it
    prints always pass, and only text taken from the input (a date, the text
    of an exception) can stop it.  The path of the export is taken to be
    printable.  The pause after every twentieth download and the elapsed
    times have no part in any result and are left out; the clock is taken to
    advance between the start of the downloads and the twentieth of them.
    Creating media/ and writing a file are taken to succeed. *)

From Stdlib Require Import Strings.Ascii Strings.String Strings.Byte.
From stdpp Require Import gmap strings list sorting.

Set Warnings "-register-all,-abstract-large-number,-clear-no-such-hyp".

Local Open Scope string_scope.
Local Open Scope list_scope.
Local Open Scope nat_scope.
Local Open Scope stdpp_scope.

(** ** Python strings *)

Module Str.

(** [s.startswith(p)] *)
Fixpoint startswith (s p : string) : bool :=
  match p, s with
  | "", _ => true
  | String a p', String b s' => if Ascii.eqb a b then startswith s' p' else false
  | String _ _, "" => false
  end.

(** [p in s] *)
Fixpoint contains (p s : string) : bool :=
  startswith s p ||
  match s with
  | "" => false
  | String _ s' => contains p s'
  end.

(** [s.endswith(e)] *)
Fixpoint endswith (s e : string) : bool :=
  String.eqb s e ||
  match s with
  | "" => false
  | String _ s' => endswith s' e
  end.

Definition lower_ascii (c : ascii) : ascii :=
  let n := nat_of_ascii c in
  if (65 <=? n) && (n <=? 90) then ascii_of_nat (n + 32) else c.

(** [s.lower()] *)
Fixpoint lower (s : string) : string :=
  match s with
  | "" => ""
  | String c s' => String (lower_ascii c) (lower s')
  end.

(** [s.replace(old, new)] for a non-empty [old]: the occurrences are taken
    from the left and do not overlap; [skip] counts the characters of a
    matched occurrence that are still to be dropped. *)
Fixpoint replace_go (old new : string) (skip : nat) (s : string) : string :=
  match s with
  | "" => ""
  | String c s' =>
      match skip with
      | S k => replace_go old new k s'
      | O =>
          if startswith s old
          then new +:+ replace_go old new (String.length old - 1) s'
          else String c (replace_go old new 0 s')
      end
  end.

Definition replace (s old new : string) : string := replace_go old new 0 s.

(** Truth value of a string: [bool(s)] *)
Definition nonempty (s : string) : bool :=
  match s with "" => false | _ => true end.

(** The part of [s] after the last occurrence of [c] ([s] itself when
    there is none), and the part before the first one. *)
Fixpoint after_last_go (c : ascii) (s cur : string) : string :=
  match s with
  | "" => cur
  | String a s' =>
      if Ascii.eqb a c then after_last_go c s' s' else after_last_go c s' cur
  end.
Definition after_last (c : ascii) (s : string) : string := after_last_go c s s.

Fixpoint before_first (c : ascii) (s : string) : string :=
  match s with
  | "" => ""
  | String a s' => if Ascii.eqb a c then "" else String a (before_first c s')
  end.

Fixpoint has_char (c : ascii) (s : string) : bool :=
  match s with
  | "" => false
  | String a s' => Ascii.eqb a c || has_char c s'
  end.

End Str.

(** ** Characters *)

Module Utf8.

Definition is_cont (b : ascii) : bool :=
  (128 <=? N_of_ascii b)%N && (N_of_ascii b <? 192)%N.

(** [k] continuation bytes after the bytes [ch] of a character begun with
    the bits [acc]. *)
Fixpoint conts (k : nat) (acc : N) (ch s : string) : option (N * string * string) :=
  match k, s with
  | O, _ => Some (acc, ch, s)
  | S k', String b s' =>
      if is_cont b
      then conts k' (acc * 64 + (N_of_ascii b - 128))%N (ch +:+ String b "") s'
      else None
  | S _, "" => None
  end.

(** The first character of a text: its code point, its bytes and the text
    after it.  A byte that begins no character counts as U+FFFD. *)
Definition next (s : string) : option (N * string * string) :=
  match s with
  | "" => None
  | String b s' =>
      let n := N_of_ascii b in
      let char :=
        if (n <? 128)%N then Some (n, String b "", s')
        else if (n <? 192)%N then None
        else if (n <? 224)%N then conts 1 (n - 192)%N (String b "") s'
        else if (n <? 240)%N then conts 2 (n - 224)%N (String b "") s'
        else if (n <? 248)%N then conts 3 (n - 240)%N (String b "") s'
        else None in
      Some (default (65533%N, String b "", s') char)
  end.

(** The first [n] code points of a text, [s[:n]], and all of them. *)
Fixpoint codes (n : nat) (s : string) : list N :=
  match n with
  | O => []
  | S n' =>
      match next s with
      | Some (c, _, rest) => c :: codes n' rest
      | None => []
      end
  end.

Definition decode (s : string) : list N := codes (String.length s) s.

Definition is_surrogate (c : N) : bool := (0xD800 <=? c)%N && (c <=? 0xDFFF)%N.

(** [c.isspace()], which is also what [\s] matches in a [str] pattern. *)
Definition spaces : list N :=
  [0x9; 0xA; 0xB; 0xC; 0xD; 0x1C; 0x1D; 0x1E; 0x1F; 0x20; 0x85; 0xA0; 0x1680;
   0x2000; 0x2001; 0x2002; 0x2003; 0x2004; 0x2005; 0x2006; 0x2007; 0x2008;
   0x2009; 0x200A; 0x2028; 0x2029; 0x202F; 0x205F; 0x3000]%N.

Definition is_space (c : N) : bool := existsb (N.eqb c) spaces.

(** The decimal digits ([c.isdecimal()], what [\d] matches in a [str]
    pattern and what [int] reads) come in runs of ten, zero to nine; these
    are the zeros of Unicode 14.0, the database of CPython 3.11. *)
Definition decimal_zeros : list N :=
  [0x30; 0x660; 0x6F0; 0x7C0; 0x966; 0x9E6; 0xA66; 0xAE6; 0xB66; 0xBE6; 0xC66;
   0xCE6; 0xD66; 0xDE6; 0xE50; 0xED0; 0xF20; 0x1040; 0x1090; 0x17E0; 0x1810;
   0x1946; 0x19D0; 0x1A80; 0x1A90; 0x1B50; 0x1BB0; 0x1C40; 0x1C50; 0xA620;
   0xA8D0; 0xA900; 0xA9D0; 0xA9F0; 0xAA50; 0xABF0; 0xFF10; 0x104A0; 0x10D30;
   0x11066; 0x110F0; 0x11136; 0x111D0; 0x112F0; 0x11450; 0x114D0; 0x11650;
   0x116C0; 0x11730; 0x118E0; 0x11950; 0x11C50; 0x11D50; 0x11DA0; 0x16A60;
   0x16AC0; 0x16B50; 0x1D7CE; 0x1D7D8; 0x1D7E2; 0x1D7EC; 0x1D7F6; 0x1E140;
   0x1E2F0; 0x1E950; 0x1FBF0]%N.

(** The value of a decimal digit. *)
Definition decimal (c : N) : option nat :=
  match find (λ z, (z <=? c)%N && (c <? z + 10)%N) decimal_zeros with
  | Some z => Some (N.to_nat (c - z))
  | None => None
  end.

(** Whether [print] can write code points to a standard output whose error
    handler lets through the surrogates [stdout] (none of them when it is
    strict, U+DC80 to U+DCFF when it is surrogateescape). *)
Definition printable (stdout : N → bool) (cs : list N) : bool :=
  forallb (λ c, negb (is_surrogate c) || stdout c) cs.

(** Code points that any standard output can write. *)
Definition clean (cs : list N) : bool := forallb (λ c, negb (is_surrogate c)) cs.

End Utf8.

(** ** Decimal output of integers *)

Module Dec.

Definition digit (n : nat) : ascii := ascii_of_nat (48 + n mod 10).

Fixpoint go (fuel n : nat) (acc : string) : string :=
  match fuel with
  | O => acc
  | S f =>
      let acc' := String (digit n) acc in
      if n / 10 =? 0 then acc' else go f (n / 10) acc'
  end.

(** [str(n)] *)
Definition of_nat (n : nat) : string := go (S n) n "".

Fixpoint zeros (k : nat) : string :=
  match k with O => "" | S k' => String "0" (zeros k') end.

(** [format(n, "0<w>d")]: zero-filled on the left up to width [w]. *)
Definition zfill (w n : nat) : string :=
  let s := of_nat n in zeros (w - String.length s) +:+ s.

Definition is_digit (c : ascii) : bool :=
  let n := nat_of_ascii c in (48 <=? n) && (n <=? 57).

(** [int(s)] on a string of digits, read from the left with accumulator. *)
Fixpoint value_go (acc : nat) (s : string) : nat :=
  match s with
  | "" => acc
  | String c s' => value_go (10 * acc + (nat_of_ascii c - 48)) s'
  end.
Definition value (s : string) : nat := value_go 0 s.

Fixpoint all_digits (s : string) : bool :=
  match s with
  | "" => true
  | String c s' => is_digit c && all_digits s'
  end.

End Dec.

(** ** datetime *)

(** A naive [datetime.datetime]; [load_memories] never builds an aware one. *)
Record datetime := mk_datetime {
  year : nat; month : nat; day : nat;
  hour : nat; minute : nat; second : nat; microsecond : nat
}.

Definition is_leap (y : nat) : bool :=
  (y mod 4 =? 0) && (negb (y mod 100 =? 0) || (y mod 400 =? 0)).

Definition days_in_month (y m : nat) : nat :=
  match m with
  | 2 => if is_leap y then 29 else 28
  | 4 | 6 | 9 | 11 => 30
  | _ => 31
  end.

(** The values the [datetime] constructor accepts
    (MINYEAR = 1, MAXYEAR = 9999 = 9 * 1111). *)
Definition MAXYEAR : nat := 9 * 1111.

Definition valid_date (y m d : nat) : bool :=
  (1 <=? y) && (y <=? MAXYEAR) && (1 <=? m) && (m <=? 12) &&
  (1 <=? d) && (d <=? days_in_month y m).

Definition valid_datetime (dt : datetime) : bool :=
  valid_date (year dt) (month dt) (day dt) &&
  (hour dt <? 24) && (minute dt <? 60) && (second dt <? 60) &&
  (microsecond dt <? 1000 * 1000).

(** Comparison of naive datetimes is the comparison of their field tuples. *)
Definition dt_tuple (dt : datetime) : list nat :=
  [year dt; month dt; day dt; hour dt; minute dt; second dt; microsecond dt].

Fixpoint lex_leb (a b : list nat) : bool :=
  match a, b with
  | [], _ => true
  | _ :: _, [] => false
  | x :: a', y :: b' => (x <? y) || ((x =? y) && lex_leb a' b')
  end.

(** [a <= b] on datetimes *)
Definition dt_leb (a b : datetime) : bool := lex_leb (dt_tuple a) (dt_tuple b).

(** [calendar.month_name], also what [%B] prints in the C locale.  The
    month of a datetime is within 1 to 12; an index above 12, which only a
    record that is no datetime can hold, raises IndexError in Python and
    gives the empty text here. *)
Definition month_names : list string :=
  [""; "January"; "February"; "March"; "April"; "May"; "June"; "July";
   "August"; "September"; "October"; "November"; "December"].

Definition month_name (m : nat) : string := default "" (month_names !! m).

(** The two-digit decimal fields of [strftime], filled with a zero. *)
Definition two_digits (n : nat) : string :=
  String (Dec.digit (n / 10)) (String (Dec.digit n) "").

(** One directive of [strftime]; [tzname] is what [%Z] prints: the name of
    the time zone of an aware datetime, the empty string for a naive one.
    [%Y] is the year as the C library of Linux prints it, in decimal without
    filling: a year below 1000 has fewer than four digits. *)
Definition strftime_directive (tzname : string) (dt : datetime) (d : ascii) : string :=
  match d with
  | "Y"%char => Dec.of_nat (year dt)
  | "m"%char => two_digits (month dt)
  | "d"%char => two_digits (day dt)
  | "H"%char => two_digits (hour dt)
  | "M"%char => two_digits (minute dt)
  | "S"%char => two_digits (second dt)
  | "B"%char => month_name (month dt)
  | "Z"%char => tzname
  | "%"%char => "%"
  | _ => String "%" (String d "")
  end.

Fixpoint strftime_tz (tzname : string) (dt : datetime) (fmt : string) : string :=
  match fmt with
  | "" => ""
  | String c rest =>
      match c, rest with
      | "%"%char, String d rest' =>
          strftime_directive tzname dt d +:+ strftime_tz tzname dt rest'
      | _, _ => String c (strftime_tz tzname dt rest)
      end
  end.

(** [dt.strftime(fmt)] on a naive datetime *)
Definition strftime (dt : datetime) (fmt : string) : string := strftime_tz "" dt fmt.

(** ** strptime

    [datetime.strptime] turns the format into a regular expression with one
    named group per directive, matches it at the start of the text with the
    backtracking matcher of [re], refuses text that is longer than the match,
    and converts the groups.  The embedding follows that construction.

    The pattern is a [str] pattern compiled with IGNORECASE: [\d] and [\s]
    match the decimal digits and the white space of Unicode, and a letter
    matches either case.  IGNORECASE also lets "i" match U+0130 and U+0131
    and "s" match U+017F; a month name matched through one of them is then
    not found among the month names, which raises the same ValueError as
    text that does not match, so [Lit] compares ASCII letters only. *)

Module Re.

Inductive re :=
| Eps
| Lit (c : ascii)               (* a character, compared ignoring case *)
| Digit                         (* \d *)
| Range (lo hi : ascii)         (* [lo-hi] *)
| Spaces                        (* \s+ *)
| Cat (r1 r2 : re)
| Alt (r1 r2 : re)
| Group (name : ascii) (r : re) (* (?P<name>r) *).

Definition captures := list (ascii * string).

Definition in_range (lo hi c : ascii) : bool :=
  (nat_of_ascii lo <=? nat_of_ascii c) && (nat_of_ascii c <=? nat_of_ascii hi).

(** [\s] and [\d] at the start of a text: the bytes of the character and
    the text after it, with the value of the digit. *)
Definition next_space (s : string) : option (string * string) :=
  match Utf8.next s with
  | Some (c, ch, rest) => if Utf8.is_space c then Some (ch, rest) else None
  | None => None
  end.

Definition next_digit (s : string) : option (nat * string * string) :=
  match Utf8.next s with
  | Some (c, ch, rest) =>
      match Utf8.decimal c with
      | Some v => Some (v, ch, rest)
      | None => None
      end
  | None => None
  end.

(** Greedy [\s*] followed by the continuation; [fuel] bounds the number of
    characters taken. *)
Fixpoint spaces_star {R} (fuel : nat) (s acc : string)
    (k : string → string → option R) : option R :=
  match fuel with
  | O => k acc s
  | S fuel' =>
      match next_space s with
      | Some (ch, s') =>
          match spaces_star fuel' s' (acc +:+ ch) k with
          | Some v => Some v
          | None => k acc s
          end
      | None => k acc s
      end
  end.

(** [rmatch r s caps k]: match [r] at the start of [s]; the continuation
    receives the text consumed, the text left and the groups closed so far.
    [None] makes the matcher backtrack into the last open alternative. *)
Fixpoint rmatch {R} (r : re) (s : string) (caps : captures)
    (k : string → string → captures → option R) : option R :=
  match r with
  | Eps => k "" s caps
  | Lit c =>
      match s with
      | String a s' =>
          if Ascii.eqb (Str.lower_ascii a) (Str.lower_ascii c)
          then k (String a "") s' caps else None
      | "" => None
      end
  | Digit =>
      match next_digit s with
      | Some (_, ch, s') => k ch s' caps
      | None => None
      end
  | Range lo hi =>
      match s with
      | String a s' => if in_range lo hi a then k (String a "") s' caps else None
      | "" => None
      end
  | Spaces =>
      match next_space s with
      | Some (ch, s') =>
          spaces_star (String.length s') s' ch (λ c s'', k c s'' caps)
      | None => None
      end
  | Cat r1 r2 =>
      rmatch r1 s caps (λ c1 s1 caps1,
        rmatch r2 s1 caps1 (λ c2 s2 caps2, k (c1 +:+ c2) s2 caps2))
  | Alt r1 r2 =>
      match rmatch r1 s caps k with
      | Some v => Some v
      | None => rmatch r2 s caps k
      end
  | Group n r1 =>
      rmatch r1 s caps (λ c s' caps', k c s' ((n, c) :: caps'))
  end.

Fixpoint lit (s : string) : re :=
  match s with
  | "" => Eps
  | String c s' => Cat (Lit c) (lit s')
  end.

Fixpoint alts (l : list re) : re :=
  match l with
  | [] => Eps
  | [r] => r
  | r :: l' => Alt r (alts l')
  end.

Definition D (a b : ascii) : re := Range a b.

(** The groups of [_strptime.TimeRE] for the directives of the script. *)
Definition directive (d : ascii) : option re :=
  match d with
  | "Y"%char => Some (Group "Y" (Cat Digit (Cat Digit (Cat Digit Digit))))
  | "m"%char => Some (Group "m" (alts [Cat (Lit "1") (D "0" "2");
                                       Cat (Lit "0") (D "1" "9"); D "1" "9"]))
  | "d"%char => Some (Group "d" (alts [Cat (Lit "3") (D "0" "1");
                                       Cat (D "1" "2") Digit;
                                       Cat (Lit "0") (D "1" "9"); D "1" "9";
                                       Cat (Lit " ") (D "1" "9")]))
  | "H"%char => Some (Group "H" (alts [Cat (Lit "2") (D "0" "3");
                                       Cat (D "0" "1") Digit; Digit]))
  | "M"%char => Some (Group "M" (alts [Cat (D "0" "5") Digit; Digit]))
  | "S"%char => Some (Group "S" (alts [Cat (Lit "6") (D "0" "1");
                                       Cat (D "0" "5") Digit; Digit]))
  | "B"%char =>
      (* the month names, lowered, longest first *)
      Some (Group "B" (alts (lit <$>
        ["september"; "february"; "november"; "december"; "january"; "october";
         "august"; "march"; "april"; "june"; "july"; "may"])))
  | _ => None
  end.

(** [TimeRE.pattern]: a run of white space becomes [\s+], a directive its
    group, any other character itself. *)
Fixpoint pattern (fmt : string) : option re :=
  match fmt with
  | "" => Some Eps
  | String c rest =>
      match c, rest with
      | "%"%char, String d rest' =>
          match directive d, pattern rest' with
          | Some r, Some r' => Some (Cat r r')
          | _, _ => None
          end
      | "%"%char, "" => None
      | _, _ =>
          match pattern rest with
          | Some r' =>
              if Ascii.is_space c then
                match rest with
                | String c' _ => if Ascii.is_space c' then Some r' else Some (Cat Spaces r')
                | "" => Some (Cat Spaces r')
                end
              else Some (Cat (Lit c) r')
          | None => None
          end
      end
  end.

End Re.

Fixpoint lstrip_spaces (s : string) : string :=
  match s with
  | String " " s' => lstrip_spaces s'
  | _ => s
  end.

(** [int(group)]: a group holds decimal digits, of any script, after at most
    one blank. *)
Fixpoint int_go (fuel acc : nat) (s : string) : nat :=
  match fuel with
  | O => acc
  | S fuel' =>
      match Re.next_digit s with
      | Some (v, _, s') => int_go fuel' (10 * acc + v) s'
      | None => acc
      end
  end.

Definition int_of (s : string) : nat :=
  let t := lstrip_spaces s in int_go (String.length t) 0 t.

Fixpoint group (n : ascii) (caps : Re.captures) : option string :=
  match caps with
  | [] => None
  | (m, v) :: caps' => if Ascii.eqb n m then Some v else group n caps'
  end.

Fixpoint index_of (x : string) (l : list string) : option nat :=
  match l with
  | [] => None
  | y :: l' => if String.eqb x y then Some 0 else S <$> index_of x l'
  end.

(** The conversion of the groups; a field without group keeps its default
    (1900-01-01 00:00:00, and 1904 for a February 29 without year).  The
    date is then checked by the [date] constructor and the second (which the
    pattern lets reach 61) by the [datetime] constructor. *)
Definition of_groups (caps : Re.captures) : option datetime :=
  let num n d := from_option int_of d (group n caps) in
  let mo :=
    match group "B" caps with
    | Some b => default 1 (index_of (Str.lower b) (Str.lower <$> month_names))
    | None => num "m"%char 1
    end in
  let d := num "d"%char 1 in
  let y :=
    match group "Y" caps with
    | Some t => int_of t
    | None => if (mo =? 2) && (d =? 29) then 1904 else 1900
    end in
  let dt := mk_datetime y mo d (num "H"%char 0) (num "M"%char 0) (num "S"%char 0) 0 in
  if valid_datetime dt then Some dt else None.

(** [datetime.strptime(data, fmt)]; [None] stands for [ValueError]. *)
Definition strptime (data fmt : string) : option datetime :=
  match Re.pattern fmt with
  | None => None
  | Some r =>
      match Re.rmatch r data [] (λ _ rest caps, Some (rest, caps)) with
      | Some ("", caps) => of_groups caps
      | _ => None
      end
  end.

(** The date parsing of [load_memories], lines 43-49. *)
Definition date_formats : list string :=
  ["%Y-%m-%d %H:%M:%S %Z"; "%Y-%m-%d %H:%M:%S"; "%B %d, %Y"].

Fixpoint try_formats (date_str : string) (fmts : list string) : option datetime :=
  match fmts with
  | [] => None
  | fmt :: fmts' =>
      match strptime (Str.replace date_str " UTC" "") (Str.replace fmt " %Z" "") with
      | Some dt => Some dt          (* break *)
      | None => try_formats date_str fmts'   (* except ValueError: pass *)
      end
  end.

Definition parse_date (date_str : string) : option datetime :=
  try_formats date_str date_formats.

(** ** Values decoded by json.load, and exceptions *)

Inductive json :=
| JNull
| JBool (b : bool)
| JNum (n : Z)          (* a number; only its truth value is ever inspected *)
| JStr (s : string)
| JArr (l : list json)
| JObj (items : list (string * json)).  (* the members, in the order of the text *)

Inductive exn := AttributeError | TypeError | UnicodeEncodeError.

Inductive result (A : Type) :=
| Ok (a : A)
| Raise (e : exn).
Arguments Ok {A} a.
Arguments Raise {A} e.

(** [bool(v)] *)
Definition truthy (v : json) : bool :=
  match v with
  | JNull => false
  | JBool b => b
  | JNum n => negb (n =? 0)%Z
  | JStr s => Str.nonempty s
  | JArr l => match l with [] => false | _ => true end
  | JObj o => match o with [] => false | _ => true end
  end.

(** [a or b] *)
Definition py_or (a b : json) : json := if truthy a then a else b.

(** The value of a key in the dict of an object: of two members with one
    name [json.load] keeps the later. *)
Fixpoint dict_lookup (o : list (string * json)) (k : string) : option json :=
  match o with
  | [] => None
  | (k', v) :: o' =>
      match dict_lookup o' k with
      | Some v' => Some v'
      | None => if String.eqb k k' then Some v else None
      end
  end.

(** The keys of the dict, each once, where it first occurs; [seen] holds
    the keys already met. *)
Fixpoint dict_keys (seen : list string) (o : list (string * json)) : list string :=
  match o with
  | [] => []
  | (k, _) :: o' =>
      if existsb (String.eqb k) seen then dict_keys seen o'
      else k :: dict_keys (k :: seen) o'
  end.

(** [enumerate(l)] *)
Fixpoint enumerate_from {A} (i : nat) (l : list A) : list (nat * A) :=
  match l with
  | [] => []
  | x :: l' => (i, x) :: enumerate_from (S i) l'
  end.

Definition enumerate {A} (l : list A) : list (nat * A) := enumerate_from 0 l.

(** [o.get(k)]: [None], which is also what a JSON null decodes to, when the
    key is missing. *)
Definition dict_get (o : list (string * json)) (k : string) : json :=
  default JNull (dict_lookup o k).

(** ** Loader (load_memories) *)

(** The dict appended to [normalized]. *)
Record memory := mk_memory {
  r_datetime : datetime;
  r_date_str : string;
  r_media_type : json;
  r_location : json;
  r_url : json
}.

Section Loader.

(** The surrogates that the error handler of standard output lets through. *)
Variable stdout : N → bool.

(** The body of the loop on the item at position [idx]: [Ok None] is
    [continue], [Ok (Some r)] appends [r]; a non-dict item has no [get], a
    date that is no string has no [replace].  For the first five items the
    date that does not parse is printed, line 53, which raises when standard
    output cannot encode it; the line printed for a missing date or URL,
    line 39, holds nothing of the input. *)
Definition normalize_item (idx : nat) (item : json) : result (option memory) :=
  match item with
  | JObj o =>
      let date_str := py_or (dict_get o "Date") (dict_get o "date") in
      let media_type :=
        py_or (py_or (dict_get o "Media Type") (dict_get o "media_type")) (JStr "") in
      let location :=
        py_or (py_or (dict_get o "Location") (dict_get o "location")) (JStr "") in
      let media_download_url :=
        py_or (py_or (dict_get o "Media Download Url") (dict_get o "Media Download URL"))
              (dict_get o "media_download_url") in
      let wrapper_link := py_or (dict_get o "Download Link") (dict_get o "download_link") in
      let download_link := py_or media_download_url wrapper_link in
      if negb (truthy date_str) || negb (truthy download_link) then Ok None
      else
        match date_str with
        | JStr s =>
            match parse_date s with
            | Some dt => Ok (Some (mk_memory dt s media_type location download_link))
            | None =>
                if (idx <? 5) && negb (Utf8.printable stdout (Utf8.decode s))
                then Raise UnicodeEncodeError
                else Ok None
            end
        | _ => Raise AttributeError
        end
  | _ => Raise AttributeError
  end.

(** The loop over [enumerate(items)]. *)
Fixpoint load_loop (items : list (nat * json)) (normalized : list memory)
    : result (list memory) :=
  match items with
  | [] => Ok normalized
  | (idx, item) :: rest =>
      match normalize_item idx item with
      | Raise e => Raise e
      | Ok None => load_loop rest normalized
      | Ok (Some r) => load_loop rest (normalized ++ [r])
      end
  end.

(** The characters of a string, each a string of its own. *)
Fixpoint chars_go (fuel : nat) (s : string) : list json :=
  match fuel with
  | O => []
  | S fuel' =>
      match Utf8.next s with
      | Some (_, ch, rest) => JStr ch :: chars_go fuel' rest
      | None => []
      end
  end.

Definition chars (s : string) : list json := chars_go (String.length s) s.

(** What [len(items)] and [enumerate(items)] make of the value under
    "Saved Media": a list gives its elements, a dict its keys, a string its
    characters; anything else has no [len]. *)
Definition saved_media (data : json) : result (list json) :=
  match data with
  | JObj top =>
      match default (JArr []) (dict_lookup top "Saved Media") with
      | JArr l => Ok l
      | JObj o => Ok (JStr <$> dict_keys [] o)
      | JStr s => Ok (chars s)
      | _ => Raise TypeError
      end
  | _ => Raise AttributeError
  end.

Definition load_memories (data : json) : result (list memory) :=
  match saved_media data with
  | Ok items => load_loop (enumerate items) []
  | Raise e => Raise e
  end.

End Loader.

(** ** Fetcher (download_media_files) *)

(** What [urlopen] hands back: the body and the content-type header. *)
Record response := mk_response {
  resp_data : list byte;
  resp_content_type : option string
}.

(** What lines 115 to 118 come to for a URL that is a text: the response
    read, or the exception that one of the handlers of lines 180 to 188
    receives, with the text [str(e)] where the handler prints it. *)
Inductive reply :=
| Got (resp : response)
| URLError (text : string)
| TimeoutError
| OtherException (text : string).

(** An archive opened by [zipfile.ZipFile]: its entries in the order of the
    archive, each with its name and what reading it gives, [None] when
    reading raises.  Two entries may bear one name. *)
Record zipfile := mk_zipfile {
  filelist : list (string * option (list byte))
}.

(** [zf.namelist()] *)
Definition namelist (zf : zipfile) : list string := (filelist zf).*1.

(** [zf.read(name)]: the archive finds an entry by its name, and of two
    entries with one name it finds the later. *)
Definition zread (zf : zipfile) (name : string) : option (list byte) :=
  match find (λ e, String.eqb e.1 name) (reverse (filelist zf)) with
  | Some e => e.2
  | None => None
  end.

(** The record appended to [downloaded]: the copy of the item with its
    "local_path". *)
Record downloaded_item := mk_downloaded {
  d_item : memory;
  local_path : string
}.

Definition d_datetime (d : downloaded_item) : datetime := r_datetime (d_item d).

(** What one pass through the loop does to the outside world.  [EvGet] is
    the call of urllib for a URL (lines 115 and 116), which may fail before
    anything is sent. *)
Inductive event :=
| EvGet (idx : nat) (url : string)
| EvZipOpen (data : list byte)
| EvZipRead (name : string)
| EvWrite (path : string) (data : list byte).

Inductive outcome :=
| Saved (d : downloaded_item)
| Failed
| Crash (e : exn).

(** The extension; [media_type] is the lowered media type.  A URL that is no
    string has no [lower]. *)
Definition choose_ext (media_type : string) (url : json) : result string :=
  if Str.contains "video" media_type then Ok "mp4"
  else if Str.contains "image" media_type || Str.contains "photo" media_type then Ok "jpg"
  else
    match url with
    | JStr u =>
        let url_lower := Str.lower u in
        if Str.contains ".mp4" url_lower then Ok "mp4"
        else if Str.contains ".mov" url_lower then Ok "mov"
        else if Str.contains ".jpg" url_lower || Str.contains ".jpeg" url_lower then Ok "jpg"
        else if Str.contains ".png" url_lower then Ok "png"
        else Ok "jpg"
    | _ => Raise AttributeError
    end.

(** [f"{timestamp}_{idx:04d}.{ext}"] *)
Definition make_filename (dt : datetime) (idx : nat) (ext : string) : string :=
  strftime dt "%Y%m%d_%H%M%S" +:+ "_" +:+ Dec.zfill 4 idx +:+ "." +:+ ext.

Definition zip_magic : list byte := [x50; x4b; x03; x04].

(** [a == b] on bytes *)
Fixpoint bytes_eqb (a b : list byte) : bool :=
  match a, b with
  | [], [] => true
  | x :: a', y :: b' => Byte.eqb x y && bytes_eqb a' b'
  | _, _ => false
  end.

Definition is_zip (content_type : string) (data : list byte) : bool :=
  Str.contains "zip" content_type || bytes_eqb (take 4 data) zip_magic.

Definition media_suffixes : list string :=
  [".mp4"; ".mov"; ".jpg"; ".jpeg"; ".png"; ".heic"].

Definition is_main (name : string) : bool := Str.contains "-main." name.

Definition is_fallback (name : string) : bool :=
  negb (Str.contains "-overlay" name) &&
  negb (Str.contains "overlay" (Str.lower name)) &&
  existsb (λ e, Str.endswith (Str.lower name) e) media_suffixes.

(** Truth value of [main_file], which is [None] or a name. *)
Definition name_found (main_file : option string) : bool :=
  match main_file with
  | Some n => Str.nonempty n
  | None => false
  end.

(** The two searches over [zf.namelist()], lines 131-144, and the test
    [if main_file:] that follows them: the name to extract, if any. *)
Definition find_main_file (names : list string) : option string :=
  let main_file := find is_main names in
  let main_file :=
    if name_found main_file then main_file
    else
      match find is_fallback names with
      | Some n => Some n
      | None => main_file
      end in
  if name_found main_file then main_file else None.

Section Fetcher.

(** The surrogates that the error handler of standard output lets through. *)
Variable stdout : N → bool.
(** [urlopen idx url]: what urllib makes of the URL of the item at position
    [idx]. *)
Variable urlopen : nat → string → reply.
(** [ZipFile data]: [None] for BadZipFile, and for any other exception of
    the library; the texts of those exceptions name an entry through its
    [repr], and print. *)
Variable ZipFile : list byte → option zipfile.

(** A handler that prints the first [n] characters of the text of the
    exception and then counts the item as failed: [print] raises when
    standard output cannot encode them. *)
Definition report (n : nat) (text : string) : outcome :=
  if Utf8.printable stdout (Utf8.codes n text) then Failed
  else Crash UnicodeEncodeError.

Definition download_one (idx : nat) (item : memory) : list event * outcome :=
  match r_media_type item with
  | JStr mt =>
      let media_type := Str.lower mt in
      match choose_ext media_type (r_url item) with
      | Raise e => ([], Crash e)
      | Ok ext =>
          let filename := make_filename (r_datetime item) idx ext in
          let relative_path := "media/" +:+ filename in
          match r_url item with
          | JStr url =>
              match urlopen idx url with
              | URLError text => ([EvGet idx url], report 40 text)
              | TimeoutError => ([EvGet idx url], Failed)
              | OtherException text => ([EvGet idx url], report 50 text)
              | Got resp =>
                  let data := resp_data resp in
                  let content_type :=
                    Str.lower (default "" (resp_content_type resp)) in
                  if is_zip content_type data then
                    match ZipFile data with
                    | None => ([EvGet idx url; EvZipOpen data], Failed)
                    | Some zf =>
                        match find_main_file (namelist zf) with
                        | Some main_file =>
                            match zread zf main_file with
                            | Some data' =>
                                ([EvGet idx url; EvZipOpen data; EvZipRead main_file;
                                  EvWrite relative_path data'],
                                 Saved (mk_downloaded item relative_path))
                            | None =>
                                ([EvGet idx url; EvZipOpen data; EvZipRead main_file],
                                 Failed)
                            end
                        | None => ([EvGet idx url; EvZipOpen data], Failed)
                        end
                    end
                  else
                    ([EvGet idx url; EvWrite relative_path data],
                     Saved (mk_downloaded item relative_path))
              end
          | _ =>
              (* a URL that is no text: urllib makes a text of it that has
                 no scheme or an unknown one, nothing is sent, and the text
                 of the exception prints *)
              ([], Failed)
          end
      end
  | _ => ([], Crash AttributeError)
  end.

Record dl_state := mk_dl_state {
  downloaded : list downloaded_item;
  failed : list memory;
  trace : list event
}.

(** The loop over [enumerate(items)]; an exception leaves it at once. *)
Fixpoint download_loop (idx : nat) (items : list memory) (st : dl_state)
    : dl_state * option exn :=
  match items with
  | [] => (st, None)
  | item :: rest =>
      let '(evs, o) := download_one idx item in
      match o with
      | Saved d =>
          download_loop (S idx) rest
            (mk_dl_state (downloaded st ++ [d]) (failed st) (trace st ++ evs))
      | Failed =>
          download_loop (S idx) rest
            (mk_dl_state (downloaded st) (failed st ++ [item]) (trace st ++ evs))
      | Crash e =>
          (mk_dl_state (downloaded st) (failed st) (trace st ++ evs), Some e)
      end
  end.

Definition download_media_files (items : list memory) : dl_state * option exn :=
  download_loop 0 items (mk_dl_state [] [] []).

End Fetcher.

(** ** Grouper (group_by_year_month) *)

Section Sorting.
Context {A K : Type} (key : A → K) (leb : K → K → bool).

(** [sorted(l, key=key, reverse=True)]: the stable sort, largest key
    first; items of equal key keep their order. *)
Fixpoint insert_desc (x : A) (l : list A) : list A :=
  match l with
  | [] => [x]
  | y :: l' => if leb (key y) (key x) then x :: l else y :: insert_desc x l'
  end.

Definition sorted_reverse (l : list A) : list A := foldr insert_desc [] l.
End Sorting.

(** [grouped[dt.year][dt.month].append(item)] on the nested defaultdict *)
Definition add_item (grouped : gmap nat (gmap nat (list downloaded_item)))
    (item : downloaded_item) : gmap nat (gmap nat (list downloaded_item)) :=
  let dt := d_datetime item in
  let months := default ∅ (grouped !! year dt) in
  let bucket := default [] (months !! month dt) in
  <[year dt := <[month dt := bucket ++ [item]]> months]> grouped.

Definition keys {V} (m : gmap nat V) : list nat := (map_to_list m).*1.

Definition order_months (months : gmap nat (list downloaded_item))
    : list (nat * list downloaded_item) :=
  (λ mo, (mo, sorted_reverse d_datetime dt_leb (months !!! mo)))
    <$> sorted_reverse id Nat.leb (keys months).

(** The GroupedIndex: the years in the order of the outer OrderedDict, each
    with the months in the order of its inner one. *)
Definition group_by_year_month (items : list downloaded_item)
    : list (nat * list (nat * list downloaded_item)) :=
  let grouped := foldl add_item ∅ items in
  (λ y, (y, order_months (grouped !!! y)))
    <$> sorted_reverse id Nat.leb (keys grouped).

(** ** Renderer (build_html) *)

Definition plural (n : nat) : string := if n =? 1 then "" else "s".

Definition sum_list (l : list nat) : nat := foldr Nat.add 0 l.

Definition html_head (total_items total_years total_months : nat) : string :=
  "<!DOCTYPE html>
<html lang='en'>
<head>
  <meta charset='UTF-8'>
  <meta name='viewport' content='width=device-width, initial-scale=1.0'>
  <title>Snapchat Memories</title>
  <link rel='preconnect' href='https://fonts.googleapis.com'>
  <link rel='preconnect' href='https://fonts.gstatic.com' crossorigin>
  <link href='https://fonts.googleapis.com/css2?family=Manrope:wght@400;600;700&display=swap' rel='stylesheet'>
  <style>
    * { box-sizing: border-box; }
    
    body {
      margin: 0;
      font-family: -apple-system, BlinkMacSystemFont, 'Segoe UI', system-ui, sans-serif;
      background: #ffffff;
      color: #1a1a1a;
    }
    
    .page {
      max-width: 1120px;
      margin: 0 auto;
      padding: 32px 20px 64px;
    }
    
    header {
      margin-bottom: 32px;
      text-align: center;
    }
    
    h1 {
      font-size: 2.5rem;
      margin: 0 0 8px;
      font-weight: 700;
      font-family: 'Manrope', sans-serif;
    }
    
    .chip {
      display: inline-block;
      padding: 4px 12px;
      background: #f0f0f0;
      border-radius: 12px;
      font-size: 0.8rem;
      margin: 8px 0;
    }
    
    .subtitle {
      color: #666;
      font-size: 1rem;
      margin: 16px 0;
      line-height: 1.5;
    }
    
    .stats {
      display: flex;
      gap: 12px;
      justify-content: center;
      margin: 16px 0;
      flex-wrap: wrap;
    }
    
    .stat {
      padding: 8px 16px;
      background: #f8f9fa;
      border-radius: 20px;
      font-size: 0.9rem;
      border: 1px solid #e0e0e0;
    }
    
    .year-group {
      margin-bottom: 32px;
    }
    
    .year-header {
      font-size: 1.8rem;
      font-weight: 700;
      margin-bottom: 16px;
      padding-bottom: 12px;
      border-bottom: 2px solid #e0e0e0;
    }
    
    .year-summary {
      font-size: 0.9rem;
      color: #666;
      font-weight: 400;
      margin-top: 4px;
    }
    
    .month {
      margin-bottom: 16px;
      border: 1px solid #e0e0e0;
      border-radius: 12px;
      overflow: hidden;
    }
    
    .month-header {
      padding: 16px 20px;
      background: #f8f9fa;
      cursor: pointer;
      display: flex;
      justify-content: space-between;
      align-items: center;
      user-select: none;
    }
    
    .month-header:hover {
      background: #f0f0f0;
    }
    
    .month-title {
      font-size: 1.1rem;
      font-weight: 600;
    }
    
    .month-count {
      font-size: 0.85rem;
      color: #666;
      margin-top: 2px;
    }
    
    .month-badges {
      display: flex;
      gap: 8px;
      align-items: center;
    }
    
    .badge {
      padding: 4px 10px;
      background: white;
      border: 1px solid #e0e0e0;
      border-radius: 12px;
      font-size: 0.75rem;
      color: #666;
    }
    
    .chevron {
      margin-left: 8px;
      transition: transform 0.2s;
    }
    
    .month.open .chevron {
      transform: rotate(90deg);
    }
    
    .month-content {
      max-height: 0;
      overflow: hidden;
      transition: max-height 0.3s ease;
      background: #fafafa;
    }
    
    .month.open .month-content {
      max-height: 10000px;
    }
    
    .grid {
      display: grid;
      grid-template-columns: repeat(auto-fill, minmax(180px, 1fr));
      gap: 14px;
      padding: 20px;
    }
    
    .card {
      background: white;
      border: 1px solid #e0e0e0;
      border-radius: 8px;
      overflow: hidden;
      box-shadow: 0 2px 4px rgba(0,0,0,0.06);
    }
    
    .media {
      width: 100%;
      aspect-ratio: 9/16;
      object-fit: cover;
      background: #f0f0f0;
      display: block;
    }
    
    video.media {
      object-fit: cover;
      background: #000;
    }
    
    .card-footer {
      padding: 10px;
      text-align: center;
      font-size: 0.8rem;
      color: #666;
    }
    
    .type-badge {
      position: absolute;
      top: 8px;
      left: 8px;
      padding: 4px 10px;
      background: rgba(255,255,255,0.95);
      border-radius: 12px;
      font-size: 0.7rem;
      text-transform: uppercase;
      letter-spacing: 0.05em;
    }
    
    .media-wrapper {
      position: relative;
    }
    
    @media (max-width: 768px) {
      .grid {
        grid-template-columns: repeat(auto-fill, minmax(150px, 1fr));
        gap: 12px;
        padding: 12px;
      }
      
      h1 {
        font-size: 2rem;
      }
    }
  </style>
</head>
<body>
  <div class='page'>
    <header>
      <h1>📸 Snapchat Archives</h1>
      <div class='chip'>Memories Saved Offline</div>
      <p class='subtitle'>
        Don't pay for a Snapchat subscription! All memories are stored locally, so you're memories won't expire.
      </p>
      <div class='stats'>
        <div class='stat'>"
  +:+ Dec.of_nat total_items
  +:+ " memories</div>
        <div class='stat'>"
  +:+ Dec.of_nat total_years
  +:+ " years</div>
        <div class='stat'>"
  +:+ Dec.of_nat total_months
  +:+ " months</div>
      </div>
    </header>
    
    <main>
".

Definition html_year (year year_count n_months : nat) : string :=
  "
      <div class='year-group'>
        <div class='year-header'>
          "
  +:+ Dec.of_nat year
  +:+ "
          <div class='year-summary'>"
  +:+ Dec.of_nat year_count
  +:+ " snap"
  +:+ plural year_count
  +:+ " · "
  +:+ Dec.of_nat n_months
  +:+ " month"
  +:+ plural n_months
  +:+ "</div>
        </div>
".

Definition html_month (month_name : string) (count vid_count img_count : nat) : string :=
  "
        <div class='month'>
          <div class='month-header'>
            <div>
              <div class='month-title'>"
  +:+ month_name
  +:+ "</div>
              <div class='month-count'>"
  +:+ Dec.of_nat count
  +:+ " item"
  +:+ plural count
  +:+ "</div>
            </div>
            <div class='month-badges'>
              <span class='badge'>"
  +:+ Dec.of_nat vid_count
  +:+ " video"
  +:+ plural vid_count
  +:+ "</span>
              <span class='badge'>"
  +:+ Dec.of_nat img_count
  +:+ " photo"
  +:+ plural img_count
  +:+ "</span>
              <span class='chevron'>▶</span>
            </div>
          </div>
          <div class='month-content'>
            <div class='grid'>
".

Definition html_card (type_badge media_html date_label : string) : string :=
  "
              <div class='card'>
                <div class='media-wrapper'>
                  "
  +:+ type_badge
  +:+ "
                  "
  +:+ media_html
  +:+ "
                </div>
                <div class='card-footer'>"
  +:+ date_label
  +:+ "</div>
              </div>
".

Definition html_month_end  : string :=
  "
            </div>
          </div>
        </div>
".

Definition html_year_end  : string :=
  "
      </div>
".

Definition html_tail  : string :=
  "
    </main>
  </div>
  
  <script>
    // Accordion functionality
    document.addEventListener('DOMContentLoaded', function() {
      const months = document.querySelectorAll('.month');
      
      // Open first month by default
      if (months[0]) {
        months[0].classList.add('open');
      }
      
      months.forEach(month => {
        const header = month.querySelector('.month-header');
        header.addEventListener('click', () => {
          month.classList.toggle('open');
        });
      });
    });
  </script>
</body>
</html>
".

(** ["video" in item["media_type"].lower()] *)
Definition is_video (item : downloaded_item) : result bool :=
  match r_media_type (d_item item) with
  | JStr s => Ok (Str.contains "video" (Str.lower s))
  | _ => Raise AttributeError
  end.

Fixpoint count_videos (items : list downloaded_item) : result nat :=
  match items with
  | [] => Ok 0
  | i :: rest =>
      match is_video i with
      | Raise e => Raise e
      | Ok b =>
          match count_videos rest with
          | Raise e => Raise e
          | Ok n => Ok ((if b then 1 else 0) + n)
          end
      end
  end.

Definition build_card (item : downloaded_item) : result string :=
  let date_label := strftime (d_datetime item) "%B %d, %Y" in
  match is_video item with
  | Raise e => Raise e
  | Ok true =>
      Ok (html_card "<div class='type-badge'>▶ Video</div>"
            ("<video class='media' controls preload='metadata' src='"
               +:+ local_path item +:+ "'></video>")
            date_label)
  | Ok false =>
      Ok (html_card "<div class='type-badge'>📷 Photo</div>"
            ("<img class='media' src='" +:+ local_path item +:+ "' alt='"
               +:+ date_label +:+ "' loading='lazy'>")
            date_label)
  end.

(** A loop [for x in l: html += f(x)], stopped by the first exception. *)
Fixpoint concat_results {A} (f : A → result string) (l : list A) : result string :=
  match l with
  | [] => Ok ""
  | x :: rest =>
      match f x with
      | Raise e => Raise e
      | Ok h =>
          match concat_results f rest with
          | Raise e => Raise e
          | Ok h' => Ok (h +:+ h')
          end
      end
  end.

Definition build_month (entry : nat * list downloaded_item) : result string :=
  let '(month_num, items) := entry in
  let count := length items in
  match count_videos items with
  | Raise e => Raise e
  | Ok vid_count =>
      let img_count := count - vid_count in
      match concat_results build_card items with
      | Raise e => Raise e
      | Ok cards =>
          Ok (html_month (month_name month_num) count vid_count img_count
                +:+ cards +:+ html_month_end)
      end
  end.

Definition build_year (entry : nat * list (nat * list downloaded_item)) : result string :=
  let '(y, months) := entry in
  let year_count := sum_list ((λ e, length e.2) <$> months) in
  match concat_results build_month months with
  | Raise e => Raise e
  | Ok sections =>
      Ok (html_year y year_count (length months) +:+ sections +:+ html_year_end)
  end.

Definition build_html (grouped : list (nat * list (nat * list downloaded_item)))
    : result string :=
  let total_items :=
    sum_list ((λ ye, sum_list ((λ e, length e.2) <$> ye.2)) <$> grouped) in
  let total_years := length grouped in
  let total_months := sum_list ((λ ye, length ye.2) <$> grouped) in
  match concat_results build_year grouped with
  | Raise e => Raise e
  | Ok sections =>
      Ok (html_head total_items total_years total_months +:+ sections +:+ html_tail)
  end.

(** ** The script (main) *)

(** What is found at [json_path]: nothing, a file that cannot be opened or
    that [json.load] cannot decode, or a JSON document. *)
Inductive input_file :=
| Missing
| Undecodable
| Document (data : json).

(** A run: the exit status of the process, what the Fetcher did, and the
    text written to memories_gallery.html, if any. *)
Record run := mk_run {
  exit_code : nat;
  effects : list event;
  gallery : option string
}.

Section Main.
Variable stdout : N → bool.
Variable urlopen : nat → string → reply.
Variable ZipFile : list byte → option zipfile.

(** [sys.exit(1)] and an exception nobody catches both end the process
    with status 1. *)
Definition main (file : input_file) : run :=
  match file with
  | Missing => mk_run 1 [] None
  | Undecodable => mk_run 1 [] None
  | Document data =>
      match load_memories stdout data with
      | Raise _ => mk_run 1 [] None
      | Ok memories =>
          match memories with
          | [] => mk_run 1 [] None
          | _ :: _ =>
              let '(st, e) := download_media_files stdout urlopen ZipFile memories in
              match e with
              | Some _ => mk_run 1 (trace st) None
              | None =>
                  match downloaded st with
                  | [] => mk_run 1 (trace st) None
                  | _ :: _ =>
                      match build_html (group_by_year_month (downloaded st)) with
                      | Raise _ => mk_run 1 (trace st) None
                      | Ok html => mk_run 0 (trace st) (Some html)
                      end
                  end
              end
          end
      end
  end.
End Main.

(** ** Notions used by the statements *)

(** [x] is the first element of [l] that satisfies [P]. *)
Definition first_such {A} (P : A → bool) (l : list A) (x : A) : Prop :=
  ∃ l1 l2, l = l1 ++ x :: l2 ∧ P x = true ∧ Forall (λ y, P y = false) l1.

(** An archive entry that is no overlay, whatever the case of its letters,
    and whose name ends in a media suffix. *)
Definition plain_media (name : string) : bool :=
  negb (Str.contains "overlay" (Str.lower name)) &&
  existsb (λ e, Str.endswith (Str.lower name) e) media_suffixes.

(** The entry the Fetcher is to extract from an archive with the entries
    [names]: the first "-main." entry; without one, the first plain media
    entry; without either, none. *)
Definition chosen_entry (names : list string) (choice : option string) : Prop :=
  match choice with
  | Some n =>
      first_such is_main names n ∨
      (Forall (λ x, is_main x = false) names ∧ first_such plain_media names n)
  | None => Forall (λ x, is_main x = false ∧ plain_media x = false) names
  end.

(** [e] is the last entry of an archive that bears the name [n]. *)
Definition last_named (n : string) (entries : list (string * option (list byte)))
    (e : string * option (list byte)) : Prop :=
  ∃ l1 l2, entries = l1 ++ e :: l2 ∧ e.1 = n ∧ Forall (λ x, x.1 ≠ n) l2.

(** The files a trace writes, in order. *)
Definition written_paths (evs : list event) : list string :=
  omap (λ e, match e with EvWrite p _ => Some p | _ => None end) evs.

Definition is_zip_event (e : event) : bool :=
  match e with EvZipOpen _ | EvZipRead _ => true | _ => false end.

(** The URL rule with "contains": the first of the markers found anywhere in
    the lowered URL decides. *)
Definition url_markers : list (string * string) :=
  [(".mp4", "mp4"); (".mov", "mov"); (".jpg", "jpg"); (".jpeg", "jpg"); (".png", "png")].

Definition ext_by_marker (test : string → string → bool) (url : string) : string :=
  match find (λ me, test (Str.lower url) me.1) url_markers with
  | Some me => me.2
  | None => "jpg"
  end.

Definition ext_rule (test : string → string → bool) (media_type url : string) : string :=
  let mt := Str.lower media_type in
  if Str.contains "video" mt then "mp4"
  else if existsb (λ w, Str.contains w mt) ["image"; "photo"] then "jpg"
  else ext_by_marker test url.

(** The rule as the specification words it, on the suffix of the URL, and
    the rule on any occurrence in the URL. *)
Definition ext_rule_suffix : string → string → string := ext_rule Str.endswith.
Definition ext_rule_anywhere : string → string → string :=
  ext_rule (λ u m, Str.contains m u).

(** The sequence number printed in a media path: the digits between the last
    underscore and the dot that follows. *)
Definition path_index (path : string) : nat :=
  Dec.value (Str.before_first "." (Str.after_last "_" path)).

(** The buckets of a GroupedIndex, each under its (year, month), in the
    order of iteration, and what they hold together. *)
Definition buckets (g : list (nat * list (nat * list downloaded_item)))
    : list ((nat * nat) * list downloaded_item) :=
  g ≫= (λ ye, (λ me, ((ye.1, me.1), me.2)) <$> ye.2).

Definition contents (bs : list ((nat * nat) * list downloaded_item))
    : list downloaded_item :=
  bs ≫= snd.

(** [b] is no later than [a]. *)
Definition not_after (b a : downloaded_item) : Prop :=
  dt_leb (d_datetime b) (d_datetime a) = true.

(** The nested dictionary of the Grouper: a bucket, and the keys present. *)
Definition bucket (g : gmap nat (gmap nat (list downloaded_item))) (y m : nat)
    : list downloaded_item :=
  default [] (default ∅ (g !! y) !! m).

Definition in_bucket (y m : nat) (d : downloaded_item) : Prop :=
  year (d_datetime d) = y ∧ month (d_datetime d) = m.

Local Instance in_bucket_dec y m d : Decision (in_bucket y m d).
Proof. unfold in_bucket. apply _. Defined.

Definition has_month (g : gmap nat (gmap nat (list downloaded_item))) (y m : nat) : Prop :=
  is_Some (default ∅ (g !! y) !! m).


(** The years and, for a year, the months the GroupedIndex iterates over. *)
Definition months_of (items : list downloaded_item) (y : nat) : list nat :=
  sorted_reverse id Nat.leb (keys (default ∅ (foldl add_item ∅ items !! y))).

Definition years_of (items : list downloaded_item) : list nat :=
  sorted_reverse id Nat.leb (keys (foldl add_item ∅ items)).


(** The decimal text of a number of four digits. *)
Definition four_digits (n : nat) : string :=
  String (Dec.digit (n / 1000)) (String (Dec.digit (n / 100))
    (String (Dec.digit (n / 10)) (String (Dec.digit n) ""))).

(** What a printed date encodes of a datetime: the calendar date with the
    time of day to the second, or the calendar date alone (midnight). *)
Definition at_second (dt : datetime) : datetime :=
  mk_datetime (year dt) (month dt) (day dt) (hour dt) (minute dt) (second dt) 0.

Definition at_midnight (dt : datetime) : datetime :=
  mk_datetime (year dt) (month dt) (day dt) 0 0 0 0.

(** The keys under which a record may carry its date and its download URL. *)
Definition date_keys : list string := ["Date"; "date"].

Definition url_keys : list string :=
  ["Media Download Url"; "Media Download URL"; "media_download_url";
   "Download Link"; "download_link"].

Definition lacks (keys : list string) (o : list (string * json)) : Prop :=
  Forall (λ k, dict_lookup o k = None) keys.

(** Whether the Loader skips the item at a position, and the record it
    keeps of it. *)
Definition excluded (stdout : N → bool) (it : nat * json) : bool :=
  match normalize_item stdout it.1 it.2 with Ok None => true | _ => false end.

Definition kept (stdout : N → bool) (it : nat * json) : option memory :=
  match normalize_item stdout it.1 it.2 with Ok (Some r) => Some r | _ => None end.

(** A text without lone surrogate: any standard output prints it. *)
Definition clean_text (s : string) : Prop := Utf8.clean (Utf8.decode s) = true.

(** A value that is absent (or null) or a text without lone surrogate. *)
Definition textish (v : json) : Prop := v = JNull ∨ ∃ s, v = JStr s ∧ clean_text s.

(** An export whose records are objects with text fields only, the texts
    without lone surrogate. *)
Definition text_record (item : json) : Prop :=
  ∃ o, item = JObj o ∧ Forall (λ kv, ∃ s, kv.2 = JStr s ∧ clean_text s) o.

Definition text_export (data : json) : Prop :=
  ∃ items, saved_media data = Ok items ∧ Forall text_record items.

Definition text_memory (r : memory) : Prop :=
  (∃ mt, r_media_type r = JStr mt) ∧ (∃ u, r_url r = JStr u).

(** A network whose error texts print on any standard output: the part of
    the text that the handler prints holds no lone surrogate. *)
Definition quiet (urlopen : nat → string → reply) : Prop :=
  ∀ idx url,
    match urlopen idx url with
    | URLError text => Utf8.clean (Utf8.codes 40 text) = true
    | OtherException text => Utf8.clean (Utf8.codes 50 text) = true
    | _ => True
    end.

(** The input of a run the exit code is specified for: no file at all, or a
    JSON export with text records. *)
Definition plain_input (file : input_file) : Prop :=
  match file with
  | Missing => True
  | Undecodable => False
  | Document data => text_export data
  end.

(** The exit status as the specification gives it: non-zero exactly when the
    input file is missing, or no record was normalized, or no file was
    downloaded. *)
Definition exits_as_specified (stdout : N → bool) (urlopen : nat → string → reply)
    (ZipFile : list byte → option zipfile) (file : input_file) : Prop :=
  exit_code (main stdout urlopen ZipFile file) ≠ 0 ↔
  (file = Missing ∨
   ∃ data ms, file = Document data ∧ load_memories stdout data = Ok ms ∧
     (ms = [] ∨ downloaded (download_media_files stdout urlopen ZipFile ms).1 = [])).

(** ** Reading the rendered page *)

Fixpoint string_drop (n : nat) (s : string) : string :=
  match n, s with
  | S n', String _ s' => string_drop n' s'
  | _, _ => s
  end.

(** What follows each occurrence of [p] in [s], in document order. *)
Fixpoint after_each (p s : string) : list string :=
  match s with
  | "" => []
  | String _ s' =>
      (if Str.startswith s p then [string_drop (String.length p) s] else [])
        ++ after_each p s'
  end.

(** The text before the first occurrence of [p]. *)
Fixpoint text_until (p s : string) : string :=
  if Str.startswith s p then ""
  else match s with
       | "" => ""
       | String c s' => String c (text_until p s')
       end.

(** The month blocks of a page, each from its opening tag on, and the texts
    of the two count badges of each block. *)
Definition month_blocks (html : string) : list string :=
  after_each "<div class='month'>" html.

Definition badge_texts (block : string) : list string :=
  text_until "</span>" <$> take 2 (after_each "<span class='badge'>" block).

Definition month_badges (html : string) : list (list string) :=
  badge_texts <$> month_blocks html.

(** The years, months and local paths of a GroupedIndex, in order. *)
Definition index_shape (g : list (nat * list (nat * list downloaded_item)))
    : list (nat * list (nat * list string)) :=
  map (λ ye : nat * list (nat * list downloaded_item),
         (ye.1, map (λ me : nat * list downloaded_item,
                       (me.1, map local_path me.2)) ye.2)) g.

(** ** Sample inputs *)

Definition sample_memory (mt url : string) : memory :=
  mk_memory (mk_datetime 2023 5 1 10 0 0 0) "2023-05-01 10:00:00 UTC"
    (JStr mt) (JStr "") (JStr url).

(** A standard output with the strict error handler, which lets no
    surrogate through, and one with surrogateescape. *)
Definition strict (c : N) : bool := false.

Definition surrogateescape (c : N) : bool := (0xDC80 <=? c)%N && (c <=? 0xDCFF)%N.

(** The text that [json.load] makes of the escape \ud800, a lone surrogate,
    and of \udc80, one that surrogateescape lets through. *)
Definition lone_surrogate : string := String "237" (String "160" (String "128" "")).

Definition escaped_byte : string := String "237" (String "178" (String "128" "")).

(** A server that answers every request with three bytes of a PNG. *)
Definition plain_urlopen (idx : nat) (url : string) : reply :=
  Got (mk_response [x01; x02; x03] (Some "image/png")).

Definition no_zip (data : list byte) : option zipfile := None.

Definition zip_bytes : list byte := [x50; x4b; x03; x04; x14; x00].

(** A server that answers every request with a ZIP. *)
Definition zip_urlopen (idx : nat) (url : string) : reply :=
  Got (mk_response zip_bytes (Some "application/octet-stream")).

Definition clip_archive : zipfile :=
  mk_zipfile [("clip-overlay.png", Some [xff]); ("clip-main.mp4", Some [x0a; x0b])].

(** An archive with two entries of one name. *)
Definition twin_archive : zipfile :=
  mk_zipfile [("clip-main.mp4", Some [x01]); ("clip-main.mp4", Some [x02])].

Definition twin_ZipFile (data : list byte) : option zipfile := Some twin_archive.

(** A server that answers every request with the first bytes of a gzip
    file, and says so. *)
Definition gzip_urlopen (idx : nat) (url : string) : reply :=
  Got (mk_response [x1f; x8b; x08] (Some "application/gzip")).

Definition clip_ZipFile (data : list byte) : option zipfile := Some clip_archive.

Definition export_of (items : list json) : json := JObj [("Saved Media", JArr items)].

Definition record_of (date : string) (media_type : json) (url : string) : json :=
  JObj [("Date", JStr date); ("Media Type", media_type);
        ("Media Download Url", JStr url)].

(** The export of the end-to-end scenario: an image of May 2023, then a
    video of January 2023. *)
Definition scenario_export (url1 url2 : string) : json :=
  export_of [record_of "2023-05-01 10:00:00 UTC" (JStr "Image") url1;
             record_of "2023-01-15 09:30:00 UTC" (JStr "Video") url2].

(** What the Loader makes of the two records of the scenario, and what the
    Fetcher makes of those. *)
Definition scenario_image (url : string) : memory :=
  mk_memory (mk_datetime 2023 5 1 10 0 0 0) "2023-05-01 10:00:00 UTC"
    (JStr "Image") (JStr "") (JStr url).

Definition scenario_video (url : string) : memory :=
  mk_memory (mk_datetime 2023 1 15 9 30 0 0) "2023-01-15 09:30:00 UTC"
    (JStr "Video") (JStr "") (JStr url).

Definition scenario_image_saved (url : string) : downloaded_item :=
  mk_downloaded (scenario_image url) "media/20230501_100000_0000.jpg".

Definition scenario_video_saved (url : string) : downloaded_item :=
  mk_downloaded (scenario_video url) "media/20230115_093000_0001.mp4".

(** An export whose second record carries a number as its media type. *)
Definition odd_export : json :=
  export_of [record_of "2023-05-01 10:00:00 UTC" (JStr "Image") "https://h/1";
             record_of "2023-01-15 09:30:00 UTC" (JNum 5) "https://h/2"].

(** An export of two text records, the URL of the second with a lone
    surrogate for its scheme, and a network that answers the first request
    and refuses the second with an error that names the scheme. *)
Definition surrogate_export : json :=
  export_of [record_of "2023-05-01 10:00:00 UTC" (JStr "Image") "https://h/1";
             record_of "2023-01-15 09:30:00 UTC" (JStr "Video")
               (lone_surrogate +:+ ":x")].

Definition surrogate_urlopen (idx : nat) (url : string) : reply :=
  if idx =? 0 then Got (mk_response [x01; x02; x03] (Some "image/png"))
  else URLError ("<urlopen error unknown url type: " +:+ lone_surrogate +:+ ">").

(** An export with one complete record, one without date and one without
    URL. *)
Definition gappy_export : json :=
  export_of [record_of "2023-05-01 10:00:00 UTC" (JStr "Image") "https://h/1";
             JObj [("Media Type", JStr "Image"); ("Media Download Url", JStr "https://h/2")];
             JObj [("Date", JStr "2023-01-15 09:30:00 UTC"); ("Media Type", JStr "Video")]].
(** A record that spells its keys both ways: the capitalised date is empty,
    and so are the first two URL keys. *)
Definition two_spellings : list (string * json) :=
  [("Date", JStr ""); ("date", JStr "2023-01-15 09:30:00");
   ("Media Download Url", JStr ""); ("media_download_url", JStr "https://h/media");
   ("Download Link", JStr "https://h/wrapper")].
(** The positions a trace sent a request for, in order. *)
Definition requests (evs : list event) : list nat :=
  omap (λ e, match e with EvGet i _ => Some i | _ => None end) evs.

Global Instance datetime_eq_dec : EqDecision datetime.
Proof. solve_decision. Defined.

(** The year, and the year and month, of a downloaded record. *)
Definition year_of (d : downloaded_item) : nat := year (d_datetime d).

Definition year_month_of (d : downloaded_item) : nat * nat :=
  (year (d_datetime d), month (d_datetime d)).

(** The attribute by which a card of the page refers to its file. *)
Definition media_src (path : string) : string := "src='" +:+ path +:+ "'".

(** The run reaches the Renderer only with a state of the Fetcher: the file
    holds a document the Loader accepts, the Fetcher ends without exception,
    and it downloaded something. *)
Definition fetched (stdout : N → bool) (urlopen : nat → string → reply)
    (ZipFile : list byte → option zipfile) (file : input_file) (st : dl_state) : Prop :=
  ∃ data ms, file = Document data ∧ load_memories stdout data = Ok ms ∧
    download_media_files stdout urlopen ZipFile ms = (st, None) ∧ downloaded st ≠ [].

(** * Sanity checks of the embedding *)

Example zfill_7 : Dec.zfill 4 7 = "0007" ∧ Dec.zfill 4 12345 = "12345" ∧ Dec.zfill 2 0 = "00".
Proof. repeat split; reflexivity. Qed.
Example replace_utc : Str.replace "2023-05-01 10:00:00 UTC" " UTC" "" = "2023-05-01 10:00:00".
Proof. reflexivity. Qed.
Example ex_parse_date_utc :
  parse_date "2023-05-01 10:00:00 UTC" = Some (mk_datetime 2023 5 1 10 0 0 0).
Proof. vm_compute. reflexivity. Qed.
Example ex_parse_date_plain :
  parse_date "2023-01-15 09:30:00" = Some (mk_datetime 2023 1 15 9 30 0 0).
Proof. vm_compute. reflexivity. Qed.
Example ex_parse_date_long :
  parse_date "May 01, 2023" = Some (mk_datetime 2023 5 1 0 0 0 0).
Proof. vm_compute. reflexivity. Qed.
Example ex_parse_date_est : parse_date "2023-05-01 10:00:00 EST" = None.
Proof. vm_compute. reflexivity. Qed.
Example ex_parse_date_feb30 : parse_date "2023-02-30 10:00:00" = None.
Proof. vm_compute. reflexivity. Qed.
Example strftime_ex :
  strftime (mk_datetime 2023 5 1 10 0 0 0) "%Y%m%d_%H%M%S" = "20230501_100000"
  ∧ strftime (mk_datetime 2023 5 1 10 0 0 0) "%B %d, %Y" = "May 01, 2023"
  ∧ strftime_tz "UTC" (mk_datetime 2023 5 1 10 0 0 0) "%Y-%m-%d %H:%M:%S %Z"
    = "2023-05-01 10:00:00 UTC".
Proof. vm_compute. auto. Qed.

Example strftime_year_999 :
  strftime (mk_datetime 999 1 2 3 4 5 0) "%Y-%m-%d %H:%M:%S" = "999-01-02 03:04:05"
  ∧ strftime (mk_datetime 5 1 2 0 0 0 0) "%B %d, %Y" = "January 02, 5"
  ∧ strftime (mk_datetime 999 1 2 3 4 5 0) "%Y%m%d_%H%M%S" = "9990102_030405".
Proof. vm_compute. auto. Qed.
Example ex_parse_date_year_999 :
  parse_date "999-01-02 03:04:05" = None
  ∧ parse_date "0999-01-02 03:04:05" = Some (mk_datetime 999 1 2 3 4 5 0).
Proof. vm_compute. auto. Qed.
Example ex_parse_date_unicode :
  parse_date "٢٠٢٣-01-15 09:30:00" = Some (mk_datetime 2023 1 15 9 30 0 0)
  ∧ parse_date "2023-01-1５　09:30:00" = Some (mk_datetime 2023 1 15 9 30 0 0)
  ∧ parse_date "2023-01-15 09:30:0" = Some (mk_datetime 2023 1 15 9 30 0 0)
  ∧ parse_date "May  5,   2023" = Some (mk_datetime 2023 5 5 0 0 0 0)
  ∧ parse_date "May 5,2023" = None
  ∧ parse_date "Aprıl 05, 2023" = None.
Proof. vm_compute. repeat split; reflexivity. Qed.
Example decode_ex :
  Utf8.decode "a✓😀" = [0x61; 0x2713; 0x1F600]%N
  ∧ Utf8.decode lone_surrogate = [0xD800%N]
  ∧ Utf8.decode escaped_byte = [0xDC80%N]
  ∧ Utf8.printable strict (Utf8.decode escaped_byte) = false
  ∧ Utf8.printable surrogateescape (Utf8.decode escaped_byte) = true
  ∧ Utf8.printable surrogateescape (Utf8.decode lone_surrogate) = false.
Proof. vm_compute. repeat split; reflexivity. Qed.
Example dict_ex :
  dict_get [("a", JNum 1); ("b", JNum 0); ("a", JNum 2)] "a" = JNum 2
  ∧ dict_keys [] [("a", JNum 1); ("b", JNum 0); ("a", JNum 2)] = ["a"; "b"].
Proof. vm_compute. auto. Qed.
Example zread_ex :
  namelist twin_archive = ["clip-main.mp4"; "clip-main.mp4"]
  ∧ zread twin_archive "clip-main.mp4" = Some [x02].
Proof. vm_compute. auto. Qed.
(** * Facts about the string functions *)

Module StrFacts.
Import Str.

Lemma app_String c s t : String c s +:+ t = String c (s +:+ t).
Proof. reflexivity. Qed.

Lemma app_assoc (a b c : string) : (a +:+ b) +:+ c = a +:+ (b +:+ c).
Proof. induction a as [|x a IH]; [done|]. rewrite !app_String. by f_equal. Qed.

Lemma app_empty_r (a : string) : a +:+ "" = a.
Proof. induction a as [|x a IH]; [done|]. rewrite app_String. by f_equal. Qed.

Lemma has_char_app c a b : has_char c (a +:+ b) = has_char c a || has_char c b.
Proof.
  induction a as [|x a IH]; [done|].
  rewrite app_String. simpl. rewrite IH. by rewrite orb_assoc.
Qed.

Lemma after_last_go_none c s cur : has_char c s = false → after_last_go c s cur = cur.
Proof.
  revert cur. induction s as [|a s IH]; intros cur H; [done|].
  simpl in *. apply orb_false_iff in H as [-> H]. by apply IH.
Qed.

Lemma after_last_go_app c a t cur :
  has_char c t = false → after_last_go c (a +:+ String c t) cur = t.
Proof.
  revert cur. induction a as [|x a IH]; intros cur H.
  - change ("" +:+ String c t) with (String c t). simpl.
    rewrite Ascii.eqb_refl. by apply after_last_go_none.
  - rewrite app_String. simpl. destruct (Ascii.eqb x c); by apply IH.
Qed.

Lemma after_last_app c a t :
  has_char c t = false → after_last c (a +:+ String c t) = t.
Proof. apply after_last_go_app. Qed.

Lemma before_first_app c a t :
  has_char c a = false → before_first c (a +:+ String c t) = a.
Proof.
  induction a as [|x a IH]; intros H.
  - change ("" +:+ String c t) with (String c t). simpl. by rewrite Ascii.eqb_refl.
  - rewrite app_String. simpl in *. apply orb_false_iff in H as [-> H].
    f_equal. by apply IH.
Qed.

Lemma startswith_lower s p :
  startswith s p = true → startswith (lower s) (lower p) = true.
Proof.
  revert s. induction p as [|a p IH]; intros [|b s]; simpl; try done.
  destruct (Ascii.eqb a b) eqn:E; [|done].
  apply Ascii.eqb_eq in E as ->. rewrite Ascii.eqb_refl. apply IH.
Qed.

Lemma contains_unfold p s :
  contains p s =
  startswith s p || match s with "" => false | String _ s' => contains p s' end.
Proof. by destruct s. Qed.

Lemma contains_lower p s :
  contains p s = true → contains (lower p) (lower s) = true.
Proof.
  induction s as [|b s IH]; rewrite (contains_unfold p), (contains_unfold (lower p)).
  - rewrite !orb_false_r. apply (startswith_lower "").
  - intros [H|H]%orb_true_iff.
    + by rewrite (startswith_lower (String b s) p H).
    + cbn [lower]. rewrite (IH H). by rewrite orb_true_r.
Qed.

Lemma startswith_contains p s : startswith s p = true → contains p s = true.
Proof. intros H. rewrite contains_unfold, H. done. Qed.

Lemma contains_tail c p s : contains (String c p) s = true → contains p s = true.
Proof.
  induction s as [|b s IH];
    rewrite (contains_unfold (String c p)), (contains_unfold p).
  - done.
  - intros [H|H]%orb_true_iff.
    + cbn [startswith] in H. destruct (Ascii.eqb c b); [|done].
      rewrite (startswith_contains _ _ H). by rewrite orb_true_r.
    + rewrite (IH H). by rewrite orb_true_r.
Qed.

Lemma endswith_unfold s e :
  endswith s e =
  String.eqb s e || match s with "" => false | String _ s' => endswith s' e end.
Proof. by destruct s. Qed.

Lemma endswith_lower s e :
  endswith s e = true → endswith (lower s) (lower e) = true.
Proof.
  induction s as [|b s IH]; rewrite (endswith_unfold _ e), (endswith_unfold _ (lower e)).
  - rewrite !orb_false_r. by intros <-%String.eqb_eq.
  - intros [H|H]%orb_true_iff.
    + apply String.eqb_eq in H as <-. by rewrite String.eqb_refl.
    + cbn [lower]. rewrite (IH H). by rewrite orb_true_r.
Qed.

Lemma startswith_refl s : startswith s s = true.
Proof. induction s; simpl; [done|]. by rewrite Ascii.eqb_refl. Qed.

Lemma endswith_contains s e : endswith s e = true → contains e s = true.
Proof.
  induction s as [|b s IH]; rewrite endswith_unfold, contains_unfold.
  - rewrite !orb_false_r. intros <-%String.eqb_eq. done.
  - intros [H|H]%orb_true_iff.
    + apply String.eqb_eq in H as <-. by rewrite startswith_refl.
    + rewrite (IH H). by rewrite orb_true_r.
Qed.

End StrFacts.

Module DecFacts.
Import Dec StrFacts.

Lemma nat_of_digit n : nat_of_ascii (digit n) = 48 + n mod 10.
Proof.
  unfold digit. apply nat_ascii_embedding.
  pose proof (Nat.mod_upper_bound n 10). lia.
Qed.

Lemma is_digit_digit n : is_digit (digit n) = true.
Proof.
  unfold is_digit. rewrite nat_of_digit.
  pose proof (Nat.mod_upper_bound n 10).
  apply andb_true_iff; split; apply Nat.leb_le; lia.
Qed.

Lemma all_digits_app a b : all_digits (a +:+ b) = all_digits a && all_digits b.
Proof.
  induction a as [|x a IH]; [done|].
  rewrite app_String. cbn [all_digits]. rewrite IH. by rewrite andb_assoc.
Qed.

Lemma all_digits_go f n acc : all_digits acc = true → all_digits (go f n acc) = true.
Proof.
  revert n acc. induction f as [|f IH]; intros n acc H; cbn [go]; [done|].
  destruct (n / 10 =? 0).
  - cbn [all_digits]. by rewrite is_digit_digit.
  - apply IH. cbn [all_digits]. by rewrite is_digit_digit.
Qed.

Lemma all_digits_zeros k : all_digits (zeros k) = true.
Proof. induction k; [done|]. cbn [zeros all_digits]. by rewrite IHk. Qed.

Lemma all_digits_zfill w n : all_digits (zfill w n) = true.
Proof.
  unfold zfill, of_nat. rewrite all_digits_app, all_digits_zeros.
  by apply all_digits_go.
Qed.

Lemma all_digits_has_char c s :
  is_digit c = false → all_digits s = true → Str.has_char c s = false.
Proof.
  intros Hc. induction s as [|a s IH]; [done|].
  cbn [all_digits Str.has_char]. intros [Ha Hs]%andb_true_iff.
  rewrite (IH Hs), orb_false_r.
  destruct (Ascii.eqb a c) eqn:E; [|done].
  apply Ascii.eqb_eq in E as ->. congruence.
Qed.

Lemma value_go_go f n acc :
  n < f → value_go 0 (go f n acc) = value_go n acc.
Proof.
  revert n acc. induction f as [|f IH]; intros n acc Hn; [lia|].
  cbn [go]. pose proof (Nat.div_mod_eq n 10) as Hdm.
  pose proof (Nat.mod_upper_bound n 10).
  destruct (n / 10 =? 0) eqn:E.
  - apply Nat.eqb_eq in E. cbn [value_go]. rewrite nat_of_digit. f_equal. lia.
  - apply Nat.eqb_neq in E. rewrite IH by lia.
    cbn [value_go]. rewrite nat_of_digit. f_equal. lia.
Qed.

Lemma value_go_zeros k s : value_go 0 (zeros k +:+ s) = value_go 0 s.
Proof. induction k; [done|]. cbn [zeros]. rewrite app_String. exact IHk. Qed.

(** Reading back what [zfill] printed. *)
Lemma value_zfill w n : value (zfill w n) = n.
Proof.
  unfold value, zfill, of_nat. rewrite value_go_zeros, value_go_go by lia. done.
Qed.

End DecFacts.

(** * Fetcher *)

Lemma first_such_find {A} (P : A → bool) (l : list A) (x : A) :
  find P l = Some x → first_such P l x.
Proof.
  induction l as [|y l IH]; [done|]. cbn [find].
  destruct (P y) eqn:E.
  - intros [= ->]. exists [], l. by repeat split.
  - intros (l1 & l2 & -> & Hx & Hl)%IH. exists (y :: l1), l2.
    repeat split; [done|]. by constructor.
Qed.

Lemma find_none_Forall {A} (P : A → bool) (l : list A) :
  find P l = None → Forall (λ y, P y = false) l.
Proof.
  induction l as [|y l IH]; [constructor|]. cbn [find].
  destruct (P y) eqn:E; [done|]. intros H. constructor; auto.
Qed.

Lemma first_such_unique {A} (P : A → bool) (l : list A) (x y : A) :
  first_such P l x → first_such P l y → x = y.
Proof.
  intros (a1 & a2 & -> & Hx & Ha) (b1 & b2 & Hb & Hy & Hb1).
  revert b1 Hb Hb1. induction a1 as [|z a1 IH]; intros [|w b1] Hb Hb1; simplify_eq/=.
  - done.
  - apply Forall_cons in Hb1 as [? _]. congruence.
  - apply Forall_cons in Ha as [? _]. congruence.
  - apply Forall_cons in Ha as [_ Ha]. apply Forall_cons in Hb1 as [_ Hb1]. eauto.
Qed.

(** The test on "-overlay" adds nothing to the one on "overlay". *)
Lemma is_fallback_plain_media name : is_fallback name = plain_media name.
Proof.
  unfold is_fallback, plain_media.
  destruct (Str.contains "overlay" (Str.lower name)) eqn:E; [by rewrite andb_false_r|].
  destruct (Str.contains "-overlay" name) eqn:E'; [|done].
  apply StrFacts.contains_tail, StrFacts.contains_lower in E'.
  change (Str.lower "overlay") with "overlay" in E'. congruence.
Qed.

Lemma is_main_nonempty n : is_main n = true → Str.nonempty n = true.
Proof. by destruct n. Qed.

Lemma plain_media_nonempty n : plain_media n = true → Str.nonempty n = true.
Proof. by destruct n. Qed.

Lemma find_main_file_chosen names : chosen_entry names (find_main_file names).
Proof.
  unfold find_main_file.
  assert (find is_fallback names = find plain_media names) as ->.
  { induction names as [|x l IH]; [done|]. cbn [find].
    rewrite is_fallback_plain_media, IH. done. }
  destruct (find is_main names) as [n|] eqn:Hm.
  - apply first_such_find in Hm. destruct Hm as (l1 & l2 & ? & Hn & ?).
    cbn [name_found]. rewrite (is_main_nonempty _ Hn). cbn [name_found].
    rewrite (is_main_nonempty _ Hn). left. by exists l1, l2.
  - apply find_none_Forall in Hm. cbn [name_found].
    destruct (find plain_media names) as [n|] eqn:Hp.
    + apply first_such_find in Hp. pose proof Hp as (_ & _ & _ & Hn & _).
      cbn [name_found]. rewrite (plain_media_nonempty _ Hn). by right.
    + apply find_none_Forall in Hp. cbn.
      rewrite Forall_forall in Hm, Hp |- *. naive_solver.
Qed.

Lemma choose_ext_values media_type url ext :
  choose_ext media_type url = Ok ext → ext ∈ ["mp4"; "jpg"; "mov"; "png"].
Proof.
  unfold choose_ext. intros H.
  repeat match type of H with
  | (if ?b then _ else _) = _ => destruct b
  | match ?u with _ => _ end = _ => destruct u
  end; simplify_eq; set_solver.
Qed.

Lemma choose_ext_str media_type url : ∃ ext, choose_ext media_type (JStr url) = Ok ext.
Proof.
  unfold choose_ext.
  repeat match goal with |- context [if ?b then _ else _] => destruct b end; eauto.
Qed.

Lemma bytes_eqb_eq a b : bytes_eqb a b = true ↔ a = b.
Proof.
  revert b. induction a as [|x a IH]; intros [|y b]; cbn [bytes_eqb]; try done.
  rewrite andb_true_iff, IH. split.
  - intros [?%Byte.byte_dec_bl ->]. by subst.
  - intros [= -> ->]. split; [by apply Byte.byte_dec_lb|done].
Qed.

(** ** The index in a file name *)

Lemma path_index_make_filename dir dt idx ext :
  ext ∈ ["mp4"; "jpg"; "mov"; "png"] →
  path_index (dir +:+ make_filename dt idx ext) = idx.
Proof.
  intros Hext. unfold path_index, make_filename.
  change ("_" +:+ ?x) with (String "_" x). change ("." +:+ ?x) with (String "." x).
  rewrite <-StrFacts.app_assoc.
  assert (Str.has_char "_" ext = false ∧ Str.has_char "." ext = false) as [H1 H2].
  { set_unfold in Hext. destruct Hext as [->|[->|[->|[->|[]]]]]; done. }
  rewrite StrFacts.after_last_app.
  - rewrite StrFacts.before_first_app; [apply DecFacts.value_zfill|].
    apply DecFacts.all_digits_has_char; [done|apply DecFacts.all_digits_zfill].
  - rewrite StrFacts.has_char_app.
    rewrite DecFacts.all_digits_has_char; [|done|apply DecFacts.all_digits_zfill].
    cbn [Str.has_char]. by rewrite H1.
Qed.

Section FetcherFacts.
Variable stdout : N → bool.
Variable urlopen : nat → string → reply.
Variable ZipFile : list byte → option zipfile.

Local Abbreviation download_one := (download_one stdout urlopen ZipFile).
Local Abbreviation download_loop := (download_loop stdout urlopen ZipFile).

(** A saved item was written once, under the name built from its own
    timestamp, its position and its extension. *)
Lemma download_one_saved idx item evs d :
  download_one idx item = (evs, Saved d) →
  ∃ mt ext,
    r_media_type item = JStr mt ∧
    choose_ext (Str.lower mt) (r_url item) = Ok ext ∧
    d = mk_downloaded item ("media/" +:+ make_filename (r_datetime item) idx ext) ∧
    written_paths evs = [local_path d].
Proof.
  unfold download_one, report. intros H.
  destruct (r_media_type item) as [| | |mt| |] eqn:Hmt; try done.
  destruct (choose_ext (Str.lower mt) (r_url item)) as [ext|] eqn:Hext; [|done].
  exists mt, ext.
  repeat (case_match; simplify_eq/=); done.
Qed.

(** An answer that is no ZIP is written as it came. *)
Lemma download_one_plain idx item mt url ext resp :
  r_media_type item = JStr mt → r_url item = JStr url →
  choose_ext (Str.lower mt) (JStr url) = Ok ext →
  urlopen idx url = Got resp →
  is_zip (Str.lower (default "" (resp_content_type resp))) (resp_data resp) = false →
  download_one idx item =
    ([EvGet idx url;
      EvWrite ("media/" +:+ make_filename (r_datetime item) idx ext) (resp_data resp)],
     Saved (mk_downloaded item
              ("media/" +:+ make_filename (r_datetime item) idx ext))).
Proof.
  intros Hmt Hurl Hext Hopen Hz. unfold download_one.
  by rewrite Hmt, Hurl, Hext, Hopen, Hz.
Qed.

Lemma download_one_paths idx item :
  written_paths (download_one idx item).1 = [] ∨
  ∃ p, written_paths (download_one idx item).1 = [p] ∧ path_index p = idx.
Proof.
  destruct (download_one idx item) as [evs o] eqn:H.
  destruct o as [d| |e].
  - right. apply download_one_saved in H as (mt & ext & _ & Hext & -> & Hw).
    eexists; split; [exact Hw|]. cbn [local_path].
    apply path_index_make_filename. by eapply choose_ext_values.
  - left. unfold download_one, report in H.
    repeat (case_match; simplify_eq/=); done.
  - left. unfold download_one, report in H.
    repeat (case_match; simplify_eq/=); done.
Qed.

Lemma written_paths_app a b : written_paths (a ++ b) = written_paths a ++ written_paths b.
Proof. apply omap_app. Qed.

Lemma download_loop_paths idx items st :
  NoDup (written_paths (trace st)) →
  (∀ p, p ∈ written_paths (trace st) → path_index p < idx) →
  NoDup (written_paths (trace (download_loop idx items st).1)).
Proof.
  revert idx st. induction items as [|item rest IH]; intros idx st Hnd Hlt; [done|].
  cbn [download_loop].
  pose proof (download_one_paths idx item) as Hp.
  destruct (download_one idx item) as [evs o]. cbn [fst] in Hp.
  assert (NoDup (written_paths (trace st ++ evs)) ∧
          ∀ p, p ∈ written_paths (trace st ++ evs) → path_index p < S idx) as [Hnd' Hlt'].
  { rewrite written_paths_app. destruct Hp as [->|(p & -> & Hp)].
    - rewrite app_nil_r. split; [done|]. intros p ?%Hlt. lia.
    - split.
      + apply NoDup_app. repeat split; [done| |apply NoDup_singleton].
        intros q Hq ->%list_elem_of_singleton. apply Hlt in Hq. lia.
      + intros q [Hq| ->%list_elem_of_singleton]%elem_of_app; [|lia].
        apply Hlt in Hq. lia. }
  destruct o; [apply IH; done..|done].
Qed.

End FetcherFacts.

(** ** Claims about the Fetcher *)

Lemma choose_ext_rule mt url :
  choose_ext (Str.lower mt) (JStr url) = Ok (ext_rule_anywhere mt url).
Proof.
  unfold choose_ext, ext_rule_anywhere, ext_rule, ext_by_marker.
  cbn [existsb url_markers find fst snd]. rewrite orb_false_r.
  repeat match goal with |- context [if ?b then _ else _] => destruct b eqn:? end;
    simplify_eq/=; try done.
Qed.

(** C3, as the specification words it, fails: the URL below ends in ".png",
    an empty media type leaves the decision to the URL, and the extension
    chosen is "mp4", because ".mp4" occurs earlier in the URL. *)
Lemma C3_suffix_counterexample :
  let url := "https://cdn.example/clip.mp4/thumb.png" in
  Str.endswith url ".png" = true ∧
  ext_rule_suffix "" url = "png" ∧
  choose_ext (Str.lower "") (JStr url) = Ok "mp4" ∧
  choose_ext (Str.lower "") (JStr url) ≠ Ok (ext_rule_suffix "" url).
Proof. vm_compute. repeat split; congruence. Qed.

(** C3 (amended): the extension is a function of the media type and the URL
    alone: "mp4" if the lowered media type contains "video"; else "jpg" if it
    contains "image" or "photo"; else the extension of the first of the
    markers .mp4, .mov, .jpg, .jpeg, .png that occurs anywhere in the lowered
    URL; else "jpg".  The file name of a saved item carries it.  "Video"
    gives mp4 whatever the URL; an empty media type gives png for a URL that
    ends in ".png" and holds none of the earlier markers, and jpg for a URL
    that holds no marker at all. *)
Theorem C3_extension_rule :
  (∀ mt url, choose_ext (Str.lower mt) (JStr url) = Ok (ext_rule_anywhere mt url)) ∧
  (∀ stdout urlopen ZipFile idx item mt url evs d,
     r_media_type item = JStr mt → r_url item = JStr url →
     download_one stdout urlopen ZipFile idx item = (evs, Saved d) →
     local_path d =
       "media/" +:+ make_filename (r_datetime item) idx (ext_rule_anywhere mt url)) ∧
  (∀ url, choose_ext (Str.lower "Video") url = Ok "mp4") ∧
  (∀ url,
     Str.endswith url ".png" = true →
     Forall (λ m, Str.contains m (Str.lower url) = false) [".mp4"; ".mov"; ".jpg"; ".jpeg"] →
     choose_ext (Str.lower "") (JStr url) = Ok "png") ∧
  (∀ url,
     Forall (λ m, Str.contains m (Str.lower url) = false)
       [".mp4"; ".mov"; ".jpg"; ".jpeg"; ".png"] →
     choose_ext (Str.lower "") (JStr url) = Ok "jpg").
Proof.
  split_and!.
  - apply choose_ext_rule.
  - intros stdout urlopen ZipFile idx item mt url evs d Hmt Hurl H.
    apply download_one_saved in H as (mt' & ext & Hmt' & Hext & -> & _).
    rewrite Hmt in Hmt'. injection Hmt' as <-.
    rewrite Hurl, choose_ext_rule in Hext. by injection Hext as <-.
  - done.
  - intros url Hend Hno.
    apply StrFacts.endswith_lower, StrFacts.endswith_contains in Hend.
    change (Str.lower ".png") with ".png" in Hend.
    rewrite !Forall_cons in Hno. destruct Hno as (H1 & H2 & H3 & H4 & _).
    unfold choose_ext. change (Str.lower "") with "". cbn [Str.contains Str.startswith orb].
    by rewrite H1, H2, H3, H4, Hend.
  - intros url Hno.
    rewrite !Forall_cons in Hno. destruct Hno as (H1 & H2 & H3 & H4 & H5 & _).
    unfold choose_ext. change (Str.lower "") with "". cbn [Str.contains Str.startswith orb].
    by rewrite H1, H2, H3, H4, H5.
Qed.

Lemma C3_extension_rule_witness :
  local_path (mk_downloaded (sample_memory "" "https://h/x.png")
                "media/20230501_100000_0007.png")
  = "media/" +:+ make_filename (mk_datetime 2023 5 1 10 0 0 0) 7
                   (ext_rule_anywhere "" "https://h/x.png")
  ∧ choose_ext (Str.lower "") (JStr "https://h/x.png") = Ok "png"
  ∧ choose_ext (Str.lower "") (JStr "https://h/x.unknown") = Ok "jpg".
Proof.
  destruct C3_extension_rule as (_ & Hsaved & _ & Hpng & Hjpg).
  split_and!.
  - apply (Hsaved strict plain_urlopen no_zip 7 (sample_memory "" "https://h/x.png")
             "" "https://h/x.png"
             [EvGet 7 "https://h/x.png";
              EvWrite "media/20230501_100000_0007.png" [x01; x02; x03]]);
      reflexivity.
  - apply Hpng; [reflexivity|]. repeat constructor.
  - apply Hjpg. repeat constructor.
Defined.

Lemma find_app_or {A} (P : A → bool) (l1 l2 : list A) :
  find P (l1 ++ l2) = match find P l1 with Some x => Some x | None => find P l2 end.
Proof.
  induction l1 as [|x l1 IH]; [done|]. cbn [app find]. by destruct (P x).
Qed.

Lemma find_reverse_last {A} (P : A → bool) (l : list A) :
  match find P (reverse l) with
  | Some e => ∃ l1 l2, l = l1 ++ e :: l2 ∧ P e = true ∧ Forall (λ x, P x = false) l2
  | None => Forall (λ x, P x = false) l
  end.
Proof.
  induction l as [|x l IH]; [by constructor|].
  rewrite reverse_cons, find_app_or.
  destruct (find P (reverse l)) as [e|].
  - destruct IH as (l1 & l2 & -> & He & Hl2). by exists (x :: l1), l2.
  - cbn [find]. destruct (P x) eqn:Hx.
    + by exists [], l.
    + by constructor.
Qed.

(** Reading by name gives the last entry of that name. *)
Lemma zread_last_named zf n :
  n ∈ namelist zf → ∃ e, last_named n (filelist zf) e ∧ zread zf n = e.2.
Proof.
  unfold namelist, zread, last_named. intros (e0 & -> & Hin)%list_elem_of_fmap.
  pose proof (find_reverse_last (λ e : string * option (list byte), String.eqb e.1 e0.1)
                (filelist zf)) as H.
  destruct (find _ (reverse (filelist zf))) as [e|].
  - destruct H as (l1 & l2 & Hl & He & Hl2). exists e. split; [|done].
    exists l1, l2. split_and!; [done|by apply String.eqb_eq|].
    eapply Forall_impl; [exact Hl2|]. intros x Hx Heq. cbn beta in Hx.
    by rewrite Heq, String.eqb_refl in Hx.
  - rewrite Forall_forall in H. specialize (H _ Hin). cbn in H.
    by rewrite String.eqb_refl in H.
Qed.

Lemma chosen_entry_elem names n : chosen_entry names (Some n) → n ∈ names.
Proof. intros [(l1 & l2 & -> & _)|[_ (l1 & l2 & -> & _)]]; set_solver. Qed.

(** With distinct names, the entry of a name is the last of that name. *)
Lemma last_named_NoDup entries e :
  NoDup entries.*1 → e ∈ entries → last_named e.1 entries e.
Proof.
  intros Hnd (l1 & l2 & ->)%list_elem_of_split. exists l1, l2. split_and!; [done..|].
  rewrite fmap_app, fmap_cons in Hnd.
  apply NoDup_app in Hnd as (_ & _ & [Hn _]%NoDup_cons).
  apply Forall_forall. intros x Hx Heq. apply Hn. rewrite <-Heq.
  by apply list_elem_of_fmap_2.
Qed.

(** C6, as the specification words it, fails: the archive below has two
    entries named "clip-main.mp4"; the first entry whose name contains
    "-main." is the first of them, and the bytes extracted and written are
    those of the second. *)
Lemma C6_twin_counterexample :
  first_such (λ e, is_main e.1) (filelist twin_archive) ("clip-main.mp4", Some [x01]) ∧
  download_one strict zip_urlopen twin_ZipFile 3 (sample_memory "Video" "https://h/v") =
    ([EvGet 3 "https://h/v"; EvZipOpen zip_bytes; EvZipRead "clip-main.mp4";
      EvWrite "media/20230501_100000_0003.mp4" [x02]],
     Saved (mk_downloaded (sample_memory "Video" "https://h/v")
              "media/20230501_100000_0003.mp4")) ∧
  [x02] ≠ [x01].
Proof.
  split_and!; [|reflexivity|discriminate].
  exists [], [("clip-main.mp4", Some [x02])]. by repeat split.
Qed.

(** C6 (amended): when the payload is a ZIP, the name read is the first name
    of the archive that contains "-main."; without such a name, the first one
    that is no overlay (in any case of letters) and ends in a media suffix.
    The bytes written are those of the last entry of the archive that bears
    this name, which is the entry chosen itself when the names of the archive
    are distinct.  Without a suitable name, with an entry that cannot be
    read, or with a corrupt archive, the item fails and nothing is written.
    The two archives of the specification give "clip-main.mp4" and
    "b.mp4". *)
Theorem C6_zip_entry stdout urlopen ZipFile idx item mt url resp :
  r_media_type item = JStr mt → r_url item = JStr url →
  urlopen idx url = Got resp →
  is_zip (Str.lower (default "" (resp_content_type resp))) (resp_data resp) = true →
  let data := resp_data resp in
  (ZipFile data = None →
     download_one stdout urlopen ZipFile idx item =
       ([EvGet idx url; EvZipOpen data], Failed)) ∧
  (∀ zf, ZipFile data = Some zf →
     ∃ choice, chosen_entry (namelist zf) choice ∧
       match choice with
       | Some n =>
           ∃ e, last_named n (filelist zf) e ∧
             match e.2 with
             | Some bytes =>
                 ∃ path, download_one stdout urlopen ZipFile idx item =
                   ([EvGet idx url; EvZipOpen data; EvZipRead n; EvWrite path bytes],
                    Saved (mk_downloaded item path))
             | None =>
                 download_one stdout urlopen ZipFile idx item =
                   ([EvGet idx url; EvZipOpen data; EvZipRead n], Failed)
             end
       | None =>
           download_one stdout urlopen ZipFile idx item =
             ([EvGet idx url; EvZipOpen data], Failed)
       end) ∧
  (∀ zf e, NoDup (namelist zf) → e ∈ filelist zf → last_named e.1 (filelist zf) e) ∧
  find_main_file ["clip-overlay.png"; "clip-main.mp4"] = Some "clip-main.mp4" ∧
  find_main_file ["a-overlay.jpg"; "b.mp4"] = Some "b.mp4".
Proof.
  intros Hmt Hurl Hopen Hzip data.
  destruct (choose_ext_str (Str.lower mt) url) as [ext Hext].
  assert (
    download_one stdout urlopen ZipFile idx item =
      match ZipFile data with
      | None => ([EvGet idx url; EvZipOpen data], Failed)
      | Some zf =>
          match find_main_file (namelist zf) with
          | Some n =>
              match zread zf n with
              | Some bytes =>
                  ([EvGet idx url; EvZipOpen data; EvZipRead n;
                    EvWrite ("media/" +:+ make_filename (r_datetime item) idx ext) bytes],
                   Saved (mk_downloaded item
                            ("media/" +:+ make_filename (r_datetime item) idx ext)))
              | None => ([EvGet idx url; EvZipOpen data; EvZipRead n], Failed)
              end
          | None => ([EvGet idx url; EvZipOpen data], Failed)
          end
      end) as Hone.
  { subst data. unfold download_one.
    by rewrite Hmt, Hurl, Hext, Hopen, Hzip. }
  split_and!; [| | |done..].
  - intros Hbad. by rewrite Hone, Hbad.
  - intros zf Hzf. rewrite Hone, Hzf.
    exists (find_main_file (namelist zf)).
    pose proof (find_main_file_chosen (namelist zf)) as Hc. split; [exact Hc|].
    destruct (find_main_file (namelist zf)) as [n|]; [|done].
    destruct (zread_last_named zf n (chosen_entry_elem _ _ Hc)) as (e & He & ->).
    exists e. split; [done|]. destruct (e.2); [|done]. by eexists.
  - intros zf e. apply last_named_NoDup.
Qed.

Lemma C6_zip_entry_witness :
  ∃ choice, chosen_entry ["clip-overlay.png"; "clip-main.mp4"] choice ∧
    download_one strict zip_urlopen clip_ZipFile 3 (sample_memory "Video" "https://h/v") =
      ([EvGet 3 "https://h/v"; EvZipOpen zip_bytes; EvZipRead "clip-main.mp4";
        EvWrite "media/20230501_100000_0003.mp4" [x0a; x0b]],
       Saved (mk_downloaded (sample_memory "Video" "https://h/v")
                "media/20230501_100000_0003.mp4")).
Proof.
  destruct (C6_zip_entry strict zip_urlopen clip_ZipFile 3
              (sample_memory "Video" "https://h/v")
              "Video" "https://h/v" (mk_response zip_bytes (Some "application/octet-stream"))
              eq_refl eq_refl eq_refl eq_refl) as (_ & H & _).
  destruct (H clip_archive eq_refl) as (choice & Hc & _).
  exists choice. split; [exact Hc|]. reflexivity.
Defined.

(** C7, as the specification words it, fails: the response below does not
    begin with PK\x03\x04 and its content type is neither "zip" nor
    "application/zip", but it holds the letters "zip": the Fetcher hands the
    body to the ZIP library, which refuses it, the item fails and nothing is
    written. *)
Lemma C7_gzip_counterexample :
  let resp := mk_response [x1f; x8b; x08] (Some "application/gzip") in
  gzip_urlopen 0 "https://h/i" = Got resp ∧
  take 4 (resp_data resp) ≠ zip_magic ∧
  resp_content_type resp ≠ Some "zip" ∧
  resp_content_type resp ≠ Some "application/zip" ∧
  download_one strict gzip_urlopen no_zip 0 (sample_memory "Image" "https://h/i") =
    ([EvGet 0 "https://h/i"; EvZipOpen [x1f; x8b; x08]], Failed) ∧
  written_paths (download_one strict gzip_urlopen no_zip 0
                   (sample_memory "Image" "https://h/i")).1 = [].
Proof. cbv zeta. split_and!; first [reflexivity | discriminate]. Qed.

(** C7 (amended): a response whose body does not begin with the four bytes
    PK\x03\x04 and whose content type, lowered, does not contain "zip"
    anywhere is written to the local file as it is: one request, one write
    of the very bytes received, and no archive opened or read. *)
Theorem C7_plain_response_saved stdout urlopen ZipFile idx item mt url resp :
  r_media_type item = JStr mt → r_url item = JStr url →
  urlopen idx url = Got resp →
  take 4 (resp_data resp) ≠ zip_magic →
  Str.contains "zip" (Str.lower (default "" (resp_content_type resp))) = false →
  ∃ path,
    download_one stdout urlopen ZipFile idx item =
      ([EvGet idx url; EvWrite path (resp_data resp)], Saved (mk_downloaded item path)) ∧
    Forall (λ e, is_zip_event e = false)
      (download_one stdout urlopen ZipFile idx item).1.
Proof.
  intros Hmt Hurl Hopen Hmagic Hct.
  destruct (choose_ext_str (Str.lower mt) url) as [ext Hext].
  exists ("media/" +:+ make_filename (r_datetime item) idx ext).
  assert (is_zip (Str.lower (default "" (resp_content_type resp))) (resp_data resp) = false) as Hz.
  { unfold is_zip. rewrite Hct. cbn [orb].
    destruct (bytes_eqb _ _) eqn:E; [|done]. by apply bytes_eqb_eq in E. }
  unfold download_one. rewrite Hmt, Hurl, Hext, Hopen, Hz.
  split; [done|]. by repeat constructor.
Qed.

Lemma C7_plain_response_saved_witness :
  ∃ path,
    download_one strict plain_urlopen clip_ZipFile 0 (sample_memory "Image" "https://h/i") =
      ([EvGet 0 "https://h/i"; EvWrite path [x01; x02; x03]],
       Saved (mk_downloaded (sample_memory "Image" "https://h/i") path)) ∧
    Forall (λ e, is_zip_event e = false)
      (download_one strict plain_urlopen clip_ZipFile 0
         (sample_memory "Image" "https://h/i")).1.
Proof.
  apply (C7_plain_response_saved strict plain_urlopen clip_ZipFile 0
           (sample_memory "Image" "https://h/i") "Image" "https://h/i"
           (mk_response [x01; x02; x03] (Some "image/png")));
    [reflexivity..|discriminate|reflexivity].
Defined.

(** C10: two items saved from different positions of the input never get the
    same local file name, whatever their timestamps, media types and URLs:
    the position is printed in the name and can be read back from it.  So the
    files written during one run are pairwise distinct. *)
Theorem C10_filenames_distinct stdout urlopen ZipFile :
  (∀ i j ri rj evi evj di dj,
     i ≠ j →
     download_one stdout urlopen ZipFile i ri = (evi, Saved di) →
     download_one stdout urlopen ZipFile j rj = (evj, Saved dj) →
     local_path di ≠ local_path dj) ∧
  (∀ items,
     NoDup (written_paths (trace (download_media_files stdout urlopen ZipFile items).1))).
Proof.
  split.
  - intros i j ri rj evi evj di dj Hij Hi Hj Heq.
    apply download_one_saved in Hi as (? & ei & _ & Hei & -> & _).
    apply download_one_saved in Hj as (? & ej & _ & Hej & -> & _).
    cbn [local_path] in Heq. apply (f_equal path_index) in Heq.
    rewrite !path_index_make_filename in Heq by (by eapply choose_ext_values).
    done.
  - intros items. apply download_loop_paths; [constructor|].
    intros p Hp. by apply elem_of_nil in Hp.
Qed.

Lemma C10_filenames_distinct_witness :
  local_path (mk_downloaded (sample_memory "Image" "https://h/i")
                "media/20230501_100000_0000.jpg")
  ≠ local_path (mk_downloaded (sample_memory "Image" "https://h/i")
                  "media/20230501_100000_0001.jpg").
Proof.
  apply (proj1 (C10_filenames_distinct strict plain_urlopen no_zip) 0 1
           (sample_memory "Image" "https://h/i") (sample_memory "Image" "https://h/i")
           [EvGet 0 "https://h/i"; EvWrite "media/20230501_100000_0000.jpg" [x01; x02; x03]]
           [EvGet 1 "https://h/i"; EvWrite "media/20230501_100000_0001.jpg" [x01; x02; x03]]);
    [discriminate|reflexivity..].
Defined.
(** * Grouper *)

Section SortingFacts.
Context {A K : Type} (key : A → K) (leb : K → K → bool).
Hypothesis leb_total : ∀ a b, leb a b = false → leb b a = true.
Hypothesis leb_trans : ∀ a b c, leb a b = true → leb b c = true → leb a c = true.

Local Abbreviation desc := (λ a b : A, leb (key b) (key a) = true).

Lemma insert_desc_perm x l : insert_desc key leb x l ≡ₚ x :: l.
Proof.
  induction l as [|y l IH]; [done|]. cbn [insert_desc].
  destruct (leb (key y) (key x)); [done|].
  rewrite IH. apply perm_swap.
Qed.

Lemma sorted_reverse_perm l : sorted_reverse key leb l ≡ₚ l.
Proof.
  induction l as [|x l IH]; [done|].
  cbn [sorted_reverse foldr]. rewrite insert_desc_perm. by f_equiv.
Qed.

Lemma insert_desc_sorted x l :
  StronglySorted desc l → StronglySorted desc (insert_desc key leb x l).
Proof.
  induction 1 as [|y l Hl IH Hy]; cbn [insert_desc].
  { repeat constructor. }
  destruct (leb (key y) (key x)) eqn:E.
  - constructor; [by constructor|]. constructor; [done|].
    eapply Forall_impl; [exact Hy|]. cbn. eauto.
  - constructor; [done|]. rewrite insert_desc_perm. constructor; [|done].
    by apply leb_total.
Qed.

Lemma sorted_reverse_sorted l : StronglySorted desc (sorted_reverse key leb l).
Proof.
  induction l as [|x l IH]; [constructor|]. by apply insert_desc_sorted.
Qed.
End SortingFacts.

Lemma lex_leb_total a b : lex_leb a b = false → lex_leb b a = true.
Proof.
  revert b. induction a as [|x a IH]; intros [|y b]; cbn [lex_leb]; try done.
  intros [H1 H2]%orb_false_iff. apply Nat.ltb_ge in H1.
  destruct (decide (y < x)) as [Hlt|Hge].
  - apply Nat.ltb_lt in Hlt. by rewrite Hlt.
  - assert (x = y) as -> by lia. rewrite Nat.eqb_refl in H2 |- *. cbn in H2.
    rewrite (IH _ H2). by rewrite orb_true_r.
Qed.

Lemma lex_leb_trans a b c :
  lex_leb a b = true → lex_leb b c = true → lex_leb a c = true.
Proof.
  revert b c. induction a as [|x a IH]; intros [|y b] [|z c]; cbn [lex_leb]; try done.
  intros [H1|[H1 H1']%andb_true_iff]%orb_true_iff [H2|[H2 H2']%andb_true_iff]%orb_true_iff;
    rewrite ?Nat.ltb_lt, ?Nat.eqb_eq in *; apply orb_true_iff.
  - left. apply Nat.ltb_lt. lia.
  - left. apply Nat.ltb_lt. lia.
  - left. apply Nat.ltb_lt. lia.
  - right. subst. rewrite Nat.eqb_refl. eauto.
Qed.

Lemma sorted_reverse_nat_strict (l : list nat) :
  NoDup l → StronglySorted (λ a b, b < a) (sorted_reverse id Nat.leb l).
Proof.
  intros Hnd.
  assert (NoDup (sorted_reverse id Nat.leb l)) as Hnd'.
  { by rewrite sorted_reverse_perm. }
  pose proof (sorted_reverse_sorted id Nat.leb
    (λ a b H, proj2 (Nat.leb_le _ _) (Nat.lt_le_incl _ _ (proj1 (Nat.leb_gt _ _) H)))
    (λ a b c H1 H2, proj2 (Nat.leb_le _ _)
       (Nat.le_trans _ _ _ (proj1 (Nat.leb_le _ _) H1) (proj1 (Nat.leb_le _ _) H2))) l) as Hs.
  induction Hs as [|x s Hs IH Hx]; [constructor|].
  apply NoDup_cons in Hnd' as [Hx' Hnd']. constructor; [by apply IH|].
  rewrite Forall_forall in Hx |- *. intros y Hy.
  specialize (Hx y Hy). cbn in Hx. apply Nat.leb_le in Hx.
  assert (y ≠ x) by (intros ->; done). lia.
Qed.

(** ** The nested dictionary *)

Lemma bucket_add_item g d y m :
  bucket (add_item g d) y m =
  if decide (in_bucket y m d) then bucket g y m ++ [d] else bucket g y m.
Proof.
  unfold bucket, add_item, in_bucket. cbv zeta.
  destruct (decide (year (d_datetime d) = y)) as [<-|Hy].
  - rewrite lookup_insert_eq. cbn [from_option id].
    destruct (decide (month (d_datetime d) = m)) as [<-|Hm].
    + rewrite lookup_insert_eq. by rewrite decide_True.
    + rewrite lookup_insert_ne by done. rewrite decide_False by naive_solver. done.
  - rewrite lookup_insert_ne by done. rewrite decide_False by naive_solver. done.
Qed.

Lemma bucket_foldl items g y m :
  bucket (foldl add_item g items) y m = bucket g y m ++ filter (in_bucket y m) items.
Proof.
  revert g. induction items as [|d items IH]; intros g; cbn [foldl].
  { by rewrite filter_nil, app_nil_r. }
  rewrite IH, bucket_add_item, filter_cons.
  destruct (decide (in_bucket y m d)); [by rewrite <-app_assoc|done].
Qed.

Lemma has_month_add_item g d y m :
  has_month (add_item g d) y m ↔ has_month g y m ∨ in_bucket y m d.
Proof.
  unfold has_month, add_item, in_bucket. cbv zeta.
  destruct (decide (year (d_datetime d) = y)) as [<-|Hy].
  - rewrite lookup_insert_eq. cbn [from_option id].
    destruct (decide (month (d_datetime d) = m)) as [<-|Hm].
    + rewrite lookup_insert_eq. naive_solver.
    + rewrite lookup_insert_ne by done. naive_solver.
  - rewrite lookup_insert_ne by done. naive_solver.
Qed.

Lemma has_month_foldl items g y m :
  has_month (foldl add_item g items) y m ↔
  has_month g y m ∨ ∃ d, d ∈ items ∧ in_bucket y m d.
Proof.
  revert g. induction items as [|d items IH]; intros g; cbn [foldl].
  { set_solver. }
  rewrite IH, has_month_add_item. set_solver.
Qed.

Lemma has_year_add_item g d y :
  is_Some (add_item g d !! y) ↔ is_Some (g !! y) ∨ year (d_datetime d) = y.
Proof.
  unfold add_item. cbv zeta. destruct (decide (year (d_datetime d) = y)) as [<-|Hy].
  - rewrite lookup_insert_eq. naive_solver.
  - rewrite lookup_insert_ne by done. naive_solver.
Qed.

Lemma has_year_foldl items g y :
  is_Some (foldl add_item g items !! y) ↔
  is_Some (g !! y) ∨ ∃ d, d ∈ items ∧ year (d_datetime d) = y.
Proof.
  revert g. induction items as [|d items IH]; intros g; cbn [foldl].
  { set_solver. }
  rewrite IH, has_year_add_item. set_solver.
Qed.

Lemma keys_NoDup {V} (m : gmap nat V) : NoDup (keys m).
Proof. apply NoDup_fst_map_to_list. Qed.

Lemma elem_of_keys {V} (m : gmap nat V) k : k ∈ keys m ↔ is_Some (m !! k).
Proof.
  unfold keys. rewrite list_elem_of_fmap. split.
  - intros ([k' v] & -> & H%elem_of_map_to_list). by exists v.
  - intros [v H]. exists (k, v). split; [done|]. by apply elem_of_map_to_list.
Qed.

(** ** Partition of a list by a key *)

Lemma bind_perm_ext {A B} (f g : A → list B) (l : list A) :
  (∀ x, x ∈ l → f x ≡ₚ g x) → l ≫= f ≡ₚ l ≫= g.
Proof.
  induction l as [|x l IH]; intros H; [done|].
  rewrite !bind_cons. f_equiv; [apply H; left|].
  apply IH. intros y Hy. apply H. by right.
Qed.

Lemma bind_ext_in {A B} (f g : A → list B) (l : list A) :
  (∀ x, x ∈ l → f x = g x) → l ≫= f = l ≫= g.
Proof.
  induction l as [|x l IH]; intros H; [done|].
  rewrite !bind_cons. f_equal; [apply H; left|].
  apply IH. intros y Hy. apply H. by right.
Qed.

Lemma partition_by_keys {A} (key : A → nat) (ks : list nat) (l : list A) :
  NoDup ks → (∀ x, x ∈ l → key x ∈ ks) →
  ks ≫= (λ k, filter (λ x, key x = k) l) ≡ₚ l.
Proof.
  intros Hnd. induction l as [|x l IH]; intros Hin.
  { clear. induction ks as [|k ks IH]; [done|]. exact IH. }
  assert (key x ∈ ks) as Hx by (apply Hin; left).
  apply list_elem_of_split in Hx as (k1 & k2 & ->).
  assert ((key x ∉ k1) ∧ (key x ∉ k2)) as [Hk1 Hk2].
  { apply NoDup_app in Hnd as (_ & H1 & H2). apply NoDup_cons in H2 as [H2 _].
    split; [|done]. intros H. apply (H1 _ H). left. }
  assert (∀ ks' : list nat, key x ∉ ks' →
    ks' ≫= (λ k, filter (λ y, key y = k) (x :: l)) =
    ks' ≫= (λ k, filter (λ y, key y = k) l)) as Hsame.
  { intros ks' Hn. apply bind_ext_in. intros k Hk.
    rewrite filter_cons. rewrite decide_False; [done|]. congruence. }
  specialize (IH (λ y Hy, Hin y (list_elem_of_further _ _ _ Hy))).
  rewrite !bind_app, !bind_cons in IH |- *.
  rewrite (Hsame k1 Hk1), (Hsame k2 Hk2).
  rewrite filter_cons, decide_True by done.
  cbn [app]. rewrite <-Permutation_middle. by rewrite IH.
Qed.
(** ** The shape of the GroupedIndex *)

Lemma bucket_empty y m : bucket ∅ y m = [].
Proof. unfold bucket. by rewrite lookup_empty. Qed.

Lemma group_by_year_month_shape items :
  group_by_year_month items =
  (λ y, (y, (λ mo, (mo, sorted_reverse d_datetime dt_leb (filter (in_bucket y mo) items)))
              <$> months_of items y)) <$> years_of items.
Proof.
  unfold group_by_year_month, years_of. cbv zeta.
  apply list_fmap_ext. intros _ y _. f_equal.
  unfold order_months, months_of. rewrite lookup_total_alt.
  apply list_fmap_ext. intros _ mo _. f_equal. f_equal.
  rewrite lookup_total_alt.
  change (bucket (foldl add_item ∅ items) y mo = filter (in_bucket y mo) items).
  by rewrite bucket_foldl, bucket_empty.
Qed.

Lemma elem_of_years_of items y :
  y ∈ years_of items ↔ ∃ d, d ∈ items ∧ year (d_datetime d) = y.
Proof.
  unfold years_of. rewrite sorted_reverse_perm, elem_of_keys, has_year_foldl.
  rewrite lookup_empty. split; [intros [[? [=]]|?]; done|by right].
Qed.

Lemma elem_of_months_of items y m :
  m ∈ months_of items y ↔ ∃ d, d ∈ items ∧ in_bucket y m d.
Proof.
  unfold months_of. rewrite sorted_reverse_perm, elem_of_keys.
  change (has_month (foldl add_item ∅ items) y m ↔ ∃ d, d ∈ items ∧ in_bucket y m d).
  rewrite has_month_foldl. unfold has_month. rewrite lookup_empty. cbn.
  rewrite lookup_empty. split; [intros [[? [=]]|?]; done|by right].
Qed.

Lemma years_of_NoDup items : NoDup (years_of items).
Proof. unfold years_of. rewrite sorted_reverse_perm. apply keys_NoDup. Qed.

Lemma months_of_NoDup items y : NoDup (months_of items y).
Proof. unfold months_of. rewrite sorted_reverse_perm. apply keys_NoDup. Qed.

Lemma buckets_shape items :
  buckets (group_by_year_month items) =
  years_of items ≫= (λ y,
    (λ mo, ((y, mo), sorted_reverse d_datetime dt_leb (filter (in_bucket y mo) items)))
      <$> months_of items y).
Proof.
  rewrite group_by_year_month_shape. unfold buckets.
  induction (years_of items) as [|y ys IH]; [done|].
  rewrite fmap_cons, !bind_cons, IH. f_equal.
  cbn [fst snd]. rewrite <-list_fmap_compose. done.
Qed.

Lemma filter_filter_bucket y m (items : list downloaded_item) :
  filter (λ d, month (d_datetime d) = m) (filter (λ d, year (d_datetime d) = y) items)
  = filter (in_bucket y m) items.
Proof.
  induction items as [|d items IH]; [done|].
  rewrite (filter_cons (λ d, year (d_datetime d) = y)), (filter_cons (in_bucket y m)).
  unfold in_bucket at 1.
  destruct (decide (year (d_datetime d) = y)) as [Hy|Hy].
  - rewrite filter_cons. destruct (decide (month (d_datetime d) = m)) as [Hm|Hm].
    + rewrite decide_True by done. by rewrite IH.
    + rewrite decide_False by (by intros [_ ?]). done.
  - rewrite decide_False by (by intros [? _]). done.
Qed.

Lemma contents_year items y :
  ((λ mo, ((y, mo), sorted_reverse d_datetime dt_leb (filter (in_bucket y mo) items)))
     <$> months_of items y) ≫= snd
  ≡ₚ filter (λ d, year (d_datetime d) = y) items.
Proof.
  trans (months_of items y ≫= (λ m,
           filter (λ d, month (d_datetime d) = m)
             (filter (λ d, year (d_datetime d) = y) items))).
  - generalize (months_of items y) as ms. intros ms.
    induction ms as [|m ms IH]; [done|].
    rewrite fmap_cons, !bind_cons, IH. f_equiv. cbn [snd].
    by rewrite sorted_reverse_perm, filter_filter_bucket.
  - apply partition_by_keys; [apply months_of_NoDup|].
    intros d [Hy Hd]%list_elem_of_filter. apply elem_of_months_of.
    exists d. split; [done|]. by split.
Qed.

Lemma contents_buckets items :
  contents (buckets (group_by_year_month items)) ≡ₚ items.
Proof.
  rewrite buckets_shape. unfold contents.
  trans (years_of items ≫= (λ y, filter (λ d, year (d_datetime d) = y) items)).
  - generalize (years_of items) as ys. intros ys.
    induction ys as [|y ys IH]; [done|].
    by rewrite !bind_cons, bind_app, IH, contents_year.
  - apply partition_by_keys; [apply years_of_NoDup|].
    intros d Hd. apply elem_of_years_of. eauto.
Qed.
(** ** Claims about the Grouper *)

Lemma StronglySorted_fmap_fst {A B} (R : relation A) (f : A → B) (l : list A) :
  StronglySorted R l → StronglySorted (λ a b, R a.1 b.1) ((λ x, (x, f x)) <$> l).
Proof.
  induction 1 as [|x l Hl IH Hx]; [constructor|].
  rewrite fmap_cons. constructor; [done|].
  rewrite Forall_fmap. by eapply Forall_impl.
Qed.

Lemma fmap_bind_list {A B C} (g : B → C) (f : A → list B) (l : list A) :
  g <$> (l ≫= f) = l ≫= (λ x, g <$> f x).
Proof.
  induction l as [|x l IH]; [done|]. by rewrite !bind_cons, fmap_app, IH.
Qed.

(** C4: every downloaded record lies in the bucket of the year and month of
    its timestamp; a bucket holds only records of its own year and month; no
    (year, month) names two buckets; and the buckets together hold the input,
    each record as often as the input does. *)
Theorem C4_grouping_partition (items : list downloaded_item) :
  let bs := buckets (group_by_year_month items) in
  NoDup bs.*1 ∧
  (∀ y m l d, ((y, m), l) ∈ bs → d ∈ l →
     year (d_datetime d) = y ∧ month (d_datetime d) = m) ∧
  (∀ d, d ∈ items →
     ∃ l, ((year (d_datetime d), month (d_datetime d)), l) ∈ bs ∧ d ∈ l) ∧
  contents bs ≡ₚ items.
Proof.
  cbv zeta. rewrite buckets_shape. split_and!.
  - rewrite fmap_bind_list. apply NoDup_bind.
    + intros y1 y2 [y m]. cbn.
      rewrite <-!list_fmap_compose, !list_elem_of_fmap.
      intros _ _ (? & [= ? ?] & _) (? & [= ? ?] & _). congruence.
    + intros y _. cbn. rewrite <-list_fmap_compose.
      apply NoDup_fmap_2_strong; [|apply months_of_NoDup].
      intros ?? _ _ [= ]. done.
    + apply years_of_NoDup.
  - intros y m l d (y' & Hb & _)%list_elem_of_bind Hd.
    apply list_elem_of_fmap in Hb as (m' & [= -> -> ->] & _).
    rewrite sorted_reverse_perm in Hd. by apply list_elem_of_filter in Hd as [? _].
  - intros d Hd. eexists. split.
    + apply list_elem_of_bind. exists (year (d_datetime d)). split.
      * apply list_elem_of_fmap. exists (month (d_datetime d)). split; [done|].
        apply elem_of_months_of. exists d. by repeat split.
      * apply elem_of_years_of. eauto.
    + rewrite sorted_reverse_perm. apply list_elem_of_filter. by repeat split.
  - rewrite <-buckets_shape. apply contents_buckets.
Qed.

Lemma C4_grouping_partition_witness :
  contents (buckets (group_by_year_month
    [mk_downloaded (sample_memory "Image" "https://h/i") "media/20230501_100000_0000.jpg";
     mk_downloaded (sample_memory "Video" "https://h/v") "media/20230501_100000_0001.mp4"]))
  ≡ₚ [mk_downloaded (sample_memory "Image" "https://h/i") "media/20230501_100000_0000.jpg";
      mk_downloaded (sample_memory "Video" "https://h/v") "media/20230501_100000_0001.mp4"].
Proof.
  exact (proj2 (proj2 (proj2 (C4_grouping_partition
    [mk_downloaded (sample_memory "Image" "https://h/i") "media/20230501_100000_0000.jpg";
     mk_downloaded (sample_memory "Video" "https://h/v") "media/20230501_100000_0001.mp4"])))).
Defined.

(** C5: in a GroupedIndex the years come in strictly descending order, the
    months of each year in strictly descending order, and in each month no
    item is followed by one with a later timestamp. *)
Theorem C5_ordering (items : list downloaded_item) :
  let g := group_by_year_month items in
  StronglySorted (λ a b, b < a) g.*1 ∧
  Forall (λ ye, StronglySorted (λ a b, b < a) ye.2.*1) g ∧
  Forall (λ ye, Forall (λ me, StronglySorted (λ a b, not_after b a) me.2) ye.2) g.
Proof.
  cbv zeta. rewrite group_by_year_month_shape. split_and!.
  - rewrite <-list_fmap_compose.
    rewrite (list_fmap_ext _ id (years_of items)) by done. rewrite list_fmap_id.
    apply sorted_reverse_nat_strict, keys_NoDup.
  - rewrite Forall_fmap. apply Forall_forall. intros y _. cbn.
    rewrite <-list_fmap_compose.
    rewrite (list_fmap_ext _ id (months_of items y)) by done. rewrite list_fmap_id.
    apply sorted_reverse_nat_strict, keys_NoDup.
  - rewrite Forall_fmap. apply Forall_forall. intros y _. cbn.
    rewrite Forall_fmap. apply Forall_forall. intros m _. cbn.
    apply (sorted_reverse_sorted d_datetime dt_leb).
    + intros a b. apply lex_leb_total.
    + intros a b c. apply lex_leb_trans.
Qed.
(** * Loader: dates *)

Module DateFacts.
Import Dec DecFacts StrFacts Re.

Lemma all_digits_two n : all_digits (two_digits n) = true.
Proof. unfold two_digits. cbn [all_digits]. by rewrite !is_digit_digit. Qed.

Lemma all_digits_four n : all_digits (four_digits n) = true.
Proof. unfold four_digits. cbn [all_digits]. by rewrite !is_digit_digit. Qed.

Lemma value_two n : n < 100 → value (two_digits n) = n.
Proof.
  intros Hn. unfold value, two_digits. cbn [value_go]. rewrite !nat_of_digit.
  pose proof (Nat.div_mod_eq n 10). pose proof (Nat.mod_upper_bound n 10).
  assert (n / 10 < 10) by (apply Nat.Div0.div_lt_upper_bound; lia).
  rewrite (Nat.mod_small (n / 10)) by done. lia.
Qed.

Lemma value_four n : n ≤ MAXYEAR → value (four_digits n) = n.
Proof.
  unfold MAXYEAR. intros Hn. unfold value, four_digits. cbn [value_go].
  rewrite !nat_of_digit.
  assert (n / 100 = n / 10 / 10) as E2 by (by rewrite Nat.Div0.div_div).
  assert (n / 1000 = n / 10 / 10 / 10) as E3 by (by rewrite !Nat.Div0.div_div).
  rewrite E2, E3.
  pose proof (Nat.div_mod_eq n 10). pose proof (Nat.mod_upper_bound n 10).
  pose proof (Nat.div_mod_eq (n / 10) 10).
  pose proof (Nat.mod_upper_bound (n / 10) 10).
  pose proof (Nat.div_mod_eq (n / 10 / 10) 10).
  pose proof (Nat.mod_upper_bound (n / 10 / 10) 10).
  assert (n / 10 / 10 / 10 < 10) by lia.
  rewrite (Nat.mod_small (n / 10 / 10 / 10)) by done. lia.
Qed.

(** The year as [strftime] prints it has four digits from 1000 on. *)
Lemma go_step f n acc :
  go (S f) n acc =
  if n / 10 =? 0 then String (digit n) acc else go f (n / 10) (String (digit n) acc).
Proof. done. Qed.

Lemma of_nat_four n : 1000 ≤ n ≤ MAXYEAR → of_nat n = four_digits n.
Proof.
  unfold MAXYEAR. intros Hn. unfold of_nat, four_digits.
  assert (n / 100 = n / 10 / 10) as E2 by (by rewrite Nat.Div0.div_div).
  assert (n / 1000 = n / 10 / 10 / 10) as E3 by (by rewrite !Nat.Div0.div_div).
  rewrite E2, E3.
  pose proof (Nat.div_mod_eq n 10). pose proof (Nat.mod_upper_bound n 10).
  pose proof (Nat.div_mod_eq (n / 10) 10).
  pose proof (Nat.mod_upper_bound (n / 10) 10).
  pose proof (Nat.div_mod_eq (n / 10 / 10) 10).
  pose proof (Nat.mod_upper_bound (n / 10 / 10) 10).
  pose proof (Nat.div_mod_eq (n / 10 / 10 / 10) 10).
  pose proof (Nat.mod_upper_bound (n / 10 / 10 / 10) 10).
  replace (S n) with (S (S (S (S (n - 3))))) by lia.
  rewrite go_step. destruct (n / 10 =? 0) eqn:Ea; [apply Nat.eqb_eq in Ea; lia|].
  rewrite go_step. destruct (n / 10 / 10 =? 0) eqn:Eb; [apply Nat.eqb_eq in Eb; lia|].
  rewrite go_step.
  destruct (n / 10 / 10 / 10 =? 0) eqn:Ec; [apply Nat.eqb_eq in Ec; lia|].
  rewrite go_step.
  destruct (n / 10 / 10 / 10 / 10 =? 0) eqn:Ed; [done|apply Nat.eqb_neq in Ed; lia].
Qed.

Lemma all_digits_of_nat n : all_digits (of_nat n) = true.
Proof. by apply all_digits_go. Qed.

(** An ASCII digit is a decimal digit, and no white space. *)
Lemma next_digit_is_digit c s :
  is_digit c = true →
  next_digit (String c s) = Some (nat_of_ascii c - 48, String c "", s).
Proof.
  destruct c as [[] [] [] [] [] [] [] []]; intros H; vm_compute in H; try done;
    vm_compute; reflexivity.
Qed.

Lemma next_space_is_digit c s : is_digit c = true → next_space (String c s) = None.
Proof.
  destruct c as [[] [] [] [] [] [] [] []]; intros H; vm_compute in H; try done;
    vm_compute; reflexivity.
Qed.

Lemma next_space_blank s : next_space (String " " s) = Some (" ", s).
Proof. vm_compute. reflexivity. Qed.

Lemma lstrip_digit c s : is_digit c = true → lstrip_spaces (String c s) = String c s.
Proof.
  destruct c as [[] [] [] [] [] [] [] []]; vm_compute; congruence.
Qed.

(** On ASCII digits [int] reads the decimal number. *)
Lemma int_go_digits s fuel acc :
  all_digits s = true → String.length s ≤ fuel → int_go fuel acc s = value_go acc s.
Proof.
  revert fuel acc. induction s as [|c s IH]; intros fuel acc Hs Hf.
  { destruct fuel; [done|]. by cbn. }
  cbn [all_digits] in Hs. apply andb_true_iff in Hs as [Hc Hs].
  destruct fuel as [|fuel]; [cbn in Hf; lia|]. cbn [int_go value_go].
  rewrite (next_digit_is_digit c s Hc). apply IH; [done|]. cbn in Hf. lia.
Qed.

Lemma int_of_digits c s :
  all_digits (String c s) = true → int_of (String c s) = value (String c s).
Proof.
  intros H. unfold int_of. cbv zeta. pose proof H as Hc.
  cbn [all_digits] in Hc. apply andb_true_iff in Hc as [Hc _].
  rewrite (lstrip_digit c s Hc). by apply int_go_digits.
Qed.

Lemma int_of_two n : n < 100 → int_of (two_digits n) = n.
Proof.
  intros Hn. rewrite <-(value_two n Hn) at 2.
  apply (int_of_digits _ _ (all_digits_two n)).
Qed.

Lemma int_of_four n : n ≤ MAXYEAR → int_of (four_digits n) = n.
Proof.
  intros Hn. rewrite <-(value_four n Hn) at 2.
  apply (int_of_digits _ _ (all_digits_four n)).
Qed.

(** *** The matcher on the fields [strftime] prints *)

Ltac field_case Hk := vm_compute in Hk |- *; rewrite Hk; reflexivity.
Tactic Notation "field_cases" integer(bound) ident(n) hyp(Hk) :=
  do bound (destruct n as [|n]; [first [lia | field_case Hk]|]); lia.

Section Match.
Context {R : Type}.
Implicit Types k : string → string → captures → option R.

Lemma rmatch_Cat r1 r2 s caps k :
  rmatch (Cat r1 r2) s caps k =
  rmatch r1 s caps (λ c1 s1 caps1,
    rmatch r2 s1 caps1 (λ c2 s2 caps2, k (c1 +:+ c2) s2 caps2)).
Proof. done. Qed.

Lemma rmatch_Eps s caps k : rmatch Eps s caps k = k "" s caps.
Proof. done. Qed.

Lemma rmatch_Lit c rest caps k :
  rmatch (Lit c) (String c rest) caps k = k (String c "") rest caps.
Proof. cbn [rmatch]. by rewrite Ascii.eqb_refl. Qed.

Lemma rmatch_Spaces c rest caps k :
  is_digit c = true →
  rmatch Spaces (String " " (String c rest)) caps k = k " " (String c rest) caps.
Proof.
  intros Hc. cbn [rmatch]. rewrite next_space_blank.
  cbn [String.length spaces_star]. by rewrite (next_space_is_digit c rest Hc).
Qed.

Lemma rmatch_Digit n rest caps k :
  rmatch Digit (String (digit n) rest) caps k = k (String (digit n) "") rest caps.
Proof.
  cbn [rmatch]. by rewrite (next_digit_is_digit _ _ (is_digit_digit n)).
Qed.

Lemma rmatch_Spaces_two n rest caps k :
  rmatch Spaces (String " " (two_digits n +:+ rest)) caps k
  = k " " (two_digits n +:+ rest) caps.
Proof.
  unfold two_digits. rewrite !app_String.
  apply rmatch_Spaces, is_digit_digit.
Qed.

Lemma rmatch_Spaces_four n rest caps k :
  rmatch Spaces (String " " (four_digits n +:+ rest)) caps k
  = k " " (four_digits n +:+ rest) caps.
Proof.
  unfold four_digits. rewrite !app_String.
  apply rmatch_Spaces, is_digit_digit.
Qed.

Lemma rmatch_Y y rest caps k :
  rmatch (Group "Y" (Cat Digit (Cat Digit (Cat Digit Digit))))
    (four_digits y +:+ rest) caps k
  = k (four_digits y) rest (("Y"%char, four_digits y) :: caps).
Proof.
  unfold four_digits. rewrite !app_String.
  change (rmatch (Group "Y" ?r) ?s caps k)
    with (rmatch r s caps (λ c s' caps', k c s' (("Y"%char, c) :: caps'))).
  do 3 (rewrite rmatch_Cat, rmatch_Digit; cbv beta).
  by rewrite rmatch_Digit.
Qed.

(** A two-digit field whose value is in the range of its directive: the
    first alternative that matches takes both digits. *)

Lemma rmatch_m n rest caps k v :
  1 ≤ n ≤ 12 →
  k (two_digits n) rest (("m"%char, two_digits n) :: caps) = Some v →
  rmatch (default Eps (directive "m")) (two_digits n +:+ rest) caps k = Some v.
Proof. intros Hn Hk. field_cases 13 n Hk. Qed.

Lemma rmatch_d n rest caps k v :
  1 ≤ n ≤ 31 →
  k (two_digits n) rest (("d"%char, two_digits n) :: caps) = Some v →
  rmatch (default Eps (directive "d")) (two_digits n +:+ rest) caps k = Some v.
Proof. intros Hn Hk. field_cases 32 n Hk. Qed.

Lemma rmatch_H n rest caps k v :
  n < 24 →
  k (two_digits n) rest (("H"%char, two_digits n) :: caps) = Some v →
  rmatch (default Eps (directive "H")) (two_digits n +:+ rest) caps k = Some v.
Proof. intros Hn Hk. field_cases 24 n Hk. Qed.

Lemma rmatch_M n rest caps k v :
  n < 60 →
  k (two_digits n) rest (("M"%char, two_digits n) :: caps) = Some v →
  rmatch (default Eps (directive "M")) (two_digits n +:+ rest) caps k = Some v.
Proof. intros Hn Hk. field_cases 60 n Hk. Qed.

Lemma rmatch_S n rest caps k v :
  n < 60 →
  k (two_digits n) rest (("S"%char, two_digits n) :: caps) = Some v →
  rmatch (default Eps (directive "S")) (two_digits n +:+ rest) caps k = Some v.
Proof. intros Hn Hk. field_cases 60 n Hk. Qed.

Lemma rmatch_B n rest caps k v :
  1 ≤ n ≤ 12 →
  k (month_name n) rest (("B"%char, month_name n) :: caps) = Some v →
  rmatch (default Eps (directive "B")) (month_name n +:+ rest) caps k = Some v.
Proof. intros Hn Hk. field_cases 13 n Hk. Qed.
End Match.

(** *** Removing " UTC" *)

Lemma startswith_U_no_U s p :
  Str.has_char "U" s = false → Str.startswith s (String "U" p) = false.
Proof.
  destruct s as [|a s]; [done|]. cbn [Str.has_char Str.startswith].
  intros [Ha _]%orb_false_iff. rewrite Ascii.eqb_sym. by rewrite Ha.
Qed.

Lemma replace_no_U s : Str.has_char "U" s = false → Str.replace s " UTC" "" = s.
Proof.
  unfold Str.replace. induction s as [|c s IH]; [done|]. intros H.
  cbn [Str.has_char] in H. apply orb_false_iff in H as [Hc Hs].
  cbn [Str.replace_go Str.startswith].
  rewrite (startswith_U_no_U s "TC" Hs), (IH Hs). by destruct (Ascii.eqb " " c).
Qed.

Lemma has_char_app_UTC_head s :
  Str.has_char "U" s = false → Str.startswith (s +:+ " UTC") "UTC" = false.
Proof.
  destruct s as [|a s]; [done|]. rewrite app_String.
  cbn [Str.has_char Str.startswith].
  intros [Ha _]%orb_false_iff. rewrite Ascii.eqb_sym. by rewrite Ha.
Qed.

Lemma replace_app_UTC s :
  Str.has_char "U" s = false → Str.replace (s +:+ " UTC") " UTC" "" = s.
Proof.
  unfold Str.replace. induction s as [|c s IH]; [done|]. intros H.
  cbn [Str.has_char] in H. apply orb_false_iff in H as [Hc Hs].
  rewrite app_String. cbn [Str.replace_go Str.startswith].
  rewrite (has_char_app_UTC_head s Hs), (IH Hs). by destruct (Ascii.eqb " " c).
Qed.

Lemma no_U_digits s : all_digits s = true → Str.has_char "U" s = false.
Proof. by apply all_digits_has_char. Qed.

Lemma no_U_month_name n : Str.has_char "U" (month_name n) = false.
Proof. do 13 (destruct n as [|n]; [done|]). done. Qed.

(** *** What a valid datetime bounds *)

Lemma days_in_month_le y m : days_in_month y m ≤ 31.
Proof.
  unfold days_in_month.
  do 12 (destruct m as [|m]; [try destruct (is_leap y); lia|]). lia.
Qed.

Lemma valid_datetime_bounds dt :
  valid_datetime dt = true →
  1 ≤ year dt ≤ MAXYEAR ∧ 1 ≤ month dt ≤ 12 ∧ 1 ≤ day dt ≤ 31 ∧
  hour dt < 24 ∧ minute dt < 60 ∧ second dt < 60.
Proof.
  unfold valid_datetime, valid_date. rewrite !andb_true_iff.
  rewrite !Nat.leb_le, !Nat.ltb_lt.
  pose proof (days_in_month_le (year dt) (month dt)). lia.
Qed.

Lemma valid_datetime_trunc dt :
  valid_datetime dt = true →
  valid_datetime (at_second dt) = true ∧ valid_datetime (at_midnight dt) = true.
Proof.
  unfold valid_datetime, at_second, at_midnight. cbn [year month day hour minute second microsecond].
  rewrite !andb_true_iff. intros [[[[-> ->] ->] ->] _]. done.
Qed.

(** *** The three formats *)

Lemma strptime_iso dt :
  valid_datetime dt = true → 1000 ≤ year dt →
  strptime (strftime dt "%Y-%m-%d %H:%M:%S") "%Y-%m-%d %H:%M:%S"
  = Some (at_second dt).
Proof.
  intros Hv Hk. pose proof (valid_datetime_bounds dt Hv) as (Hy & Hm & Hd & Hh & Hmi & Hs).
  unfold strptime.
  assert (Re.rmatch (default Eps (pattern "%Y-%m-%d %H:%M:%S"))
            (strftime dt "%Y-%m-%d %H:%M:%S") []
            (λ _ rest caps, Some (rest, caps))
          = Some ("", [("S"%char, two_digits (second dt));
                       ("M"%char, two_digits (minute dt));
                       ("H"%char, two_digits (hour dt));
                       ("d"%char, two_digits (day dt));
                       ("m"%char, two_digits (month dt));
                       ("Y"%char, four_digits (year dt))])) as Hmatch.
  { unfold strftime. cbn [strftime_tz strftime_directive].
    rewrite (of_nat_four (year dt)) by lia.
    change (default Eps (pattern "%Y-%m-%d %H:%M:%S")) with
      (Cat (default Eps (directive "Y")) (Cat (Lit "-")
        (Cat (default Eps (directive "m")) (Cat (Lit "-")
          (Cat (default Eps (directive "d")) (Cat Spaces
            (Cat (default Eps (directive "H")) (Cat (Lit ":")
              (Cat (default Eps (directive "M")) (Cat (Lit ":")
                (Cat (default Eps (directive "S")) Eps))))))))))).
    rewrite rmatch_Cat.
    change (default Eps (directive "Y")) with
      (Group "Y" (Cat Digit (Cat Digit (Cat Digit Digit)))).
    rewrite rmatch_Y. cbv beta.
    rewrite rmatch_Cat, rmatch_Lit. cbv beta. rewrite rmatch_Cat.
    apply rmatch_m; [done|]. cbv beta.
    rewrite rmatch_Cat, rmatch_Lit. cbv beta. rewrite rmatch_Cat.
    apply rmatch_d; [done|]. cbv beta. rewrite rmatch_Cat.
    rewrite rmatch_Spaces_two. cbv beta. rewrite rmatch_Cat.
    apply rmatch_H; [done|]. cbv beta.
    rewrite rmatch_Cat, rmatch_Lit. cbv beta. rewrite rmatch_Cat.
    apply rmatch_M; [done|]. cbv beta.
    rewrite rmatch_Cat, rmatch_Lit. cbv beta. rewrite rmatch_Cat.
    apply rmatch_S; [done|]. cbv beta. by rewrite rmatch_Eps. }
  replace (pattern "%Y-%m-%d %H:%M:%S")
    with (Some (default Eps (pattern "%Y-%m-%d %H:%M:%S"))) by done.
  rewrite Hmatch. unfold of_groups. cbn [group Ascii.eqb Bool.eqb from_option].
  rewrite !int_of_two, int_of_four by lia.
  fold (at_second dt).
  by destruct (valid_datetime_trunc dt Hv) as [-> _].
Qed.

Lemma index_of_month_name n :
  1 ≤ n ≤ 12 →
  index_of (Str.lower (month_name n)) (Str.lower <$> month_names) = Some n.
Proof. intros Hn. do 13 (destruct n as [|n]; [first [lia | reflexivity]|]). lia. Qed.

Lemma strptime_long dt :
  valid_datetime dt = true → 1000 ≤ year dt →
  strptime (strftime dt "%B %d, %Y") "%B %d, %Y" = Some (at_midnight dt).
Proof.
  intros Hv Hk. pose proof (valid_datetime_bounds dt Hv) as (Hy & Hm & Hd & _).
  unfold strptime.
  assert (Re.rmatch (default Eps (pattern "%B %d, %Y"))
            (strftime dt "%B %d, %Y") []
            (λ _ rest caps, Some (rest, caps))
          = Some ("", [("Y"%char, four_digits (year dt));
                       ("d"%char, two_digits (day dt));
                       ("B"%char, month_name (month dt))])) as Hmatch.
  { unfold strftime. cbn [strftime_tz strftime_directive].
    rewrite (of_nat_four (year dt)) by lia.
    change (default Eps (pattern "%B %d, %Y")) with
      (Cat (default Eps (directive "B")) (Cat Spaces
        (Cat (default Eps (directive "d")) (Cat (Lit ",") (Cat Spaces
          (Cat (Group "Y" (Cat Digit (Cat Digit (Cat Digit Digit)))) Eps)))))).
    rewrite rmatch_Cat. apply rmatch_B; [done|]. cbv beta.
    rewrite rmatch_Cat, rmatch_Spaces_two. cbv beta. rewrite rmatch_Cat.
    apply rmatch_d; [done|]. cbv beta.
    rewrite rmatch_Cat, rmatch_Lit. cbv beta.
    rewrite rmatch_Cat, rmatch_Spaces_four. cbv beta.
    rewrite rmatch_Cat, rmatch_Y. cbv beta. by rewrite rmatch_Eps. }
  replace (pattern "%B %d, %Y")
    with (Some (default Eps (pattern "%B %d, %Y"))) by done.
  rewrite Hmatch. unfold of_groups. cbn [group Ascii.eqb Bool.eqb from_option].
  rewrite index_of_month_name by done. cbn [from_option id].
  rewrite int_of_two, int_of_four by lia.
  fold (at_midnight dt).
  by destruct (valid_datetime_trunc dt Hv) as [_ ->].
Qed.

(** The long form is no ISO date: it starts with a letter. *)
Lemma strptime_iso_rejects_long dt :
  1 ≤ month dt ≤ 12 →
  strptime (strftime dt "%B %d, %Y") "%Y-%m-%d %H:%M:%S" = None.
Proof.
  destruct dt as [y m d h mi s us]. cbn [month]. intros Hm.
  do 13 (destruct m as [|m]; [first [lia | vm_compute; reflexivity]|]). lia.
Qed.

Ltac no_U :=
  unfold strftime; cbn [strftime_tz strftime_directive];
  repeat first
    [ rewrite has_char_app
    | rewrite (no_U_digits _ (all_digits_two _))
    | rewrite (no_U_digits _ (all_digits_of_nat _))
    | rewrite no_U_month_name
    | progress cbn [Str.has_char] ];
  reflexivity.

Lemma no_U_iso dt : Str.has_char "U" (strftime dt "%Y-%m-%d %H:%M:%S") = false.
Proof. no_U. Qed.

Lemma no_U_long dt : Str.has_char "U" (strftime dt "%B %d, %Y") = false.
Proof. no_U. Qed.

Lemma strftime_utc dt :
  strftime_tz "UTC" dt "%Y-%m-%d %H:%M:%S %Z"
  = strftime dt "%Y-%m-%d %H:%M:%S" +:+ " UTC".
Proof.
  unfold strftime. cbn [strftime_tz strftime_directive].
  rewrite !app_assoc, !app_String, !app_assoc. cbn [String.append]. 
  repeat (rewrite ?app_assoc, ?app_String, ?app_empty_r). done.
Qed.

Lemma parse_date_iso dt :
  valid_datetime dt = true → 1000 ≤ year dt →
  parse_date (strftime dt "%Y-%m-%d %H:%M:%S") = Some (at_second dt).
Proof.
  intros Hv Hk. unfold parse_date, date_formats. cbn [try_formats].
  rewrite (replace_no_U _ (no_U_iso dt)).
  change (Str.replace "%Y-%m-%d %H:%M:%S %Z" " %Z" "") with "%Y-%m-%d %H:%M:%S".
  by rewrite strptime_iso.
Qed.

Lemma parse_date_utc dt :
  valid_datetime dt = true → 1000 ≤ year dt →
  parse_date (strftime_tz "UTC" dt "%Y-%m-%d %H:%M:%S %Z") = Some (at_second dt).
Proof.
  intros Hv Hk. unfold parse_date, date_formats. cbn [try_formats].
  rewrite strftime_utc, (replace_app_UTC _ (no_U_iso dt)).
  change (Str.replace "%Y-%m-%d %H:%M:%S %Z" " %Z" "") with "%Y-%m-%d %H:%M:%S".
  by rewrite strptime_iso.
Qed.

Lemma parse_date_long dt :
  valid_datetime dt = true → 1000 ≤ year dt →
  parse_date (strftime dt "%B %d, %Y") = Some (at_midnight dt).
Proof.
  intros Hv Hk. pose proof (valid_datetime_bounds dt Hv) as (_ & Hm & _).
  unfold parse_date, date_formats. cbn [try_formats].
  rewrite (replace_no_U _ (no_U_long dt)).
  change (Str.replace "%Y-%m-%d %H:%M:%S %Z" " %Z" "") with "%Y-%m-%d %H:%M:%S".
  change (Str.replace "%Y-%m-%d %H:%M:%S" " %Z" "") with "%Y-%m-%d %H:%M:%S".
  change (Str.replace "%B %d, %Y" " %Z" "") with "%B %d, %Y".
  rewrite strptime_iso_rejects_long by done.
  by rewrite strptime_long.
Qed.
End DateFacts.
(** ** Claims about the Loader *)

(** C2, as the specification words it, fails: a naive datetime printed with
    "%Y-%m-%d %H:%M:%S %Z" ends in a blank, and an aware one in another zone
    than UTC ends in the name of that zone; the Loader skips both.  And the
    year of a datetime before the year 1000 is printed with fewer than the
    four digits the parser asks for: the Loader skips such a text too. *)
Lemma C2_zone_counterexample :
  let dt := mk_datetime 2023 5 1 10 0 0 0 in
  let early := mk_datetime 999 1 2 3 4 5 0 in
  valid_datetime dt = true ∧
  strftime dt "%Y-%m-%d %H:%M:%S %Z" = "2023-05-01 10:00:00 " ∧
  parse_date (strftime dt "%Y-%m-%d %H:%M:%S %Z") = None ∧
  strftime_tz "EST" dt "%Y-%m-%d %H:%M:%S %Z" = "2023-05-01 10:00:00 EST" ∧
  parse_date (strftime_tz "EST" dt "%Y-%m-%d %H:%M:%S %Z") = None ∧
  valid_datetime early = true ∧
  strftime early "%Y-%m-%d %H:%M:%S" = "999-01-02 03:04:05" ∧
  parse_date (strftime early "%Y-%m-%d %H:%M:%S") = None ∧
  strftime early "%B %d, %Y" = "January 02, 999" ∧
  parse_date (strftime early "%B %d, %Y") = None.
Proof. vm_compute. done. Qed.

(** C2 (amended): for every valid datetime from the year 1000 on, the text
    printed with "%Y-%m-%d %H:%M:%S" alone, or with "%Y-%m-%d %H:%M:%S %Z" in
    the zone named UTC, is accepted by the Loader and parses to the same
    calendar date and time of day to the second; the text printed with
    "%B %d, %Y" is accepted and parses to the same calendar date, at
    midnight. *)
Theorem C2_date_roundtrip (dt : datetime) :
  valid_datetime dt = true → 1000 ≤ year dt →
  parse_date (strftime_tz "UTC" dt "%Y-%m-%d %H:%M:%S %Z") = Some (at_second dt) ∧
  parse_date (strftime dt "%Y-%m-%d %H:%M:%S") = Some (at_second dt) ∧
  parse_date (strftime dt "%B %d, %Y") = Some (at_midnight dt).
Proof.
  intros Hv Hy. split_and!.
  - by apply DateFacts.parse_date_utc.
  - by apply DateFacts.parse_date_iso.
  - by apply DateFacts.parse_date_long.
Qed.

Lemma C2_date_roundtrip_witness :
  parse_date "2024-02-29 23:59:59 UTC" = Some (mk_datetime 2024 2 29 23 59 59 0) ∧
  parse_date "2024-02-29 23:59:59" = Some (mk_datetime 2024 2 29 23 59 59 0) ∧
  parse_date "February 29, 2024" = Some (mk_datetime 2024 2 29 0 0 0 0).
Proof.
  apply (C2_date_roundtrip (mk_datetime 2024 2 29 23 59 59 123456)).
  - reflexivity.
  - cbn [year]. lia.
Defined.

Section LoaderFacts.
Variable stdout : N → bool.

Lemma kept_or_excluded idx item x :
  normalize_item stdout idx item = Ok x →
  (x = None ∧ excluded stdout (idx, item) = true ∧ kept stdout (idx, item) = None) ∨
  (∃ r, x = Some r ∧ excluded stdout (idx, item) = false ∧
        kept stdout (idx, item) = Some r).
Proof.
  unfold excluded, kept. cbn [fst snd]. intros ->.
  destruct x as [r|]; [right|left]; eauto.
Qed.

Lemma load_loop_spec items acc normalized :
  load_loop stdout items acc = Ok normalized →
  normalized = acc ++ omap (kept stdout) items ∧
  length (filter (λ i, excluded stdout i = true) items)
    + length (omap (kept stdout) items)
  = length items.
Proof.
  revert acc. induction items as [|[idx item] items IH]; intros acc; cbn [load_loop].
  { intros [= <-]. by rewrite app_nil_r. }
  destruct (normalize_item stdout idx item) as [x|e] eqn:Hn; [|done].
  apply kept_or_excluded in Hn as [(-> & He & Hk)|(r & -> & He & Hk)].
  - intros [-> Hlen]%IH. rewrite filter_cons, decide_True by done.
    cbn [omap list_omap]. rewrite Hk. cbn. split; [done|]. by f_equal.
  - intros [-> Hlen]%IH. rewrite filter_cons, decide_False by (by rewrite He).
    cbn [omap list_omap]. rewrite Hk. cbn. rewrite <-app_assoc. split; [done|].
    lia.
Qed.

Lemma dict_get_lacks o k : dict_lookup o k = None → dict_get o k = JNull.
Proof. unfold dict_get. by intros ->. Qed.

Lemma normalize_item_lacks idx o :
  lacks date_keys o ∨ lacks url_keys o → normalize_item stdout idx (JObj o) = Ok None.
Proof.
  unfold lacks, date_keys, url_keys. rewrite !Forall_cons.
  intros [(H1 & H2 & _)|(H1 & H2 & H3 & H4 & H5 & _)]; cbn [normalize_item].
  - rewrite (dict_get_lacks _ _ H1), (dict_get_lacks _ _ H2). done.
  - rewrite (dict_get_lacks _ _ H1), (dict_get_lacks _ _ H2), (dict_get_lacks _ _ H3),
      (dict_get_lacks _ _ H4), (dict_get_lacks _ _ H5).
    cbn [py_or truthy negb]. by rewrite orb_true_r.
Qed.
End LoaderFacts.

Lemma length_enumerate_from {A} i (l : list A) : length (enumerate_from i l) = length l.
Proof. revert i. induction l as [|x l IH]; intros i; cbn; [done|]. by rewrite IH. Qed.

(** C8: a record of "Saved Media" that has no date under "Date" or "date",
    or no URL under any of the five URL keys, is skipped without an
    exception, wherever it stands; and when the Loader returns, its output
    is the records kept, in order, and the number of records it skipped is
    the length of the input minus the length of the output. *)
Theorem C8_incomplete_records_excluded stdout :
  (∀ idx o, lacks date_keys o ∨ lacks url_keys o →
     normalize_item stdout idx (JObj o) = Ok None ∧
     excluded stdout (idx, JObj o) = true) ∧
  (∀ data items normalized,
     saved_media data = Ok items →
     load_memories stdout data = Ok normalized →
     normalized = omap (kept stdout) (enumerate items) ∧
     length (filter (λ i, excluded stdout i = true) (enumerate items))
     = length items - length normalized).
Proof.
  split.
  - intros idx o Ho. pose proof (normalize_item_lacks stdout idx o Ho) as H.
    split; [done|]. unfold excluded. cbn [fst snd]. by rewrite H.
  - intros data items normalized Hs. unfold load_memories. rewrite Hs.
    intros [-> Hlen]%load_loop_spec. cbn [app]. split; [done|].
    unfold enumerate in *. rewrite length_enumerate_from in Hlen. lia.
Qed.

Lemma C8_incomplete_records_excluded_witness :
  excluded strict (1, JObj [("Media Type", JStr "Image");
                           ("Media Download Url", JStr "https://h/2")]) = true ∧
  excluded strict (2, JObj [("Date", JStr "2023-01-15 09:30:00 UTC");
                           ("Media Type", JStr "Video")]) = true ∧
  length (filter (λ i, excluded strict i = true)
            (enumerate
               [record_of "2023-05-01 10:00:00 UTC" (JStr "Image") "https://h/1";
                JObj [("Media Type", JStr "Image");
                      ("Media Download Url", JStr "https://h/2")];
                JObj [("Date", JStr "2023-01-15 09:30:00 UTC");
                      ("Media Type", JStr "Video")]]))
  = 3 - 1.
Proof.
  destruct (C8_incomplete_records_excluded strict) as [Hskip Hcount].
  split_and!.
  - apply Hskip. left. by repeat constructor.
  - apply Hskip. right. by repeat constructor.
  - exact (proj2 (Hcount gappy_export _
             [mk_memory (mk_datetime 2023 5 1 10 0 0 0) "2023-05-01 10:00:00 UTC"
                (JStr "Image") (JStr "") (JStr "https://h/1")] eq_refl eq_refl)).
Defined.
(** * The whole run *)

(** ** Exports with text records never raise *)

Lemma clean_printable stdout cs :
  Utf8.clean cs = true → Utf8.printable stdout cs = true.
Proof.
  unfold Utf8.clean, Utf8.printable. rewrite !forallb_forall.
  intros H c Hc. by rewrite (H c Hc).
Qed.

Lemma dict_get_textish o k :
  Forall (λ kv, ∃ s, kv.2 = JStr s ∧ clean_text s) o → textish (dict_get o k).
Proof.
  unfold dict_get. induction 1 as [|[k' v] o (s & Hs & Hc) _ IH]; cbn [dict_lookup].
  { by left. }
  destruct (dict_lookup o k); [done|].
  destruct (String.eqb k k'); [|by left]. right. by exists s.
Qed.

Lemma py_or_textish a b : textish a → textish b → textish (py_or a b).
Proof. unfold py_or. by destruct (truthy a). Qed.

Lemma textish_truthy v :
  textish v → truthy v = true → ∃ s, v = JStr s ∧ clean_text s.
Proof. intros [->|(s & -> & Hs)]; [done|]. by exists s. Qed.

Lemma py_or_text_default a : textish a → ∃ s, py_or a (JStr "") = JStr s.
Proof.
  intros [->|(s & -> & _)]; unfold py_or; cbn; [by eexists|]. destruct s; by eexists.
Qed.

Section RunFacts.
Variable stdout : N → bool.
Variable urlopen : nat → string → reply.
Variable ZipFile : list byte → option zipfile.

Lemma normalize_item_text idx item :
  text_record item →
  ∃ x, normalize_item stdout idx item = Ok x ∧ ∀ r, x = Some r → text_memory r.
Proof.
  intros (o & -> & Ho). cbn [normalize_item].
  pose proof (λ k, dict_get_textish o k Ho) as Hg.
  set (date_str := py_or (dict_get o "Date") (dict_get o "date")).
  set (download_link := py_or _ (py_or (dict_get o "Download Link") _)).
  set (media_type := py_or (py_or (dict_get o "Media Type") _) _).
  assert (textish date_str) as Hd by (by apply py_or_textish).
  assert (textish download_link) as Hl by (by repeat apply py_or_textish).
  assert (∃ s, media_type = JStr s) as [mt Hmt].
  { apply py_or_text_default. by apply py_or_textish. }
  destruct (truthy date_str) eqn:Etd; cbn [negb orb]; [|by eexists].
  destruct (truthy download_link) eqn:Etl; cbn [negb]; [|by eexists].
  destruct (textish_truthy _ Hd Etd) as (s & -> & Hs).
  destruct (textish_truthy _ Hl Etl) as (u & Hu & _).
  destruct (parse_date s) as [dt|].
  - eexists. split; [done|]. intros r [= <-]. split; cbn; eauto.
  - rewrite (clean_printable stdout _ Hs), andb_false_r. by eexists.
Qed.

Lemma load_loop_text items acc :
  Forall (λ it, text_record it.2) items → Forall text_memory acc →
  ∃ ms, load_loop stdout items acc = Ok ms ∧ Forall text_memory ms.
Proof.
  intros Hi. revert acc. induction Hi as [|[idx item] items Hitem _ IH]; intros acc Hacc.
  { by exists acc. }
  cbn [load_loop]. destruct (normalize_item_text idx item Hitem) as (x & -> & Hx).
  destruct x as [r|]; [|by apply IH].
  apply IH. apply Forall_app. split; [done|]. constructor; [by apply Hx|done].
Qed.

Lemma Forall_enumerate_from {A} (P : A → Prop) i (l : list A) :
  Forall P l → Forall (λ it, P it.2) (enumerate_from i l).
Proof. intros H. revert i. induction H; intros i; cbn; constructor; auto. Qed.

Lemma load_memories_text data :
  text_export data → ∃ ms, load_memories stdout data = Ok ms ∧ Forall text_memory ms.
Proof.
  intros (items & Hs & Hi). unfold load_memories. rewrite Hs.
  apply load_loop_text; [|done]. by apply Forall_enumerate_from.
Qed.

Lemma report_quiet n text :
  Utf8.clean (Utf8.codes n text) = true → report stdout n text = Failed.
Proof. intros H. unfold report. by rewrite (clean_printable stdout _ H). Qed.

Lemma download_one_text idx item :
  quiet urlopen → text_memory item →
  (∃ d, (download_one stdout urlopen ZipFile idx item).2 = Saved d ∧ d_item d = item) ∨
  (download_one stdout urlopen ZipFile idx item).2 = Failed.
Proof.
  intros Hq [[mt Hmt] [u Hu]]. unfold download_one. rewrite Hmt, Hu.
  destruct (choose_ext_str (Str.lower mt) u) as [ext ->].
  specialize (Hq idx u).
  destruct (urlopen idx u) as [resp|text| |text]; cbn [snd];
    [|right; by apply report_quiet|by right|right; by apply report_quiet].
  repeat case_match; cbn; eauto.
Qed.

Lemma download_loop_text idx items st :
  quiet urlopen →
  Forall text_memory items →
  Forall (λ d, text_memory (d_item d)) (downloaded st) →
  (download_loop stdout urlopen ZipFile idx items st).2 = None ∧
  Forall (λ d, text_memory (d_item d))
    (downloaded (download_loop stdout urlopen ZipFile idx items st).1).
Proof.
  intros Hq Hi. revert idx st.
  induction Hi as [|item items Hitem _ IH]; intros idx st Hst; [done|].
  cbn [download_loop].
  pose proof (download_one_text idx item Hq Hitem) as Ho.
  destruct (download_one stdout urlopen ZipFile idx item) as [evs o]. cbn [snd] in Ho.
  destruct Ho as [(d & -> & Hd)| ->].
  - apply IH. cbn. apply Forall_app. split; [done|].
    constructor; [by rewrite Hd|done].
  - by apply IH.
Qed.
End RunFacts.

(** ** Rendering never raises on such records *)

Lemma concat_results_ok {A} (f : A → result string) (l : list A) :
  Forall (λ x, ∃ h, f x = Ok h) l → ∃ h, concat_results f l = Ok h.
Proof.
  induction 1 as [|x l [h Hx] _ [h' IH]]; cbn [concat_results]; [by eexists|].
  rewrite Hx, IH. by eexists.
Qed.

Lemma is_video_text d : text_memory (d_item d) → ∃ b, is_video d = Ok b.
Proof. intros [[mt Hmt] _]. unfold is_video. rewrite Hmt. by eexists. Qed.

Lemma count_videos_text items :
  Forall (λ d, text_memory (d_item d)) items → ∃ n, count_videos items = Ok n.
Proof.
  induction 1 as [|d l Hd _ [n IH]]; cbn [count_videos]; [by eexists|].
  destruct (is_video_text d Hd) as [b ->]. rewrite IH. by eexists.
Qed.

Lemma build_card_text d : text_memory (d_item d) → ∃ h, build_card d = Ok h.
Proof.
  intros Hd. unfold build_card. destruct (is_video_text d Hd) as [[] ->]; by eexists.
Qed.

Lemma build_html_text g :
  Forall (λ d, text_memory (d_item d)) (contents (buckets g)) →
  ∃ html, build_html g = Ok html.
Proof.
  intros Hg. unfold build_html.
  destruct (concat_results_ok build_year g) as [h ->]; [|by eexists].
  unfold contents, buckets in Hg. rewrite !Forall_bind in Hg.
  eapply Forall_impl; [exact Hg|]. intros [y months] Hy. cbn in Hy.
  rewrite Forall_fmap in Hy. unfold build_year.
  destruct (concat_results_ok build_month months) as [h ->]; [|by eexists].
  eapply Forall_impl; [exact Hy|]. intros [m items] Hm. cbn in Hm.
  unfold build_month.
  destruct (count_videos_text items Hm) as [n ->].
  destruct (concat_results_ok build_card items) as [h ->]; [|by eexists].
  eapply Forall_impl; [exact Hm|]. intros d. apply build_card_text.
Qed.

Lemma build_html_grouped_text items :
  Forall (λ d, text_memory (d_item d)) items →
  ∃ html, build_html (group_by_year_month items) = Ok html.
Proof.
  intros Hi. apply build_html_text. by rewrite contents_buckets.
Qed.
(** ** Exit status *)

(** C9, as the specification words it, fails.  The first export below
    exists, both of its records are normalized and the first is downloaded
    and written, yet the process ends with status 1: the media type of the
    second record is a number, which has no [lower], and nothing catches the
    exception.  The second export has text fields only; its first record is
    downloaded and written, the request for the second fails with an error
    text that holds a lone surrogate, printing that text raises, and the
    process ends with status 1 as well. *)
Lemma C9_uncaught_counterexample :
  load_memories strict odd_export =
    Ok [mk_memory (mk_datetime 2023 5 1 10 0 0 0) "2023-05-01 10:00:00 UTC"
          (JStr "Image") (JStr "") (JStr "https://h/1");
        mk_memory (mk_datetime 2023 1 15 9 30 0 0) "2023-01-15 09:30:00 UTC"
          (JNum 5) (JStr "") (JStr "https://h/2")] ∧
  written_paths (effects (main strict plain_urlopen no_zip (Document odd_export)))
    = ["media/20230501_100000_0000.jpg"] ∧
  exit_code (main strict plain_urlopen no_zip (Document odd_export)) = 1 ∧
  ¬ exits_as_specified strict plain_urlopen no_zip (Document odd_export) ∧
  load_memories strict surrogate_export =
    Ok [scenario_image "https://h/1"; scenario_video (lone_surrogate +:+ ":x")] ∧
  written_paths (effects (main strict surrogate_urlopen no_zip
                            (Document surrogate_export)))
    = ["media/20230501_100000_0000.jpg"] ∧
  exit_code (main strict surrogate_urlopen no_zip (Document surrogate_export)) = 1 ∧
  ¬ exits_as_specified strict surrogate_urlopen no_zip (Document surrogate_export).
Proof.
  split_and!;
    [vm_compute; reflexivity..| |vm_compute; reflexivity| vm_compute; reflexivity
    |vm_compute; reflexivity|].
  - intros [H _]. destruct H as [H|(data & ms & Hd & Hl & H)].
    + vm_compute. discriminate.
    + discriminate.
    + injection Hd as <-. vm_compute in Hl. injection Hl as <-.
      destruct H as [H|H]; vm_compute in H; discriminate.
  - intros [H _]. destruct H as [H|(data & ms & Hd & Hl & H)].
    + vm_compute. discriminate.
    + discriminate.
    + injection Hd as <-. vm_compute in Hl. injection Hl as <-.
      destruct H as [H|H]; vm_compute in H; discriminate.
Qed.

(** C9 (amended): when the input file is missing, or holds a JSON export
    whose records are objects with text fields that hold no lone surrogate,
    and the network gives no error text with a lone surrogate in the part
    that is printed, the exit status is 0 or 1, and it is non-zero exactly
    when the file is missing, or no record was normalized, or no file was
    downloaded. *)
Theorem C9_exit_status stdout urlopen ZipFile file :
  plain_input file → quiet urlopen →
  exit_code (main stdout urlopen ZipFile file) ≤ 1 ∧
  exits_as_specified stdout urlopen ZipFile file.
Proof.
  unfold exits_as_specified. destruct file as [| |data]; cbn [plain_input]; [|done|].
  { intros _ _. cbn. split; [lia|]. split; [by left|done]. }
  intros Ht Hq. destruct (load_memories_text stdout data Ht) as (ms & Hload & Hms).
  cbn [main]. rewrite Hload.
  destruct ms as [|m ms].
  { cbn. split; [lia|]. split; [|done]. intros _. right. exists data, []. eauto. }
  pose proof (download_loop_text stdout urlopen ZipFile 0 (m :: ms)
                (mk_dl_state [] [] []) Hq Hms (Forall_nil_2 _)) as [Hnone Hdl].
  fold (download_media_files stdout urlopen ZipFile (m :: ms)) in Hnone, Hdl.
  destruct (download_media_files stdout urlopen ZipFile (m :: ms)) as [st e] eqn:Hdm.
  cbn [fst snd] in Hnone, Hdl. subst e.
  destruct (downloaded st) as [|d ds] eqn:Hds.
  { cbn. split; [lia|]. split; [|done]. intros _. right. exists data, (m :: ms).
    rewrite Hdm. cbn. eauto. }
  destruct (build_html_grouped_text (d :: ds) Hdl) as [html ->].
  cbn. split; [lia|]. split; [done|].
  intros [[=]|(data' & ms' & [= <-] & Hl & [->|H])].
  - rewrite Hload in Hl. discriminate.
  - rewrite Hload in Hl. injection Hl as <-. rewrite Hdm in H. cbn in H. congruence.
Qed.

Lemma C9_exit_status_witness :
  exit_code (main strict plain_urlopen no_zip (Document gappy_export)) ≤ 1 ∧
  exits_as_specified strict plain_urlopen no_zip (Document gappy_export).
Proof.
  apply C9_exit_status; [|done]. cbn [plain_input]. eexists. split; [reflexivity|].
  repeat constructor; eexists; (split; [reflexivity|]);
    repeat constructor; eexists; split; reflexivity.
Defined.

(** ** The end-to-end scenario *)

Lemma scenario_load stdout url1 url2 :
  url1 ≠ "" → url2 ≠ "" →
  load_memories stdout (scenario_export url1 url2) =
    Ok [scenario_image url1; scenario_video url2].
Proof.
  destruct url1 as [|a1 s1]; [done|]. destruct url2 as [|a2 s2]; [done|].
  intros _ _. vm_compute. reflexivity.
Qed.

Lemma scenario_download stdout urlopen ZipFile url1 url2 resp1 resp2 :
  urlopen 0 url1 = Got resp1 →
  urlopen 1 url2 = Got resp2 →
  is_zip (Str.lower (default "" (resp_content_type resp1))) (resp_data resp1) = false →
  is_zip (Str.lower (default "" (resp_content_type resp2))) (resp_data resp2) = false →
  download_media_files stdout urlopen ZipFile [scenario_image url1; scenario_video url2] =
    (mk_dl_state [scenario_image_saved url1; scenario_video_saved url2] []
       [EvGet 0 url1; EvWrite "media/20230501_100000_0000.jpg" (resp_data resp1);
        EvGet 1 url2; EvWrite "media/20230115_093000_0001.mp4" (resp_data resp2)],
     None).
Proof.
  intros Ha1 Ha2 Hp1 Hp2. unfold download_media_files. cbn [download_loop].
  rewrite (download_one_plain stdout urlopen ZipFile 0 (scenario_image url1)
             "Image" url1 "jpg" resp1) by done.
  cbn [download_loop].
  rewrite (download_one_plain stdout urlopen ZipFile 1 (scenario_video url2)
             "Video" url2 "mp4" resp2) by done.
  reflexivity.
Qed.

Lemma scenario_group url1 url2 :
  group_by_year_month [scenario_image_saved url1; scenario_video_saved url2] =
    [(2023, [(5, [scenario_image_saved url1]); (1, [scenario_video_saved url2])])].
Proof. vm_compute. reflexivity. Qed.

Lemma scenario_page url1 url2 :
  ∃ html,
    build_html [(2023, [(5, [scenario_image_saved url1]);
                        (1, [scenario_video_saved url2])])] = Ok html ∧
    length (month_blocks html) = 2 ∧
    month_badges html = [["0 videos"; "1 photo"]; ["1 video"; "0 photos"]].
Proof.
  eexists. split; [vm_compute; reflexivity|]. split; vm_compute; reflexivity.
Qed.

(** C1, as the specification words it, fails: the first month block of the
    page is May, which holds the image, so its badges read "0 videos" and
    "1 photo"; the badges "1 video" and "0 photos" are those of the second
    block, January. *)
Lemma C1_badges_counterexample :
  ∃ html,
    gallery (main strict plain_urlopen no_zip
               (Document (scenario_export "https://h/1" "https://h/2"))) = Some html ∧
    month_badges html = [["0 videos"; "1 photo"]; ["1 video"; "0 photos"]] ∧
    ¬ (∃ videos photos rest,
         month_badges html = [videos; photos] :: rest ∧
         Str.startswith videos "1 video" = true ∧
         Str.startswith photos "0 photo" = true).
Proof.
  eexists. split; [vm_compute; reflexivity|].
  split; [vm_compute; reflexivity|].
  intros (videos & photos & rest & H & Hv & _).
  vm_compute in H. injection H as <- _ _. vm_compute in Hv. discriminate.
Qed.

(** C1 (amended): with exactly the two items of the scenario, an image dated
    "2023-05-01 10:00:00 UTC" and a video dated "2023-01-15 09:30:00 UTC",
    whose URLs answer with bytes that are no ZIP, the run ends with status 0,
    the GroupedIndex has the one year 2023 with the months 5 and 1 in that
    order, and the page has exactly two month blocks, whose badges read, in
    document order, "0 videos" and "1 photo" for the first block and
    "1 video" and "0 photos" for the second. *)
Theorem C1_scenario stdout urlopen ZipFile url1 url2 resp1 resp2 :
  url1 ≠ "" → url2 ≠ "" →
  urlopen 0 url1 = Got resp1 →
  urlopen 1 url2 = Got resp2 →
  is_zip (Str.lower (default "" (resp_content_type resp1))) (resp_data resp1) = false →
  is_zip (Str.lower (default "" (resp_content_type resp2))) (resp_data resp2) = false →
  ∃ ms st html,
    load_memories stdout (scenario_export url1 url2) = Ok ms ∧
    download_media_files stdout urlopen ZipFile ms = (st, None) ∧
    index_shape (group_by_year_month (downloaded st)) =
      [(2023, [(5, ["media/20230501_100000_0000.jpg"]);
               (1, ["media/20230115_093000_0001.mp4"])])] ∧
    main stdout urlopen ZipFile (Document (scenario_export url1 url2)) =
      mk_run 0 (trace st) (Some html) ∧
    length (month_blocks html) = 2 ∧
    month_badges html = [["0 videos"; "1 photo"]; ["1 video"; "0 photos"]].
Proof.
  intros H1 H2 Ha1 Ha2 Hp1 Hp2.
  destruct (scenario_page url1 url2) as (html & Hhtml & Hblocks & Hbadges).
  pose proof (scenario_download stdout urlopen ZipFile url1 url2 resp1 resp2
                Ha1 Ha2 Hp1 Hp2) as Hdl.
  pose proof (scenario_group url1 url2) as Hg.
  eexists _, _, html. split_and!.
  - by apply scenario_load.
  - exact Hdl.
  - cbn [downloaded]. rewrite Hg. reflexivity.
  - cbn [main]. rewrite (scenario_load stdout url1 url2 H1 H2), Hdl.
    cbn [downloaded trace]. rewrite Hg, Hhtml. reflexivity.
  - exact Hblocks.
  - exact Hbadges.
Qed.

Lemma C1_scenario_witness :
  ∃ ms st html,
    load_memories strict (scenario_export "https://h/1" "https://h/2") = Ok ms ∧
    download_media_files strict plain_urlopen no_zip ms = (st, None) ∧
    index_shape (group_by_year_month (downloaded st)) =
      [(2023, [(5, ["media/20230501_100000_0000.jpg"]);
               (1, ["media/20230115_093000_0001.mp4"])])] ∧
    main strict plain_urlopen no_zip
      (Document (scenario_export "https://h/1" "https://h/2")) =
      mk_run 0 (trace st) (Some html) ∧
    length (month_blocks html) = 2 ∧
    month_badges html = [["0 videos"; "1 photo"]; ["1 video"; "0 photos"]].
Proof.
  apply (C1_scenario strict plain_urlopen no_zip "https://h/1" "https://h/2"
           (mk_response [x01; x02; x03] (Some "image/png"))
           (mk_response [x01; x02; x03] (Some "image/png")));
    first [discriminate | reflexivity].
Defined.
(** * Further properties of the Loader *)

Lemma strptime_valid data fmt dt :
  strptime data fmt = Some dt → valid_datetime dt = true ∧ microsecond dt = 0.
Proof.
  unfold strptime. destruct (Re.pattern fmt) as [r|]; [|done].
  destruct (Re.rmatch _ _ _ _) as [[[|] caps]|]; [|done..].
  unfold of_groups. cbv zeta.
  match goal with |- (if valid_datetime ?d then _ else _) = _ → _ =>
    destruct (valid_datetime d) eqn:Hv; [|done] end.
  intros [= <-]. by split.
Qed.

Lemma parse_date_valid s dt :
  parse_date s = Some dt → valid_datetime dt = true ∧ microsecond dt = 0.
Proof.
  unfold parse_date. generalize date_formats as fmts. intros fmts.
  induction fmts as [|fmt fmts IH]; [done|]. cbn [try_formats].
  destruct (strptime _ _) as [dt'|] eqn:Hs; [|done].
  intros [= <-]. by eapply strptime_valid.
Qed.

Lemma py_or_l a b : truthy a = true → py_or a b = a.
Proof. unfold py_or. by intros ->. Qed.

Lemma py_or_r a b : truthy a = false → py_or a b = b.
Proof. unfold py_or. by intros ->. Qed.

Ltac py_or_cases :=
  repeat match goal with
  | |- context [py_or ?x ?y] =>
      first [rewrite (py_or_l x y) by done | rewrite (py_or_r x y) by done]
  | H : context [py_or ?x ?y] |- _ =>
      first [rewrite (py_or_l x y) in H by done | rewrite (py_or_r x y) in H by done]
  end.

(** [a or b or c], then [d or e], then the one [or] the other: the first
    value that is true, when there is one. *)
Lemma py_or_chain a b c d e :
  find truthy [a; b; c; d; e]
  = if truthy (py_or (py_or (py_or a b) c) (py_or d e))
    then Some (py_or (py_or (py_or a b) c) (py_or d e)) else None.
Proof.
  cbn [find].
  destruct (truthy a) eqn:Ha, (truthy b) eqn:Hb, (truthy c) eqn:Hc,
    (truthy d) eqn:Hd, (truthy e) eqn:He; py_or_cases;
    rewrite ?Ha, ?Hb, ?Hc, ?Hd, ?He; reflexivity.
Qed.

Lemma py_or_pair a b :
  find truthy [a; b] = if truthy (py_or a b) then Some (py_or a b) else None.
Proof.
  cbn [find].
  destruct (truthy a) eqn:Ha, (truthy b) eqn:Hb; py_or_cases;
    rewrite ?Ha, ?Hb; reflexivity.
Qed.

(** What the loop body read from an item it kept. *)
Lemma normalize_item_kept stdout idx item r :
  normalize_item stdout idx item = Ok (Some r) →
  ∃ o, item = JObj o ∧
    find truthy (dict_get o <$> date_keys) = Some (JStr (r_date_str r)) ∧
    find truthy (dict_get o <$> url_keys) = Some (r_url r) ∧
    r_media_type r = py_or (py_or (dict_get o "Media Type") (dict_get o "media_type")) (JStr "") ∧
    r_location r = py_or (py_or (dict_get o "Location") (dict_get o "location")) (JStr "") ∧
    parse_date (r_date_str r) = Some (r_datetime r).
Proof.
  destruct item as [| | | | |o]; try done. cbn [normalize_item].
  intros H. exists o. split; [done|].
  cbn [fmap list_fmap date_keys url_keys]. rewrite py_or_pair, py_or_chain.
  destruct (truthy (py_or (dict_get o "Date") (dict_get o "date"))) eqn:Hd;
    cbn [negb orb] in H; [|done].
  destruct (truthy (py_or (py_or (py_or _ _) _) (py_or _ _))) eqn:Hl;
    cbn [negb] in H; [|done].
  destruct (py_or (dict_get o "Date") (dict_get o "date")) as [| | |s| |];
    try done.
  destruct (parse_date s) as [dt|] eqn:Hp; [|by destruct (_ && _)].
  injection H as <-. done.
Qed.

Lemma load_memories_kept stdout data ms :
  load_memories stdout data = Ok ms →
  ∃ items, saved_media data = Ok items ∧ ms = omap (kept stdout) (enumerate items).
Proof.
  unfold load_memories. destruct (saved_media data) as [items|] eqn:Hs; [|done].
  intros [-> _]%load_loop_spec. by exists items.
Qed.

(** X1: every record the Loader returns has a URL that is not empty, a date
    text that is not empty and that the date parser turns into the stored
    datetime, a datetime that is a valid calendar date and time with no
    fraction of a second, and a media type and a location that are the empty
    text when the export gave none. *)
Theorem loader_records_complete stdout data ms r :
  load_memories stdout data = Ok ms → r ∈ ms →
  truthy (r_url r) = true ∧
  r_date_str r ≠ "" ∧
  parse_date (r_date_str r) = Some (r_datetime r) ∧
  valid_datetime (r_datetime r) = true ∧
  microsecond (r_datetime r) = 0 ∧
  (r_media_type r = JStr "" ∨ truthy (r_media_type r) = true) ∧
  (r_location r = JStr "" ∨ truthy (r_location r) = true).
Proof.
  intros (items & _ & ->)%load_memories_kept ([idx item] & _ & Hk)%list_elem_of_omap.
  unfold kept in Hk. cbn [fst snd] in Hk.
  destruct (normalize_item stdout idx item) as [[r'|]|] eqn:Hn; try done.
  injection Hk as ->.
  apply normalize_item_kept in Hn as (o & _ & Hd & Hu & Hm & Hl & Hp).
  apply find_some in Hd as [_ Hd]. apply find_some in Hu as [_ Hu].
  destruct (parse_date_valid _ _ Hp) as [Hv Hus].
  split_and!; try done.
  - intros E. rewrite E in Hd. done.
  - rewrite Hm.
    destruct (truthy (py_or (dict_get o "Media Type") (dict_get o "media_type"))) eqn:E.
    + right. by rewrite py_or_l.
    + left. by rewrite py_or_r.
  - rewrite Hl.
    destruct (truthy (py_or (dict_get o "Location") (dict_get o "location"))) eqn:E.
    + right. by rewrite py_or_l.
    + left. by rewrite py_or_r.
Qed.

Lemma loader_records_complete_witness :
  truthy (r_url (scenario_image "https://h/1")) = true ∧
  r_date_str (scenario_image "https://h/1") ≠ "" ∧
  parse_date (r_date_str (scenario_image "https://h/1"))
    = Some (r_datetime (scenario_image "https://h/1")) ∧
  valid_datetime (r_datetime (scenario_image "https://h/1")) = true ∧
  microsecond (r_datetime (scenario_image "https://h/1")) = 0 ∧
  (r_media_type (scenario_image "https://h/1") = JStr "" ∨
   truthy (r_media_type (scenario_image "https://h/1")) = true) ∧
  (r_location (scenario_image "https://h/1") = JStr "" ∨
   truthy (r_location (scenario_image "https://h/1")) = true).
Proof.
  apply (loader_records_complete strict (scenario_export "https://h/1" "https://h/2")
           [scenario_image "https://h/1"; scenario_video "https://h/2"]).
  - reflexivity.
  - left.
Defined.

(** X2: the date of a kept record is the first non-empty value among the
    keys "Date", "date", and its URL the first non-empty value among
    "Media Download Url", "Media Download URL", "media_download_url",
    "Download Link", "download_link": an earlier key wins, and a key with an
    empty value gives way to the next. *)
Theorem loader_key_priority stdout idx o r :
  normalize_item stdout idx (JObj o) = Ok (Some r) →
  find truthy (dict_get o <$> date_keys) = Some (JStr (r_date_str r)) ∧
  find truthy (dict_get o <$> url_keys) = Some (r_url r).
Proof.
  intros (o' & [= <-] & Hd & Hu & _)%normalize_item_kept. by split.
Qed.

Lemma loader_key_priority_witness :
  find truthy (dict_get two_spellings <$> date_keys) = Some (JStr "2023-01-15 09:30:00") ∧
  find truthy (dict_get two_spellings <$> url_keys) = Some (JStr "https://h/media").
Proof.
  exact (loader_key_priority strict 0 two_spellings
           (mk_memory (mk_datetime 2023 1 15 9 30 0 0) "2023-01-15 09:30:00"
              (JStr "") (JStr "") (JStr "https://h/media")) eq_refl).
Defined.

Section LoaderMore.
Variable stdout : N → bool.

(** The position of an item decides nothing but whether an unreadable date
    is printed. *)
Lemma normalize_item_not_object idx item :
  (∀ o, item ≠ JObj o) → normalize_item stdout idx item = Raise AttributeError.
Proof. destruct item as [| | | | |o]; try done. intros H. by destruct (H o). Qed.

Lemma normalize_item_odd_date idx o v :
  find truthy (dict_get o <$> date_keys) = Some v → (∀ s, v ≠ JStr s) →
  find truthy (dict_get o <$> url_keys) ≠ None →
  normalize_item stdout idx (JObj o) = Raise AttributeError.
Proof.
  intros Hv Hns Hu. cbn [normalize_item].
  cbn [fmap list_fmap date_keys url_keys] in Hv, Hu.
  rewrite py_or_pair in Hv. rewrite py_or_chain in Hu.
  destruct (truthy (py_or (dict_get o "Date") (dict_get o "date"))) eqn:Hd;
    [|done].
  destruct (truthy (py_or (py_or (py_or _ _) _) (py_or _ _))) eqn:Hl; [|done].
  injection Hv as Hv. rewrite Hv. cbn [negb orb].
  destruct v; try done. by destruct (Hns s).
Qed.

Lemma normalize_item_unprintable idx o s :
  idx < 5 →
  find truthy (dict_get o <$> date_keys) = Some (JStr s) →
  find truthy (dict_get o <$> url_keys) ≠ None →
  parse_date s = None →
  Utf8.printable stdout (Utf8.decode s) = false →
  normalize_item stdout idx (JObj o) = Raise UnicodeEncodeError.
Proof.
  intros Hi Hv Hu Hp Hpr. cbn [normalize_item].
  cbn [fmap list_fmap date_keys url_keys] in Hv, Hu.
  rewrite py_or_pair in Hv. rewrite py_or_chain in Hu.
  destruct (truthy (py_or (dict_get o "Date") (dict_get o "date"))) eqn:Hd;
    [|done].
  destruct (truthy (py_or (py_or (py_or _ _) _) (py_or _ _))) eqn:Hl; [|done].
  injection Hv as Hv. rewrite Hv. cbn [negb orb]. rewrite Hp, Hpr.
  apply Nat.ltb_lt in Hi. by rewrite Hi.
Qed.

Lemma load_loop_first_raise l1 idx item l2 e acc :
  Forall (λ it, ∃ x, normalize_item stdout it.1 it.2 = Ok x) l1 →
  normalize_item stdout idx item = Raise e →
  load_loop stdout (l1 ++ (idx, item) :: l2) acc = Raise e.
Proof.
  intros Hl He. revert acc. induction Hl as [|[i it] l1 [x Hx] _ IH]; intros acc.
  { cbn [app load_loop]. by rewrite He. }
  cbn [app load_loop]. cbn [fst snd] in Hx. rewrite Hx. by destruct x.
Qed.

Lemma load_loop_raise items acc :
  Exists (λ it, ∀ x, normalize_item stdout it.1 it.2 ≠ Ok x) items →
  ∃ e, load_loop stdout items acc = Raise e.
Proof.
  intros H. revert acc.
  induction H as [[idx item] items Hi|[idx item] items _ IH]; intros acc;
    cbn [load_loop]; cbn [fst snd] in *.
  - destruct (normalize_item stdout idx item) as [x|e] eqn:Hn.
    + by destruct (Hi x).
    + by exists e.
  - destruct (normalize_item stdout idx item) as [[r|]|e] eqn:Hn; [apply IH..|].
    by exists e.
Qed.

Lemma load_loop_ok items acc :
  Forall (λ it, ∃ x, normalize_item stdout it.1 it.2 = Ok x) items →
  load_loop stdout items acc = Ok (acc ++ omap (kept stdout) items).
Proof.
  intros H. revert acc. induction H as [|[idx item] items [x Hx] _ IH]; intros acc.
  { cbn. by rewrite app_nil_r. }
  cbn [load_loop omap list_omap]. unfold kept at 1. cbn [fst snd] in *. rewrite Hx.
  destruct x as [r|]; rewrite IH; [|done]. by rewrite <-app_assoc.
Qed.
End LoaderMore.

(** X3: the Loader returns all or nothing.  It returns the records kept, in
    the order of the export, when no item raises; when some item raises, the
    whole load ends in the exception of the first such item and no record is
    returned.  An item raises AttributeError when it is no object, or
    carries, with a URL, a date that is not empty and no text; it raises
    UnicodeEncodeError when it is one of the first five and carries, with a
    URL, a date text that does not parse and that standard output cannot
    encode. *)
Theorem loader_all_or_nothing stdout data items :
  saved_media data = Ok items →
  (Forall (λ it, ∃ x, normalize_item stdout it.1 it.2 = Ok x) (enumerate items) →
     load_memories stdout data = Ok (omap (kept stdout) (enumerate items))) ∧
  (Exists (λ it, ∀ x, normalize_item stdout it.1 it.2 ≠ Ok x) (enumerate items) →
     ∃ e, load_memories stdout data = Raise e) ∧
  (∀ l1 idx item l2 e,
     enumerate items = l1 ++ (idx, item) :: l2 →
     Forall (λ it, ∃ x, normalize_item stdout it.1 it.2 = Ok x) l1 →
     normalize_item stdout idx item = Raise e →
     load_memories stdout data = Raise e) ∧
  (∀ idx item, (∀ o, item ≠ JObj o) →
     normalize_item stdout idx item = Raise AttributeError) ∧
  (∀ idx o v,
     find truthy (dict_get o <$> date_keys) = Some v → (∀ s, v ≠ JStr s) →
     find truthy (dict_get o <$> url_keys) ≠ None →
     normalize_item stdout idx (JObj o) = Raise AttributeError) ∧
  (∀ idx o s,
     idx < 5 →
     find truthy (dict_get o <$> date_keys) = Some (JStr s) →
     find truthy (dict_get o <$> url_keys) ≠ None →
     parse_date s = None →
     Utf8.printable stdout (Utf8.decode s) = false →
     normalize_item stdout idx (JObj o) = Raise UnicodeEncodeError).
Proof.
  intros Hs. unfold load_memories. rewrite Hs. split_and!.
  - intros H. by rewrite load_loop_ok.
  - apply load_loop_raise.
  - intros l1 idx item l2 e -> Hl He. by apply load_loop_first_raise.
  - apply normalize_item_not_object.
  - apply normalize_item_odd_date.
  - apply normalize_item_unprintable.
Qed.

Lemma loader_all_or_nothing_witness :
  load_memories strict (export_of [JObj two_spellings; JObj []]) =
    Ok (omap (kept strict) (enumerate [JObj two_spellings; JObj []])) ∧
  load_memories strict (export_of [JObj two_spellings; JNum 7]) = Raise AttributeError ∧
  load_memories strict
    (export_of [JObj two_spellings; record_of lone_surrogate (JStr "Image") "https://h/1"])
    = Raise UnicodeEncodeError.
Proof.
  split_and!.
  - apply (proj1 (loader_all_or_nothing strict
                    (export_of [JObj two_spellings; JObj []])
                    [JObj two_spellings; JObj []] eq_refl)).
    repeat constructor; eexists; reflexivity.
  - apply (proj1 (proj2 (proj2 (loader_all_or_nothing strict
                    (export_of [JObj two_spellings; JNum 7])
                    [JObj two_spellings; JNum 7] eq_refl)))
             [(0, JObj two_spellings)] 1 (JNum 7) []); [reflexivity| |reflexivity].
    repeat constructor; eexists; reflexivity.
  - apply (proj1 (proj2 (proj2 (loader_all_or_nothing strict
                    (export_of [JObj two_spellings;
                                record_of lone_surrogate (JStr "Image") "https://h/1"])
                    [JObj two_spellings;
                     record_of lone_surrogate (JStr "Image") "https://h/1"] eq_refl)))
             [(0, JObj two_spellings)] 1
             (record_of lone_surrogate (JStr "Image") "https://h/1") []);
      [reflexivity| |reflexivity].
    repeat constructor; eexists; reflexivity.
Defined.


(** * Further properties of the Fetcher *)

Section FetcherMore.
Variable stdout : N → bool.
Variable urlopen : nat → string → reply.
Variable ZipFile : list byte → option zipfile.

Local Abbreviation download_one := (download_one stdout urlopen ZipFile).
Local Abbreviation download_loop := (download_loop stdout urlopen ZipFile).
Local Abbreviation download_media_files :=
  (download_media_files stdout urlopen ZipFile).

Lemma download_one_writes idx item :
  written_paths (download_one idx item).1 =
  match (download_one idx item).2 with
  | Saved d => [local_path d]
  | _ => []
  end.
Proof.
  unfold download_one, report. repeat case_match; simplify_eq/=; done.
Qed.

Lemma download_one_saved_item idx item d :
  (download_one idx item).2 = Saved d →
  d_item d = item ∧ path_index (local_path d) = idx ∧ text_memory item.
Proof.
  destruct (download_one idx item) as [evs o] eqn:H. cbn. intros ->.
  pose proof H as (mt & ext & Hmt & Hext & -> & _)%download_one_saved.
  cbn [d_item local_path]. split_and!; [done| |].
  - apply path_index_make_filename. by eapply choose_ext_values.
  - split; [by eexists|]. unfold download_one, report in H. rewrite Hmt, Hext in H.
    destruct (r_url item); try done. by eexists.
Qed.

Lemma download_one_requests idx item e :
  e ∈ (download_one idx item).1 →
  match e with
  | EvGet i u => i = idx ∧ r_url item = JStr u
  | _ => True
  end.
Proof.
  unfold download_one, report. destruct e; try done.
  repeat case_match; simplify_eq/=; set_unfold; naive_solver.
Qed.

Lemma download_one_requests_list idx item :
  requests (download_one idx item).1 = [] ∨ requests (download_one idx item).1 = [idx].
Proof.
  unfold download_one, report. repeat case_match; simplify_eq/=; auto.
Qed.

(** What a run of the loop adds to its state. *)
Lemma download_loop_adds idx items st :
  ∃ D F,
    downloaded (download_loop idx items st).1 = downloaded st ++ D ∧
    failed (download_loop idx items st).1 = failed st ++ F ∧
    written_paths (trace (download_loop idx items st).1)
      = written_paths (trace st) ++ (local_path <$> D) ∧
    sublist (d_item <$> D) items ∧
    sublist F items ∧
    ((download_loop idx items st).2 = None →
       (d_item <$> D) ++ F ≡ₚ items ∧ length D + length F = length items) ∧
    Forall (λ d, idx ≤ path_index (local_path d) ∧
                 items !! (path_index (local_path d) - idx) = Some (d_item d)) D.
Proof.
  revert idx st. induction items as [|item items IH]; intros idx st.
  { exists [], []. cbn. rewrite !app_nil_r. split_and!; try done. }
  cbn [download_loop].
  pose proof (download_one_writes idx item) as Hw.
  pose proof (download_one_saved_item idx item) as Hs.
  destruct (download_one idx item) as [evs o]. cbn [fst snd] in Hw, Hs.
  destruct o as [d| |e].
  - destruct (Hs d eq_refl) as (Hd & Hi & _).
    destruct (IH (S idx) (mk_dl_state (downloaded st ++ [d]) (failed st)
                            (trace st ++ evs)))
      as (D & F & HD & HF & HW & HsD & HsF & Hok & Hidx).
    exists (d :: D), F. rewrite HD, HF, HW. cbn [downloaded failed trace].
    rewrite written_paths_app, Hw, <-!app_assoc. cbn [fmap list_fmap app].
    split_and!; try done.
    + rewrite Hd. by apply sublist_skip.
    + by apply sublist_cons.
    + intros [Hp Hl]%Hok. rewrite Hd. split; [by constructor|]. cbn. lia.
    + constructor.
      * rewrite Hi, Nat.sub_diag, Hd. split; [lia|done].
      * eapply Forall_impl; [exact Hidx|]. intros d' [Hle Hlook]. split; [lia|].
        replace (path_index (local_path d') - idx)
          with (S (path_index (local_path d') - S idx)) by lia. done.
  - destruct (IH (S idx) (mk_dl_state (downloaded st) (failed st ++ [item])
                            (trace st ++ evs)))
      as (D & F & HD & HF & HW & HsD & HsF & Hok & Hidx).
    exists D, (item :: F). rewrite HD, HF, HW. cbn [downloaded failed trace].
    rewrite written_paths_app, Hw, app_nil_r, <-!app_assoc. cbn [app].
    split_and!; try done.
    + by apply sublist_cons.
    + by apply sublist_skip.
    + intros [Hp Hl]%Hok. split.
      * rewrite <-Permutation_middle. by constructor.
      * cbn. lia.
    + eapply Forall_impl; [exact Hidx|]. intros d' [Hle Hlook]. split; [lia|].
      replace (path_index (local_path d') - idx)
        with (S (path_index (local_path d') - S idx)) by lia. done.
  - exists [], []. cbn. rewrite written_paths_app, Hw, !app_nil_r.
    split_and!; try done; apply sublist_nil_l.
Qed.

Lemma download_loop_requests idx items st :
  StronglySorted lt (requests (trace st)) →
  Forall (λ i, i < idx) (requests (trace st)) →
  StronglySorted lt (requests (trace (download_loop idx items st).1)) ∧
  Forall (λ i, i < idx + length items) (requests (trace (download_loop idx items st).1)).
Proof.
  revert idx st. induction items as [|item items IH]; intros idx st Hs Hlt.
  { cbn. split; [done|]. eapply Forall_impl; [exact Hlt|]. cbn. lia. }
  cbn [download_loop].
  pose proof (download_one_requests_list idx item) as Hr.
  destruct (download_one idx item) as [evs o]. cbn [fst] in Hr.
  assert (StronglySorted lt (requests (trace st ++ evs)) ∧
          Forall (λ i, i < S idx) (requests (trace st ++ evs))) as [Hs' Hlt'].
  { unfold requests in *. rewrite omap_app. destruct Hr as [->| ->].
    - rewrite app_nil_r. split; [done|]. eapply Forall_impl; [exact Hlt|]. cbn. lia.
    - split.
      + apply StronglySorted_app_2; [|done|repeat constructor].
        intros i j Hi ->%list_elem_of_singleton.
        rewrite Forall_forall in Hlt. by apply Hlt.
      + apply Forall_app. split; [|repeat constructor].
        eapply Forall_impl; [exact Hlt|]. cbn. lia. }
  destruct o as [d| |e].
  - destruct (IH (S idx) (mk_dl_state (downloaded st ++ [d]) (failed st)
                            (trace st ++ evs)) Hs' Hlt') as [H1 H2].
    split; [done|]. eapply Forall_impl; [exact H2|]. cbn. lia.
  - destruct (IH (S idx) (mk_dl_state (downloaded st) (failed st ++ [item])
                            (trace st ++ evs)) Hs' Hlt') as [H1 H2].
    split; [done|]. eapply Forall_impl; [exact H2|]. cbn. lia.
  - cbn. split; [done|]. eapply Forall_impl; [exact Hlt'|]. cbn. lia.
Qed.

Lemma download_loop_request_urls idx items st i u :
  EvGet i u ∈ trace (download_loop idx items st).1 →
  EvGet i u ∈ trace st ∨
  (idx ≤ i ∧ ∃ r, items !! (i - idx) = Some r ∧ r_url r = JStr u).
Proof.
  revert idx st. induction items as [|item items IH]; intros idx st; [by left|].
  cbn [download_loop].
  pose proof (download_one_requests idx item (EvGet i u)) as Hr.
  destruct (download_one idx item) as [evs o]. cbn [fst] in Hr.
  assert (EvGet i u ∈ trace st ++ evs →
          EvGet i u ∈ trace st ∨
          (idx ≤ i ∧ ∃ r, (item :: items) !! (i - idx) = Some r ∧ r_url r = JStr u))
    as Hhere.
  { intros [?|[-> Hu]%Hr]%elem_of_app; [by left|]. right. split; [lia|].
    rewrite Nat.sub_diag. by exists item. }
  assert (∀ st',
    trace st' = trace st ++ evs →
    EvGet i u ∈ trace (download_loop (S idx) items st').1 →
    EvGet i u ∈ trace st ∨
    (idx ≤ i ∧ ∃ r, (item :: items) !! (i - idx) = Some r ∧ r_url r = JStr u))
    as Hnext.
  { intros st' Hst' [H|(Hle & r & Hl & Hu)]%IH.
    - rewrite Hst' in H. by apply Hhere.
    - right. split; [lia|]. exists r. split; [|done].
      replace (i - idx) with (S (i - S idx)) by lia. done. }
  destruct o; [by apply Hnext..|by apply Hhere].
Qed.
End FetcherMore.



(** X6: the files written during a run are exactly the local paths of the
    downloaded records, in the same order, also when the loop is left by an
    exception: a failed item leaves no file, and no record points to a file
    that was not written. *)
Theorem fetcher_files_are_recorded stdout urlopen ZipFile items :
  written_paths (trace (download_media_files stdout urlopen ZipFile items).1)
  = local_path <$> downloaded (download_media_files stdout urlopen ZipFile items).1.
Proof.
  unfold download_media_files.
  destruct (download_loop_adds stdout urlopen ZipFile 0 items (mk_dl_state [] [] []))
    as (D & F & -> & _ & -> & _). done.
Qed.

(** X7: the number printed in the file name of a downloaded record is the
    position of that record in the input: the record can be found again from
    the name of its file. *)
Theorem fetcher_path_names_record stdout urlopen ZipFile items d :
  d ∈ downloaded (download_media_files stdout urlopen ZipFile items).1 →
  items !! path_index (local_path d) = Some (d_item d).
Proof.
  unfold download_media_files.
  destruct (download_loop_adds stdout urlopen ZipFile 0 items (mk_dl_state [] [] []))
    as (D & F & -> & _ & _ & _ & _ & _ & Hidx).
  cbn [downloaded app]. intros Hd. rewrite Forall_forall in Hidx.
  destruct (Hidx d Hd) as [_ H]. by rewrite Nat.sub_0_r in H.
Qed.

Lemma fetcher_path_names_record_witness :
  [scenario_image "https://h/1"; scenario_video "https://h/2"]
    !! path_index (local_path (scenario_video_saved "https://h/2"))
  = Some (d_item (scenario_video_saved "https://h/2")).
Proof.
  apply (fetcher_path_names_record strict plain_urlopen no_zip
           [scenario_image "https://h/1"; scenario_video "https://h/2"]).
  right. left.
Defined.

(** X8: the Fetcher asks for each item at most once and in the order of the
    input: the positions of its requests are strictly increasing and below
    the length of the input, and the request for a position goes to the URL
    of the record at that position. *)
Theorem fetcher_requests_once stdout urlopen ZipFile items :
  let evs := trace (download_media_files stdout urlopen ZipFile items).1 in
  StronglySorted lt (requests evs) ∧
  Forall (λ i, i < length items) (requests evs) ∧
  (∀ i u, EvGet i u ∈ evs → ∃ r, items !! i = Some r ∧ r_url r = JStr u).
Proof.
  cbv zeta. unfold download_media_files.
  destruct (download_loop_requests stdout urlopen ZipFile 0 items (mk_dl_state [] [] []))
    as [Hs Hlt]; [constructor..|].
  split_and!; [done|done|].
  intros i u [H|(_ & r & Hr & Hu)]%download_loop_request_urls.
  - by apply elem_of_nil in H.
  - exists r. by rewrite Nat.sub_0_r in Hr.
Qed.

Lemma fetcher_requests_once_witness :
  ∃ r, [scenario_image "https://h/1"; scenario_video "https://h/2"] !! 1 = Some r ∧
       r_url r = JStr "https://h/2".
Proof.
  apply (proj2 (proj2 (fetcher_requests_once strict plain_urlopen no_zip
           [scenario_image "https://h/1"; scenario_video "https://h/2"]))).
  vm_compute. right. right. left.
Defined.

Lemma download_loop_app stdout urlopen ZipFile idx l1 l2 st :
  download_loop stdout urlopen ZipFile idx (l1 ++ l2) st =
  match download_loop stdout urlopen ZipFile idx l1 st with
  | (st', None) => download_loop stdout urlopen ZipFile (idx + length l1) l2 st'
  | (st', Some e) => (st', Some e)
  end.
Proof.
  revert idx st. induction l1 as [|item l1 IH]; intros idx st.
  { cbn. by rewrite Nat.add_0_r. }
  cbn [app download_loop length].
  destruct (download_one stdout urlopen ZipFile idx item) as [evs o].
  replace (idx + S (length l1)) with (S idx + length l1) by lia.
  destruct o; [apply IH..|done].
Qed.

(** X9: a record whose media type is no text stops the Fetcher: the records
    before it are handled as if the input ended there, the exception
    AttributeError leaves the loop, and neither that record nor any record
    after it is requested, written or counted as failed. *)
Theorem fetcher_stops_at_odd_media_type stdout urlopen ZipFile before odd after :
  (download_media_files stdout urlopen ZipFile before).2 = None →
  (∀ s, r_media_type odd ≠ JStr s) →
  download_media_files stdout urlopen ZipFile (before ++ odd :: after) =
    ((download_media_files stdout urlopen ZipFile before).1, Some AttributeError).
Proof.
  unfold download_media_files. intros Hnone Hodd. rewrite download_loop_app.
  destruct (download_loop stdout urlopen ZipFile 0 before _) as [st e].
  cbn [snd] in Hnone. subst e. cbn [download_loop fst].
  unfold download_one. destruct (r_media_type odd) as [| | |s| |] eqn:Hm;
    try (by destruct st; cbn; rewrite app_nil_r).
  by destruct (Hodd s).
Qed.

Lemma fetcher_stops_at_odd_media_type_witness :
  download_media_files strict plain_urlopen no_zip
    ([scenario_image "https://h/1"]
       ++ mk_memory (mk_datetime 2023 1 15 9 30 0 0) "2023-01-15 09:30:00 UTC"
            (JNum 5) (JStr "") (JStr "https://h/2")
       :: [scenario_video "https://h/3"]) =
    ((download_media_files strict plain_urlopen no_zip [scenario_image "https://h/1"]).1,
     Some AttributeError).
Proof.
  apply fetcher_stops_at_odd_media_type; [reflexivity|discriminate].
Defined.

(** X20: a request that fails with an error text standard output cannot
    encode stops the Fetcher: printing the text raises UnicodeEncodeError in
    the handler, the records before are handled as if the input ended there,
    the record itself is requested but counted neither as downloaded nor as
    failed, and no later record is touched. *)
Theorem fetcher_stops_at_unprintable_error stdout urlopen ZipFile before item after
    mt u text :
  (download_media_files stdout urlopen ZipFile before).2 = None →
  r_media_type item = JStr mt → r_url item = JStr u →
  urlopen (length before) u = URLError text →
  Utf8.printable stdout (Utf8.codes 40 text) = false →
  download_media_files stdout urlopen ZipFile (before ++ item :: after) =
    (let st := (download_media_files stdout urlopen ZipFile before).1 in
     mk_dl_state (downloaded st) (failed st) (trace st ++ [EvGet (length before) u]),
     Some UnicodeEncodeError).
Proof.
  unfold download_media_files. intros Hnone Hmt Hu Hopen Hpr.
  rewrite download_loop_app.
  destruct (download_loop stdout urlopen ZipFile 0 before _) as [st e].
  cbn [snd] in Hnone. subst e. cbn [download_loop fst Nat.add].
  destruct (choose_ext_str (Str.lower mt) u) as [ext Hext].
  unfold download_one, report. by rewrite Hmt, Hu, Hext, Hopen, Hpr.
Qed.

Lemma fetcher_stops_at_unprintable_error_witness :
  download_media_files strict surrogate_urlopen no_zip
    ([scenario_image "https://h/1"]
       ++ scenario_video (lone_surrogate +:+ ":x") :: [scenario_image "https://h/3"]) =
    (mk_dl_state [scenario_image_saved "https://h/1"] []
       [EvGet 0 "https://h/1"; EvWrite "media/20230501_100000_0000.jpg" [x01; x02; x03];
        EvGet 1 (lone_surrogate +:+ ":x")],
     Some UnicodeEncodeError).
Proof.
  apply (fetcher_stops_at_unprintable_error strict surrogate_urlopen no_zip
           [scenario_image "https://h/1"] (scenario_video (lone_surrogate +:+ ":x"))
           [scenario_image "https://h/3"] "Video" (lone_surrogate +:+ ":x")
           ("<urlopen error unknown url type: " +:+ lone_surrogate +:+ ">"));
    reflexivity.
Defined.

(** X10: the entry the Fetcher reads from an archive is always one of its
    entries, and never an overlay unless its name holds "-main.": the name
    either contains "-main.", or contains "overlay" in no case of letters and
    ends in one of the media suffixes. *)
Theorem fetcher_never_reads_overlay names n :
  find_main_file names = Some n →
  n ∈ names ∧
  (Str.contains "-main." n = true ∨
   (Str.contains "overlay" (Str.lower n) = false ∧
    Exists (λ e, Str.endswith (Str.lower n) e = true) media_suffixes)).
Proof.
  intros H. pose proof (find_main_file_chosen names) as Hc. rewrite H in Hc.
  destruct Hc as [(l1 & l2 & -> & Hn & _)|[_ (l1 & l2 & -> & Hn & _)]].
  - split; [set_solver|]. by left.
  - split; [set_solver|]. right. unfold plain_media in Hn.
    apply andb_true_iff in Hn as [Ho He]. split.
    + by apply negb_true_iff.
    + apply existsb_exists in He as (e & He1 & He2).
      apply Exists_exists. exists e. split; [by apply list_elem_of_In|done].
Qed.

Lemma fetcher_never_reads_overlay_witness :
  "b.mp4" ∈ ["a-overlay.jpg"; "B-OVERLAY.PNG"; "b.mp4"] ∧
  (Str.contains "-main." "b.mp4" = true ∨
   (Str.contains "overlay" (Str.lower "b.mp4") = false ∧
    Exists (λ e, Str.endswith (Str.lower "b.mp4") e = true) media_suffixes)).
Proof.
  exact (fetcher_never_reads_overlay ["a-overlay.jpg"; "B-OVERLAY.PNG"; "b.mp4"]
           "b.mp4" eq_refl).
Defined.

Lemma endswith_app s e : Str.endswith (s +:+ e) e = true.
Proof.
  induction s as [|c s IH]; rewrite StrFacts.endswith_unfold.
  - change ("" +:+ e) with e. by rewrite String.eqb_refl.
  - rewrite StrFacts.app_String, IH. by rewrite orb_true_r.
Qed.

(** X11: a downloaded record that the page shows as a video (its media type
    contains "video") has a file name ending in ".mp4"; one shown as a photo
    whose media type contains "image" or "photo" has a file name ending in
    ".jpg". *)
Theorem fetcher_video_is_mp4 stdout urlopen ZipFile idx item evs d :
  download_one stdout urlopen ZipFile idx item = (evs, Saved d) →
  (is_video d = Ok true → Str.endswith (local_path d) ".mp4" = true) ∧
  (∀ mt, r_media_type item = JStr mt →
     is_video d = Ok false →
     Str.contains "image" (Str.lower mt) || Str.contains "photo" (Str.lower mt) = true →
     Str.endswith (local_path d) ".jpg" = true).
Proof.
  intros (mt & ext & Hmt & Hext & -> & _)%download_one_saved.
  unfold is_video. cbn [d_item local_path]. rewrite Hmt.
  unfold make_filename. unfold choose_ext in Hext. split.
  - intros [= Hv]. rewrite Hv in Hext. injection Hext as <-.
    change ("." +:+ "mp4") with ".mp4". rewrite <-!StrFacts.app_assoc.
    apply endswith_app.
  - intros mt' [= <-] [= Hv] Hi. rewrite Hv, Hi in Hext. injection Hext as <-.
    change ("." +:+ "jpg") with ".jpg". rewrite <-!StrFacts.app_assoc.
    apply endswith_app.
Qed.

Lemma fetcher_video_is_mp4_witness :
  Str.endswith (local_path (scenario_video_saved "https://h/2")) ".mp4" = true.
Proof.
  apply (proj1 (fetcher_video_is_mp4 strict plain_urlopen no_zip 1
                  (scenario_video "https://h/2")
                  [EvGet 1 "https://h/2";
                   EvWrite "media/20230115_093000_0001.mp4" [x01; x02; x03]]
                  (scenario_video_saved "https://h/2") eq_refl)).
  reflexivity.
Defined.

(** * Further properties of the Grouper *)

Section StableSort.
Context {A K : Type} `{EqDecision K} (key : A → K) (leb : K → K → bool).
Hypothesis leb_refl : ∀ k, leb k k = true.

Lemma filter_insert_desc t x l :
  filter (λ a, key a = t) (insert_desc key leb x l) = filter (λ a, key a = t) (x :: l).
Proof.
  induction l as [|y l IH]; [done|]. cbn [insert_desc].
  destruct (leb (key y) (key x)) eqn:E; [done|].
  rewrite (filter_cons _ y), IH, !(filter_cons _ x), (filter_cons _ y).
  destruct (decide (key y = t)) as [Hy|Hy], (decide (key x = t)) as [Hx|Hx];
    try done.
  rewrite Hy, Hx, leb_refl in E. done.
Qed.

(** The stable sort keeps the items of one key in their order. *)
Lemma filter_sorted_reverse t l :
  filter (λ a, key a = t) (sorted_reverse key leb l) = filter (λ a, key a = t) l.
Proof.
  induction l as [|x l IH]; [done|].
  cbn [sorted_reverse foldr]. rewrite filter_insert_desc.
  change (foldr (insert_desc key leb) [] l) with (sorted_reverse key leb l).
  by rewrite !(filter_cons _ x), IH.
Qed.
End StableSort.

Lemma lex_leb_refl a : lex_leb a a = true.
Proof.
  induction a as [|x a IH]; [done|]. cbn [lex_leb].
  by rewrite Nat.eqb_refl, IH, orb_true_r.
Qed.

Lemma bucket_of_shape items y m l :
  ((y, m), l) ∈ buckets (group_by_year_month items) →
  l = sorted_reverse d_datetime dt_leb (filter (in_bucket y m) items) ∧
  y ∈ years_of items ∧ m ∈ months_of items y.
Proof.
  rewrite buckets_shape.
  intros (y' & (m' & [= -> -> ->] & Hm)%list_elem_of_fmap & Hy)%list_elem_of_bind.
  done.
Qed.

(** X12: items of one month that carry the same timestamp keep the order
    they had in the input: in the bucket of a timestamp, the records with
    that timestamp are those of the input, in the order of the input. *)
Theorem grouper_keeps_order_of_ties items t l :
  ((year t, month t), l) ∈ buckets (group_by_year_month items) →
  filter (λ d, d_datetime d = t) l = filter (λ d, d_datetime d = t) items.
Proof.
  intros [-> _]%bucket_of_shape.
  rewrite (filter_sorted_reverse d_datetime dt_leb (λ k, lex_leb_refl _)).
  induction items as [|d items IH]; [done|].
  rewrite (filter_cons (in_bucket _ _)), (filter_cons _ d).
  destruct (decide (d_datetime d = t)) as [Hd|Hd].
  - rewrite decide_True by (by rewrite <-Hd).
    rewrite filter_cons, decide_True by done. by rewrite IH.
  - destruct (decide (in_bucket (year t) (month t) d)); [|done].
    by rewrite filter_cons, decide_False.
Qed.

Lemma grouper_keeps_order_of_ties_witness :
  filter (λ d, d_datetime d = mk_datetime 2023 5 1 10 0 0 0)
    [mk_downloaded (sample_memory "Video" "https://h/v") "media/b.mp4";
     mk_downloaded (sample_memory "Image" "https://h/i") "media/a.jpg"]
  = filter (λ d, d_datetime d = mk_datetime 2023 5 1 10 0 0 0)
      [mk_downloaded (sample_memory "Video" "https://h/v") "media/b.mp4";
       mk_downloaded (sample_memory "Image" "https://h/i") "media/a.jpg"].
Proof.
  apply (grouper_keeps_order_of_ties
           [mk_downloaded (sample_memory "Video" "https://h/v") "media/b.mp4";
            mk_downloaded (sample_memory "Image" "https://h/i") "media/a.jpg"]
           (mk_datetime 2023 5 1 10 0 0 0)).
  vm_compute. left.
Defined.

Lemma years_of_nil_iff items : years_of items = [] ↔ items = [].
Proof.
  split.
  - destruct items as [|d items]; [done|]. intros H.
    assert (year (d_datetime d) ∈ years_of (d :: items)) as Hin.
    { apply elem_of_years_of. exists d. split; [left|done]. }
    rewrite H in Hin. by apply elem_of_nil in Hin.
  - intros ->. destruct (years_of []) as [|y ys] eqn:E; [done|].
    assert (y ∈ years_of []) as Hin by (rewrite E; left).
    apply elem_of_years_of in Hin as (d & Hd & _). by apply elem_of_nil in Hd.
Qed.

(** X13: a GroupedIndex has no empty part: it is empty exactly when the
    input is, every year it lists has at least one month, and every month at
    least one record. *)
Theorem grouper_no_empty_part items :
  (group_by_year_month items = [] ↔ items = []) ∧
  Forall (λ ye, ye.2 ≠ [] ∧ Forall (λ me, me.2 ≠ []) ye.2)
    (group_by_year_month items).
Proof.
  rewrite group_by_year_month_shape. split.
  - rewrite <-years_of_nil_iff. split; [apply fmap_nil_inv|by intros ->].
  - rewrite Forall_fmap. apply Forall_forall. intros y Hy. cbn [snd compose].
    apply elem_of_years_of in Hy as (d & Hd & Hyd). split.
    + intros E%fmap_nil_inv.
      assert (month (d_datetime d) ∈ months_of items y) as Hin.
      { apply elem_of_months_of. by exists d. }
      rewrite E in Hin. by apply elem_of_nil in Hin.
    + rewrite Forall_fmap. apply Forall_forall. intros m Hm. cbn [snd compose].
      apply elem_of_months_of in Hm as (d' & Hd' & Hb).
      intros E.
      assert (d' ∈ sorted_reverse d_datetime dt_leb (filter (in_bucket y m) items))
        as Hin.
      { rewrite sorted_reverse_perm. by apply list_elem_of_filter. }
      rewrite E in Hin. by apply elem_of_nil in Hin.
Qed.

(** * Further properties of the Renderer and of the run *)

Lemma length_buckets g :
  length (buckets g) = sum_list ((λ ye, length ye.2) <$> g).
Proof.
  unfold buckets. induction g as [|ye g IH]; [done|].
  rewrite bind_cons, length_app, length_fmap, IH. done.
Qed.

Lemma length_month_contents (y : nat) (months : list (nat * list downloaded_item)) :
  length (((λ me : nat * list downloaded_item, ((y, me.1), me.2)) <$> months) ≫= snd)
  = sum_list ((λ e, length e.2) <$> months).
Proof.
  induction months as [|[m l] months IH]; [done|].
  rewrite fmap_cons, bind_cons, length_app, IH. done.
Qed.

Lemma length_contents_buckets g :
  length (contents (buckets g))
  = sum_list ((λ ye, sum_list ((λ e, length e.2) <$> ye.2)) <$> g).
Proof.
  unfold contents, buckets. induction g as [|[y months] g IH]; [done|].
  rewrite bind_cons, bind_app, length_app, IH, fmap_cons.
  cbn [fst snd sum_list foldr]. by rewrite length_month_contents.
Qed.

Lemma bucket_keys_NoDup items : NoDup (buckets (group_by_year_month items)).*1.
Proof.
  rewrite buckets_shape, fmap_bind_list. apply NoDup_bind.
  - intros y1 y2 [y m]. cbn.
    rewrite <-!list_fmap_compose, !list_elem_of_fmap.
    intros _ _ (? & [= ? ?] & _) (? & [= ? ?] & _). congruence.
  - intros y _. cbn. rewrite <-list_fmap_compose.
    apply NoDup_fmap_2_strong; [|apply months_of_NoDup].
    intros ?? _ _ [= ]. done.
  - apply years_of_NoDup.
Qed.

Lemma elem_of_bucket_keys items y m :
  (y, m) ∈ (buckets (group_by_year_month items)).*1 ↔
  ∃ d, d ∈ items ∧ year_month_of d = (y, m).
Proof.
  rewrite buckets_shape, fmap_bind_list, list_elem_of_bind. split.
  - intros (y' & Hm & _). cbn in Hm. rewrite <-list_fmap_compose in Hm.
    apply list_elem_of_fmap in Hm as (m' & [= -> ->] & Hm).
    apply elem_of_months_of in Hm as (d & Hd & Hy & Hm).
    exists d. split; [done|]. unfold year_month_of. by rewrite Hy, Hm.
  - intros (d & Hd & [= Hy Hm]). exists y. split.
    + cbn. rewrite <-list_fmap_compose. apply list_elem_of_fmap.
      exists m. split; [done|]. apply elem_of_months_of. by exists d.
    + apply elem_of_years_of. by exists d.
Qed.

Lemma length_same_elements {A} `{EqDecision A} (l k : list A) :
  NoDup l → (∀ x, x ∈ l ↔ x ∈ k) → length l = length (remove_dups k).
Proof.
  intros Hl Hlk. apply Permutation_length, NoDup_Permutation;
    [done|apply NoDup_remove_dups|].
  intros x. by rewrite Hlk, elem_of_remove_dups.
Qed.

(** X14: the three numbers in the header of the page are the number of
    downloaded records, the number of different years among their
    timestamps, and the number of different (year, month) pairs. *)
Theorem page_header_totals items html :
  build_html (group_by_year_month items) = Ok html →
  ∃ body,
    html = html_head (length items)
             (length (remove_dups (year_of <$> items)))
             (length (remove_dups (year_month_of <$> items)))
           +:+ body +:+ html_tail.
Proof.
  unfold build_html. destruct (concat_results _ _) as [body|]; [|done].
  intros [= <-]. exists body.
  rewrite <-length_contents_buckets, <-length_buckets.
  rewrite (Permutation_length (contents_buckets items)).
  f_equal. f_equal.
  - rewrite group_by_year_month_shape, length_fmap.
    apply length_same_elements; [apply years_of_NoDup|].
    intros y. rewrite elem_of_years_of, list_elem_of_fmap. unfold year_of.
    naive_solver.
  - rewrite <-(length_fmap fst).
    apply length_same_elements; [apply bucket_keys_NoDup|].
    intros [y m]. rewrite elem_of_bucket_keys, list_elem_of_fmap. naive_solver.
Qed.

Lemma page_header_totals_witness :
  ∃ body,
    default "" (gallery (main strict plain_urlopen no_zip
                           (Document (scenario_export "https://h/1" "https://h/2"))))
    = html_head 2 1 2 +:+ body +:+ html_tail.
Proof.
  destruct (page_header_totals
              [scenario_image_saved "https://h/1"; scenario_video_saved "https://h/2"]
              (default "" (gallery (main strict plain_urlopen no_zip
                 (Document (scenario_export "https://h/1" "https://h/2")))))
              ltac:(vm_compute; reflexivity)) as [body Hb].
  exists body. exact Hb.
Defined.

Lemma count_videos_le items n : count_videos items = Ok n → n ≤ length items.
Proof.
  revert n. induction items as [|d items IH]; intros n; cbn [count_videos].
  { intros [= <-]. done. }
  destruct (is_video d) as [b|]; [|done].
  destruct (count_videos items) as [k|]; [|done].
  intros [= <-]. specialize (IH k eq_refl). cbn. destruct b; lia.
Qed.

(** X15: in every month section the two count badges add up to the item
    count of the section: the photo count is the item count minus the video
    count, and the video count never exceeds the item count. *)
Theorem page_month_counts_add_up month_num items h :
  build_month (month_num, items) = Ok h →
  ∃ videos photos cards,
    count_videos items = Ok videos ∧
    videos + photos = length items ∧
    h = html_month (month_name month_num) (length items) videos photos
        +:+ cards +:+ html_month_end.
Proof.
  unfold build_month. destruct (count_videos items) as [v|] eqn:Hv; [|done].
  destruct (concat_results build_card items) as [cards|]; [|done].
  intros [= <-]. exists v, (length items - v), cards.
  apply count_videos_le in Hv. split_and!; [done|lia|done].
Qed.

Lemma page_month_counts_add_up_witness :
  ∃ videos photos cards,
    count_videos [scenario_video_saved "https://h/2"] = Ok videos ∧
    videos + photos = length [scenario_video_saved "https://h/2"] ∧
    default "" (match build_month (1, [scenario_video_saved "https://h/2"]) with
                | Ok h => Some h | Raise _ => None end)
    = html_month (month_name 1) (length [scenario_video_saved "https://h/2"])
        videos photos +:+ cards +:+ html_month_end.
Proof.
  apply (page_month_counts_add_up 1 [scenario_video_saved "https://h/2"]).
  vm_compute. reflexivity.
Defined.

Lemma download_loop_saved_text stdout urlopen ZipFile idx items st :
  Forall (λ d, text_memory (d_item d)) (downloaded st) →
  Forall (λ d, text_memory (d_item d))
    (downloaded (download_loop stdout urlopen ZipFile idx items st).1).
Proof.
  revert idx st. induction items as [|item items IH]; intros idx st Hst; [done|].
  cbn [download_loop].
  pose proof (download_one_saved_item stdout urlopen ZipFile idx item) as Hs.
  destruct (download_one stdout urlopen ZipFile idx item) as [evs o]. cbn [snd] in Hs.
  destruct o as [d| |e]; [|by apply IH|done].
  apply IH. cbn. apply Forall_app. split; [done|].
  destruct (Hs d eq_refl) as (Hd & _ & Ht). constructor; [by rewrite Hd|done].
Qed.

(** X16: the Renderer never raises on what the Fetcher returns, whatever the
    input records were: every downloaded record has a text as media type,
    which is all that building the page asks of it. *)
Theorem renderer_accepts_fetcher_output stdout urlopen ZipFile items :
  ∃ html,
    build_html (group_by_year_month
      (downloaded (download_media_files stdout urlopen ZipFile items).1)) = Ok html.
Proof.
  apply build_html_grouped_text, download_loop_saved_text. constructor.
Qed.

(** * The page and the files, and the run as a whole *)

Lemma startswith_app s t p :
  Str.startswith s p = true → Str.startswith (s +:+ t) p = true.
Proof.
  revert s. induction p as [|a p IH]; intros s; [by destruct s, t|].
  destruct s as [|b s]; [done|]. rewrite StrFacts.app_String. cbn [Str.startswith].
  destruct (Ascii.eqb a b); [apply IH|done].
Qed.

Lemma contains_app_l p a b :
  Str.contains p a = true → Str.contains p (a +:+ b) = true.
Proof.
  induction a as [|x a IH]; rewrite (StrFacts.contains_unfold p).
  - rewrite orb_false_r. intros H. apply StrFacts.startswith_contains.
    by apply (startswith_app "" b).
  - intros [H|H]%orb_true_iff.
    + apply StrFacts.startswith_contains. by apply startswith_app.
    + rewrite StrFacts.app_String, StrFacts.contains_unfold, (IH H).
      by rewrite orb_true_r.
Qed.

Lemma contains_app_r p a b :
  Str.contains p b = true → Str.contains p (a +:+ b) = true.
Proof.
  intros H. induction a as [|x a IH]; [done|].
  rewrite StrFacts.app_String, StrFacts.contains_unfold, IH.
  by rewrite orb_true_r.
Qed.

Lemma contains_between p1 p2 x s1 s2 :
  Str.contains (p2 +:+ x +:+ s1) ((p1 +:+ p2) +:+ x +:+ (s1 +:+ s2)) = true.
Proof.
  rewrite StrFacts.app_assoc. apply contains_app_r.
  rewrite <-(StrFacts.app_assoc x s1 s2), <-(StrFacts.app_assoc p2 (x +:+ s1) s2).
  apply contains_app_l, StrFacts.startswith_contains, StrFacts.startswith_refl.
Qed.

Lemma build_card_links d h :
  build_card d = Ok h → Str.contains (media_src (local_path d)) h = true.
Proof.
  unfold build_card. cbv zeta.
  destruct (is_video d) as [[|]|]; [| |done]; intros [= <-]; unfold html_card;
    do 3 apply contains_app_r; apply contains_app_l.
  - exact (contains_between "<video class='media' controls preload='metadata' "
             "src='" (local_path d) "'" "></video>").
  - rewrite <-(StrFacts.app_assoc "' alt='").
    exact (contains_between "<img class='media' " "src='" (local_path d) "'"
             (" alt='" +:+ strftime (d_datetime d) "%B %d, %Y" +:+ "' loading='lazy'>")).
Qed.

Lemma concat_results_elem {A} (f : A → result string) (l : list A) h x :
  concat_results f l = Ok h → x ∈ l →
  ∃ hx, f x = Ok hx ∧ ∀ p, Str.contains p hx = true → Str.contains p h = true.
Proof.
  revert h. induction l as [|y l IH]; intros h Hc Hx; [by apply elem_of_nil in Hx|].
  cbn [concat_results] in Hc. destruct (f y) as [hy|] eqn:Hy; [|done].
  destruct (concat_results f l) as [h'|]; [|done]. injection Hc as <-.
  apply elem_of_cons in Hx as [->|Hx].
  - exists hy. split; [done|]. intros p. apply contains_app_l.
  - destruct (IH h' eq_refl Hx) as (hx & Hf & Hp). exists hx. split; [done|].
    intros p Hc. by apply contains_app_r, Hp.
Qed.

Lemma build_month_links m items h d :
  build_month (m, items) = Ok h → d ∈ items →
  Str.contains (media_src (local_path d)) h = true.
Proof.
  unfold build_month. destruct (count_videos items) as [v|]; [|done].
  destruct (concat_results build_card items) as [cards|] eqn:Hc; [|done].
  intros [= <-] Hd. apply contains_app_r, contains_app_l.
  destruct (concat_results_elem _ _ _ _ Hc Hd) as (hx & Hf & Hp).
  by apply Hp, build_card_links.
Qed.

Lemma build_year_links y months h m items d :
  build_year (y, months) = Ok h → (m, items) ∈ months → d ∈ items →
  Str.contains (media_src (local_path d)) h = true.
Proof.
  unfold build_year. destruct (concat_results build_month months) as [s|] eqn:Hc;
    [|done].
  intros [= <-] Hm Hd. apply contains_app_r, contains_app_l.
  destruct (concat_results_elem _ _ _ _ Hc Hm) as (hx & Hf & Hp).
  by eapply Hp, build_month_links.
Qed.

Lemma build_html_links g html d :
  build_html g = Ok html → d ∈ contents (buckets g) →
  Str.contains (media_src (local_path d)) html = true.
Proof.
  unfold build_html. destruct (concat_results build_year g) as [s|] eqn:Hc; [|done].
  intros [= <-]. unfold contents, buckets.
  intros ([[y m] items] & Hd & ([y' months] & Hm & Hy)%list_elem_of_bind)%list_elem_of_bind.
  cbn [fst snd] in Hd, Hm.
  apply list_elem_of_fmap in Hm as ([m' items'] & [= -> -> ->] & Hm).
  apply contains_app_r, contains_app_l.
  destruct (concat_results_elem _ _ _ _ Hc Hy) as (hx & Hf & Hp).
  by eapply Hp, build_year_links.
Qed.

(** X17: whatever grouped index the Renderer is given, the page it returns
    refers to the file of every record of the index: for each record the
    page holds the attribute src='...' with the local path of that record. *)
Theorem page_links_every_record g html d :
  build_html g = Ok html → d ∈ contents (buckets g) →
  Str.contains (media_src (local_path d)) html = true.
Proof. apply build_html_links. Qed.

Lemma page_links_every_record_witness :
  Str.contains (media_src (local_path (scenario_video_saved "https://h/2")))
    (default "" (gallery (main strict plain_urlopen no_zip
                            (Document (scenario_export "https://h/1" "https://h/2")))))
  = true.
Proof.
  apply (page_links_every_record
           (group_by_year_month
              [scenario_image_saved "https://h/1"; scenario_video_saved "https://h/2"])).
  - vm_compute. reflexivity.
  - vm_compute. right. left.
Defined.

Section RunMore.
Variable stdout : N → bool.
Variable urlopen : nat → string → reply.
Variable ZipFile : list byte → option zipfile.

Local Abbreviation download_media_files := (download_media_files stdout urlopen ZipFile).
Local Abbreviation fetched := (fetched stdout urlopen ZipFile).

Lemma main_cases file :
  (exit_code (main stdout urlopen ZipFile file) = 1 ∧
   gallery (main stdout urlopen ZipFile file) = None ∧ ∀ st, ¬ fetched file st) ∨
  (∃ st html, fetched file st ∧
     build_html (group_by_year_month (downloaded st)) = Ok html ∧
     main stdout urlopen ZipFile file = mk_run 0 (trace st) (Some html)).
Proof.
  unfold fetched. destruct file as [| |data]; cbn [main].
  1,2: left; split_and!; [done..|]; intros st (? & ? & [=] & _).
  destruct (load_memories stdout data) as [ms|e] eqn:Hl.
  2: { left. split_and!; [done..|]. intros st (? & ? & [= <-] & ? & _). congruence. }
  assert (∀ st, (∃ data' ms', Document data = Document data' ∧
                   load_memories stdout data' = Ok ms' ∧
                   download_media_files ms' = (st, None) ∧ downloaded st ≠ []) →
                download_media_files ms = (st, None) ∧ downloaded st ≠ [])
    as Hinv.
  { intros st (? & ? & [= <-] & Hl' & Hd & Hne). rewrite Hl in Hl'.
    by injection Hl' as <-. }
  destruct ms as [|m ms].
  { left. split_and!; [done..|]. intros st [[= <-] Hne]%Hinv. done. }
  pose proof (download_loop_saved_text stdout urlopen ZipFile 0 (m :: ms)
                (mk_dl_state [] [] []) (Forall_nil_2 _)) as Ht.
  fold (download_media_files (m :: ms)) in Ht.
  destruct (download_media_files (m :: ms)) as [st e] eqn:Hd. cbn [fst] in Ht.
  destruct e as [e|].
  { left. split_and!; [done..|]. intros st' [[=] _]%Hinv. }
  destruct (downloaded st) as [|d ds] eqn:Hds.
  { left. split_and!; [done..|]. intros st' [[= <-] Hne]%Hinv. done. }
  destruct (build_html_grouped_text (d :: ds) Ht) as [html Hh].
  right. exists st, html. rewrite Hds, Hh. split_and!; [|done..].
  by exists data, (m :: ms).
Qed.
End RunMore.

(** X18: for every input, the run ends with status 0 or 1; it writes the
    page exactly when the status is 0; and the status is 0 exactly when the
    file holds a document the Loader accepts, the Fetcher ends without
    exception and at least one record was downloaded.  Building the page
    never fails. *)
Theorem run_succeeds_iff stdout urlopen ZipFile file :
  exit_code (main stdout urlopen ZipFile file) ≤ 1 ∧
  (exit_code (main stdout urlopen ZipFile file) = 0 ↔
     is_Some (gallery (main stdout urlopen ZipFile file))) ∧
  (exit_code (main stdout urlopen ZipFile file) = 0 ↔
     ∃ data ms st,
       file = Document data ∧ load_memories stdout data = Ok ms ∧
       download_media_files stdout urlopen ZipFile ms = (st, None) ∧ downloaded st ≠ []).
Proof.
  destruct (main_cases stdout urlopen ZipFile file)
    as [(He & Hg & Hn)|(st & html & (data & ms & Hf) & _ & ->)].
  - rewrite He, Hg. split_and!; [done| |].
    + split; [done|]. by intros [? [=]].
    + split; [done|]. intros (data & ms & st & H). destruct (Hn st). by exists data, ms.
  - cbn. split_and!; [lia|done|]. split; [|done]. intros _. by exists data, ms, st.
Qed.

(** X19: when a run writes the page, every media file it wrote to disk is
    referred to in the page by src='...' with its path, and no two of the
    files it wrote have the same path. *)
Theorem run_page_links_written_files stdout urlopen ZipFile file html :
  gallery (main stdout urlopen ZipFile file) = Some html →
  NoDup (written_paths (effects (main stdout urlopen ZipFile file))) ∧
  ∀ p, p ∈ written_paths (effects (main stdout urlopen ZipFile file)) →
       Str.contains (media_src p) html = true.
Proof.
  destruct (main_cases stdout urlopen ZipFile file)
    as [(_ & -> & _)|(st & html' & (data & ms & _ & _ & Hd & _) & Hh & ->)]; [done|].
  cbn [gallery effects]. intros [= ->].
  assert (st = (download_media_files stdout urlopen ZipFile ms).1) as -> by by rewrite Hd.
  unfold download_media_files in *. split.
  - apply download_loop_paths; [constructor|]. intros p Hp. by apply elem_of_nil in Hp.
  - destruct (download_loop_adds stdout urlopen ZipFile 0 ms (mk_dl_state [] [] []))
      as (D & F & HD & _ & HW & _).
    cbn [downloaded trace written_paths omap list_omap app] in HD, HW.
    rewrite HW, <-HD. intros p (d & -> & Hp)%list_elem_of_fmap.
    eapply build_html_links; [exact Hh|].
    by rewrite (contents_buckets (downloaded _)).
Qed.

Lemma run_page_links_written_files_witness :
  NoDup (written_paths (effects (main strict plain_urlopen no_zip
           (Document (scenario_export "https://h/1" "https://h/2"))))) ∧
  ∀ p, p ∈ written_paths (effects (main strict plain_urlopen no_zip
              (Document (scenario_export "https://h/1" "https://h/2")))) →
       Str.contains (media_src p)
         (default "" (gallery (main strict plain_urlopen no_zip
            (Document (scenario_export "https://h/1" "https://h/2"))))) = true.
Proof.
  apply (run_page_links_written_files strict plain_urlopen no_zip
           (Document (scenario_export "https://h/1" "https://h/2"))).
  vm_compute. reflexivity.
Defined.
